(** * Conversation session cache and inference proxy of the prompt-portal
      C++ backend (backend_cpp/src/llm_client.cpp, include/llm_client.hpp)

    The development embeds [LLMClient] (test_connection, generate,
    generate_stream) and [SessionManager] (get_or_create_session,
    trim_history, process_message, process_message_stream,
    get_session_history, clear_session) as functions over an explicit
    process state, and proves the properties of the session protocol.

    Conventions of the embedding:
    - [std::string] is [string] (a sequence of 8-bit characters);
      [std::vector<T>] is [list T]; [std::map<std::string, Session>] is
      [gmap string Session]; [int] is a [Z] with the 32-bit wrap-around
      written out, [size_t] a [Z] modulo 2^64; [double] values are only
      stored and forwarded, never computed with, and are carried as their
      64-bit pattern.
    - Everything outside the process (the socket behind [http_post], the
      system clock) is an abstract [World] threaded through the state; the
      two functions of the nlohmann JSON library that work on text
      ([dump], [parse]) are taken as given.
    - A C++ exception is an [outcome] of the computation; [try]/[catch] is
      [try_catch].  A [std::function] callback is a [callback]: a function
      on the variables of its owner that returns or throws.
    - [std::lock_guard] on [sessions_mutex_] is [lock_guard], and
      [std::mutex] is not recursive.  The state counts the guards alive on
      the mutex and logs every entry into [lock] and every release.  A
      guard constructed while the mutex is free is granted, and released
      when its scope is left, by return or by exception.  A guard
      constructed while the mutex is held does not come back: the C++
      standard leaves a lock by the owner undefined, the usual
      implementations (a plain pthread mutex) make the thread wait for
      ever, and a thread that waits for an owner that is stuck waits for
      ever too.  The outcome of such a computation is [Blocked]; the guards
      it holds stay alive.
    - Console output ([std::cout], [std::cerr]) and the pacing [sleep_for]
      of the simulated stream are not modelled. *)

From stdpp Require Import gmap strings list.
From Stdlib Require Import ZArith Lia.
From Equations Require Import Equations.

Local Open Scope Z_scope.
Local Set Warnings "-register-all".

(** ** Machine integers *)

Definition INT_MIN : Z := - 2 ^ 31.
Definition INT_MAX : Z := 2 ^ 31 - 1.

(** Two's-complement reduction of a mathematical integer to [int]. *)
Definition wrap_int (z : Z) : Z := (z + 2 ^ 31) mod 2 ^ 32 - 2 ^ 31.

(** Conversion to [size_t] (64-bit): reduction modulo 2^64. *)
Definition to_size_t (z : Z) : Z := z mod 2 ^ 64.

Definition in_int (z : Z) : Prop := INT_MIN <= z <= INT_MAX.

(** A [double], by its 64-bit pattern. *)
Definition double : Type := Z.

(** ** Data model (llm_client.hpp) *)

Record ChatMessage : Type := mkChatMessage {
  role : string;      (* "system", "user", or "assistant" *)
  content : string
}.

Global Instance ChatMessage_eq_dec : EqDecision ChatMessage.
Proof. solve_decision. Defined.

Record Session : Type := mkSession {
  dialog : list ChatMessage;
  created_at : Z;
  last_access : Z;
  message_count : Z
}.

Definition set_dialog (d : list ChatMessage) (s : Session) : Session :=
  mkSession d (created_at s) (last_access s) (message_count s).

Definition set_last_access (t : Z) (s : Session) : Session :=
  mkSession (dialog s) (created_at s) t (message_count s).

(** [session.dialog.push_back(m)] *)
Definition dialog_push_back (m : ChatMessage) (s : Session) : Session :=
  set_dialog (dialog s ++ [m]) s.

(** [session.message_count++] *)
Definition message_count_incr (s : Session) : Session :=
  mkSession (dialog s) (created_at s) (last_access s)
            (wrap_int (message_count s + 1)).

(** ** SessionManager::trim_history *)

(** [for (size_t i = start; i < dialog.size(); ++i)
       new_dialog.push_back(dialog[i]);]
    The loop is entered only when [start < dialog.size()]; it then visits
    the indices [start], ..., [dialog.size() - 1] in order. *)
Definition copy_from (start : Z) (d new_dialog : list ChatMessage)
  : list ChatMessage :=
  if start <? Z.of_nat (length d) then
    foldl (fun nd i => match d !! i with
                       | Some m => nd ++ [m]
                       | None => nd
                       end)
          new_dialog
          (seq (Z.to_nat start) (length d - Z.to_nat start))
  else new_dialog.

Definition trim_history (max_history_messages_ : Z) (session : Session)
  : Session :=
  let size := Z.of_nat (length (dialog session)) in
  (* Keep system message + last N message pairs *)
  if 1 <? size then
    (* static_cast<int>(size) - 1 *)
    let non_system := wrap_int (wrap_int size - 1) in
    let max_keep := wrap_int (max_history_messages_ * 2) in
    if max_keep <? non_system then
      (* new_dialog.push_back(session.dialog[0]) *)
      let new_dialog := take 1 (dialog session) in
      (* int start = static_cast<int>(size) - max_keep; size_t i = start *)
      let start := wrap_int (wrap_int size - max_keep) in
      let new_dialog := copy_from (to_size_t start) (dialog session) new_dialog in
      set_dialog new_dialog session
    else session
  else session.

(** ** JSON values (nlohmann::json), as far as the client inspects them *)

Inductive json : Type :=
| json_null
| json_boolean (b : bool)
| json_number_integer (z : Z)
| json_number_float (d : double)
| json_string (s : string)
| json_array (a : list json)
| json_object (o : list (string * json)).

(** ** Exceptions *)

Inductive exception : Type :=
| runtime_error (what : string)      (* std::runtime_error *)
| json_exception (what : string)     (* nlohmann::json::exception and subclasses *)
| std_exception (what : string).     (* any other std::exception *)

Definition what (e : exception) : string :=
  match e with
  | runtime_error w | json_exception w | std_exception w => w
  end.

Definition type_name (j : json) : string :=
  match j with
  | json_null => "null"
  | json_boolean _ => "boolean"
  | json_number_integer _ | json_number_float _ => "number"
  | json_string _ => "string"
  | json_array _ => "array"
  | json_object _ => "object"
  end.

Fixpoint object_find (key : string) (o : list (string * json)) : option json :=
  match o with
  | [] => None
  | (k, v) :: o' => if decide (k = key) then Some v else object_find key o'
  end.

(** [body[key] = v] on an object *)
Fixpoint object_set (key : string) (v : json) (o : list (string * json))
  : list (string * json) :=
  match o with
  | [] => [(key, v)]
  | (k, v') :: o' =>
      if decide (k = key) then (k, v) :: o' else (k, v') :: object_set key v o'
  end.

(** [j.contains(key)]: true iff [j] is an object that has the key. *)
Definition contains (j : json) (key : string) : bool :=
  match j with
  | json_object o => bool_decide (is_Some (object_find key o))
  | _ => false
  end.

(** [j[key]] on a non-const value: [null] turns into an empty object, a
    missing key is inserted with value [null]; any other type throws
    type_error 305. *)
Definition at_key (j : json) (key : string) : exception + json :=
  match j with
  | json_null => inr json_null
  | json_object o => inr (default json_null (object_find key o))
  | _ => inl (json_exception
           ("[json.exception.type_error.305] cannot use operator[] with a string argument with "
            +:+ type_name j))
  end.

(** [j[idx]] on a non-const value: [null] turns into an array, an array is
    filled up with [null] up to [idx]; any other type throws type_error 305. *)
Definition at_index (j : json) (idx : nat) : exception + json :=
  match j with
  | json_null => inr json_null
  | json_array a => inr (default json_null (a !! idx))
  | _ => inl (json_exception
           ("[json.exception.type_error.305] cannot use operator[] with a numeric argument with "
            +:+ type_name j))
  end.

(** [j.size()] *)
Definition size (j : json) : Z :=
  match j with
  | json_null => 0
  | json_array a => Z.of_nat (length a)
  | json_object o => Z.of_nat (length o)
  | _ => 1
  end.

(** [j.get<std::string>()] *)
Definition get_string (j : json) : exception + string :=
  match j with
  | json_string s => inr s
  | _ => inl (json_exception
           ("[json.exception.type_error.302] type must be string, but is "
            +:+ type_name j))
  end.

(** ** The environment of the process *)

Class Platform : Type := {
  (** everything outside the process: peers on the network, the clock *)
  World : Type;
  (** [http_post(url, body, timeout_sec)]: the response body, or the
      exception the socket code throws (socket creation, name resolution,
      connect, a response without header terminator, a bad port number) *)
  http_post : string -> string -> Z -> World -> (exception + string) * World;
  (** [std::chrono::system_clock::now().time_since_epoch().count()] *)
  system_clock_now : World -> Z * World;
  (** [nlohmann::json::dump] (throws type_error 316 on invalid UTF-8) *)
  json_dump : json -> exception + string;
  (** [nlohmann::json::parse] (throws parse_error) *)
  json_parse : string -> exception + json
}.

Inductive event : Type :=
| ev_lock        (* the constructor of a lock_guard on sessions_mutex_ is entered *)
| ev_unlock      (* a lock_guard is destroyed *)
| ev_http_post.  (* http_post is entered *)

Global Instance event_eq_dec : EqDecision event.
Proof. solve_decision. Defined.

Inductive outcome (A : Type) : Type :=
| Return (a : A)
| Throw (e : exception)
| Blocked.        (* the thread waits for ever *)
Arguments Return {A} a.
Arguments Throw {A} e.
Arguments Blocked {A}.

(** Computations over a state [St] that return a value, throw, or get
    stuck. *)
Definition Mx (St A : Type) : Type := St -> outcome A * St.

Definition ret {St A} (a : A) : Mx St A := fun st => (Return a, st).

Definition bind {St A B} (m : Mx St A) (k : A -> Mx St B) : Mx St B :=
  fun st => match m st with
            | (Return a, st') => k a st'
            | (Throw e, st') => (Throw e, st')
            | (Blocked, st') => (Blocked, st')
            end.

Definition throw {St A} (e : exception) : Mx St A := fun st => (Throw e, st).

(** [try { body } catch (e) { handler }] *)
Definition try_catch {St A} (body : Mx St A) (handler : exception -> Mx St A)
  : Mx St A :=
  fun st => match body st with
            | (Return a, st') => (Return a, st')
            | (Throw e, st') => handler e st'
            | (Blocked, st') => (Blocked, st')
            end.

(** a library call that returns or throws *)
Definition lift {St A} (r : exception + A) : Mx St A :=
  match r with
  | inl e => throw e
  | inr a => ret a
  end.

(** A callback [std::function<void(const std::string&)>] of a caller whose
    own variables have type [S]: handed a chunk, it updates them and
    returns, throws, or does not come back. *)
Definition callback (S : Type) : Type := string -> S -> outcome unit * S.

(** A callback that always returns. *)
Definition returning {S} (f : string -> S -> S) : callback S :=
  fun chunk s => (Return tt, f chunk s).

Section Effects.
Context `{Platform}.

(** The mutable state a call can touch: the world, the session map of the
    (single) SessionManager, the number of live guards of its mutex, and
    the log of mutex and network events. *)
Record State : Type := mkState {
  world : World;
  sessions_ : gmap string Session;
  guards : nat;
  events : list event
}.

(** The methods that take no callback run on [State]; the streaming ones
    run on the variables of the caller's callback next to it. *)
Definition M (A : Type) : Type := Mx State A.

(** a computation that does not touch the caller's variables *)
Definition on_state {S A} (m : M A) : Mx (S * State) A :=
  fun c => let (r, st) := m (snd c) in (r, (fst c, st)).

(** a computation on the caller's variables alone *)
Definition on_caller {S A} (f : S -> outcome A * S) : Mx (S * State) A :=
  fun c => let (r, s) := f (fst c) in (r, (s, snd c)).

(** A local variable, initialised to [init], that the callback handed on
    captures by reference: [m] runs with it next to the caller's
    variables, and its final value is returned with the result of [m].
    When [m] throws, the variable goes with the frame. *)
Definition with_local {L S A} (init : L) (m : Mx ((L * S) * State) A)
  : Mx (S * State) (A * L) :=
  fun c =>
    match m ((init, fst c), snd c) with
    | (Return a, (ls, st)) => (Return (a, fst ls), (snd ls, st))
    | (Throw e, (ls, st)) => (Throw e, (snd ls, st))
    | (Blocked, (ls, st)) => (Blocked, (snd ls, st))
    end.

Definition log_event (ev : event) (st : State) : State :=
  mkState (world st) (sessions_ st) (guards st) (events st ++ [ev]).

Definition call_http_post (url body : string) (timeout_sec : Z) : M string :=
  fun st =>
    let st := log_event ev_http_post st in
    let (r, w) := http_post url body timeout_sec (world st) in
    let st := mkState w (sessions_ st) (guards st) (events st) in
    lift r st.

Definition now : M Z :=
  fun st =>
    let (t, w) := system_clock_now (world st) in
    (Return t, mkState w (sessions_ st) (guards st) (events st)).

(** [{ std::lock_guard<std::mutex> lock(sessions_mutex_); body }]:
    the constructor locks the mutex.  When the mutex is free the guard is
    alive while [body] runs and is destroyed when the scope is left, by
    return or by exception.  When the mutex is held, the constructor does
    not come back.  A [body] that is stuck keeps its guard. *)
Definition lock_guard {A} (body : M A) : M A :=
  fun st =>
    let st := log_event ev_lock st in
    match guards st with
    | O =>
        let st := mkState (world st) (sessions_ st) 1 (events st) in
        match body st with
        | (Blocked, st) => (Blocked, st)
        | (r, st) =>
            let st := log_event ev_unlock st in
            (r, mkState (world st) (sessions_ st) (Nat.pred (guards st))
                        (events st))
        end
    | S _ => (Blocked, st)
    end.

Definition get_sessions : M (gmap string Session) :=
  fun st => (Return (sessions_ st), st).

Definition put_sessions (m : gmap string Session) : M unit :=
  fun st => (Return tt, mkState (world st) m (guards st) (events st)).

End Effects.

Notation "'do' x <- m ; k" := (bind m (fun x => k))
  (at level 10, x name, m at level 100, k at level 200,
   format "'[v' 'do'  x  <-  m ; '/' k ']'").
Notation "'exec' m ; k" := (bind m (fun _ => k))
  (at level 10, m at level 100, k at level 200,
   format "'[v' 'exec'  m ; '/' k ']'").

(** ** LLMClient *)

Record LLMClient : Type := mkLLMClient {
  server_url_ : string;
  timeout_ : Z;
  default_temperature_ : double;
  default_top_p_ : double;
  default_max_tokens_ : Z;
  skip_thinking_ : bool;
  available_ : bool
}.

Definition message_json (msg : ChatMessage) : json :=
  json_object [("role", json_string (role msg));
               ("content", json_string (content msg))].

(** The request body of [test_connection]. *)
Definition connection_probe : json :=
  json_object
    [("model", json_string "default");
     ("messages", json_array
        [json_object [("role", json_string "system");
                      ("content", json_string "test")]]);
     ("max_tokens", json_number_integer 1)].

Definition chunk_size : nat := 10.

(** The delivery loop of [generate_stream]:
    [for (size_t i = 0; i < full_response.length(); i += chunk_size)
       on_chunk(full_response.substr(i, chunk_size));]
    It ends when the callback throws or does not come back. *)
Equations? stream_loop {S : Type} (full_response : string)
    (on_chunk : callback S) (i : nat) (s : S) : outcome unit * S
    by wf (String.length full_response - i)%nat lt :=
  stream_loop full_response on_chunk i s
    with decide (i < String.length full_response)%nat := {
    | left _
        with on_chunk (String.substring i chunk_size full_response) s := {
        | (Return _, s') =>
            stream_loop full_response on_chunk (i + chunk_size)%nat s'
        | (Throw e, s') => (Throw e, s')
        | (Blocked, s') => (Blocked, s') }
    | right _ => (Return tt, s) }.
Proof. unfold chunk_size. lia. Qed.

Section Client.
Context `{Platform}.

Definition test_connection (self : LLMClient) : M bool :=
  try_catch
    (let body := connection_probe in
     do text <- lift (json_dump body);
     do response <- call_http_post (server_url_ self +:+ "/v1/chat/completions") text 10;
     do j <- lift (json_parse response);
     if contains j "choices" then ret true else ret false)
    (fun e => ret false).

Definition generate (self : LLMClient) (messages : list ChatMessage)
    (temperature top_p : option double) (max_tokens : option Z)
    (model : string) : M string :=
  let temp := default (default_temperature_ self) temperature in
  let tp := default (default_top_p_ self) top_p in
  let mt := default (default_max_tokens_ self) max_tokens in
  let msgs := json_array (message_json <$> messages) in
  let body := [("model", json_string model);
               ("messages", msgs);
               ("temperature", json_number_float temp);
               ("top_p", json_number_float tp);
               ("max_tokens", json_number_integer mt)] in
  let body := if skip_thinking_ self
              then object_set "extra_body"
                     (json_object [("enable_thinking", json_boolean false)]) body
              else body in
  try_catch
    (do text <- lift (json_dump (json_object body));
     do response <- call_http_post (server_url_ self +:+ "/v1/chat/completions")
                                text (timeout_ self);
     do j <- lift (json_parse response);
     if contains j "choices" then
       do choices <- lift (at_key j "choices");
       if 0 <? size choices then
         do c0 <- lift (at_index choices 0);
         do message <- lift (at_key c0 "message");
         do content_ <- lift (at_key message "content");
         do content <- lift (get_string content_);
         ret content
       else throw (runtime_error "Invalid response from LLM server")
     else throw (runtime_error "Invalid response from LLM server"))
    (fun e =>
       match e with
       | json_exception w =>
           throw (runtime_error ("JSON parse error: " +:+ w))
       | _ =>
           throw (runtime_error ("LLM generation failed: " +:+ what e))
       end).

Definition generate_stream {S : Type} (self : LLMClient)
    (messages : list ChatMessage) (on_chunk : callback S)
    (temperature top_p : option double) (max_tokens : option Z)
    (model : string) : Mx (S * State) unit :=
  try_catch
    (do full_response <- on_state (generate self messages temperature top_p
                                            max_tokens model);
     (* Simulate streaming by sending chunks *)
     on_caller (stream_loop full_response on_chunk 0))
    (fun e => on_caller (on_chunk ("Error: " +:+ what e))).

(** [LLMClient::LLMClient(const LlmConfig&)] *)
Definition LLMClient_new (server_url : string) (timeout : Z)
    (temperature top_p : double) (max_tokens : Z) : M LLMClient :=
  let self := mkLLMClient server_url timeout temperature top_p max_tokens true false in
  do available <- test_connection self;
  ret (mkLLMClient server_url timeout temperature top_p max_tokens true available).

End Client.

(** ** SessionManager *)

Record SessionManager : Type := mkSessionManager {
  client_ : LLMClient;
  max_history_messages_ : Z
}.

Section Manager.
Context `{Platform}.

(** A [Session&] (or [Session*]) into [sessions_] is the key of the map
    node it points to; nodes of a [std::map] do not move. *)
Definition session_ref : Type := string.

(** a member update through the reference *)
Definition session_update (ref : session_ref) (f : Session -> Session) : M unit :=
  do sessions <- get_sessions;
  put_sessions (alter f ref sessions).

(** [ref->dialog], copied *)
Definition session_dialog (ref : session_ref) : M (list ChatMessage) :=
  do sessions <- get_sessions;
  ret (default [] (dialog <$> sessions !! ref)).

Definition get_or_create_session (session_id system_prompt : string)
  : M session_ref :=
  lock_guard
    (do sessions <- get_sessions;
     match sessions !! session_id with
     | Some found =>
         do t <- now;
         exec put_sessions (<[session_id := set_last_access t found]> sessions);
         ret session_id
     | None =>
         (* Create new session *)
         do t <- now;
         let session :=
           mkSession [mkChatMessage "system" system_prompt] t t 0 in
         exec put_sessions (<[session_id := session]> sessions);
         ret session_id
     end).

(** The first locked block of [process_message] and of
    [process_message_stream] (the two are the same text). *)
Definition locked_phase_A (self : SessionManager)
    (session_id system_prompt user_message : string)
  : M (list ChatMessage) :=
  lock_guard
    (do session_ptr <- get_or_create_session session_id system_prompt;
     (* Add user message *)
     exec session_update session_ptr
            (dialog_push_back (mkChatMessage "user" user_message));
     exec session_update session_ptr message_count_incr;
     (* Trim history *)
     exec session_update session_ptr
            (trim_history (max_history_messages_ self));
     (* Copy messages for inference *)
     session_dialog session_ptr).

(** The last locked block of both functions: add the assistant response
    to the history, if the session is still there. *)
Definition locked_phase_B (session_id response : string) : M unit :=
  lock_guard
    (do sessions <- get_sessions;
     match sessions !! session_id with
     | Some _ =>
         session_update session_id
           (dialog_push_back (mkChatMessage "assistant" response))
     | None => ret tt
     end).

Definition process_message (self : SessionManager)
    (session_id system_prompt user_message : string)
    (temperature top_p : option double) (max_tokens : option Z) : M string :=
  do messages <- locked_phase_A self session_id system_prompt user_message;
  (* Generate response (without holding lock) *)
  do response <- generate (client_ self) messages temperature top_p
                          max_tokens "default";
  exec locked_phase_B session_id response;
  ret response.

Definition process_message_stream {S : Type} (self : SessionManager)
    (session_id system_prompt user_message : string)
    (on_chunk : callback S)
    (temperature top_p : option double) (max_tokens : option Z)
  : Mx (S * State) unit :=
  do messages <- on_state (locked_phase_A self session_id system_prompt
                                          user_message);
  (* Collect full response *)
  let collector : callback (string * S) :=
    fun chunk acc =>
      let full_response := fst acc +:+ chunk in
      let (r, s) := on_chunk chunk (snd acc) in
      (r, (full_response, s)) in
  (* Generate streaming response (without holding lock) *)
  do collected <- with_local ""
                    (generate_stream (client_ self) messages collector
                                     temperature top_p max_tokens "default");
  let full_response := snd collected in
  on_state (locked_phase_B session_id full_response).

Definition get_session_history (session_id : string)
  : M (option (list ChatMessage)) :=
  lock_guard
    (do sessions <- get_sessions;
     ret (dialog <$> sessions !! session_id)).

Definition clear_session (session_id : string) : M unit :=
  lock_guard
    (do sessions <- get_sessions;
     put_sessions (delete session_id sessions)).

(** A freshly constructed manager: no session, mutex free. *)
Definition initial_state (w : World) : State := mkState w ∅ 0 [].

End Manager.

(** The callback used to observe a stream: it appends each chunk it is
    handed to the list of chunks received so far. *)
Definition record_chunk (chunk : string) (received : list string) : list string :=
  received ++ [chunk].

(** Concatenation of the chunks, in delivery order. *)
Definition concat_chunks (chunks : list string) : string :=
  foldr String.append "" chunks.

(** ** Vocabulary of the statements *)

(** The last [n] elements of a list (all of it when it is shorter, none
    when [n] is not positive). *)
Definition last_n {A} (n : Z) (l : list A) : list A :=
  drop (length l - Z.to_nat n) l.

(** The number of messages of a dialog whose role is not "system". *)
Definition non_system_count (d : list ChatMessage) : nat :=
  length (filter (fun m => role m <> "system") d).

(** The chunks the loop cuts from position [i] on. *)
Equations? chunks_from (full_response : string) (i : nat) : list string
    by wf (String.length full_response - i)%nat lt :=
  chunks_from full_response i
    with decide (i < String.length full_response)%nat := {
    | left _ =>
        String.substring i chunk_size full_response
        :: chunks_from full_response (i + chunk_size)%nat
    | right _ => [] }.
Proof. unfold chunk_size. lia. Qed.

(** Handing chunks to a callback one after the other, up to the first
    on which it throws or does not come back. *)
Fixpoint deliver {S} (on_chunk : callback S) (chunks : list string) (s : S)
  : outcome unit * S :=
  match chunks with
  | [] => (Return tt, s)
  | chunk :: chunks' =>
      match on_chunk chunk s with
      | (Return _, s') => deliver on_chunk chunks' s'
      | (Throw e, s') => (Throw e, s')
      | (Blocked, s') => (Blocked, s')
      end
  end.

(** A dialog that begins with a system message. *)
Definition system_headed (s : Session) : Prop :=
  exists prompt, dialog s !! 0%nat = Some (mkChatMessage "system" prompt).

(** The calls of the public interface of [SessionManager]. *)
Inductive call : Type :=
| call_process_message
    (session_id system_prompt user_message : string)
    (temperature top_p : option double) (max_tokens : option Z)
| call_process_message_stream
    (session_id system_prompt user_message : string)
    (temperature top_p : option double) (max_tokens : option Z)
| call_get_session_history (session_id : string)
| call_clear_session (session_id : string).

(** Does a log of mutex events contain an acquisition by a thread that
    already holds the mutex?  [held] is the number of guards alive at
    the start of the log. *)
Fixpoint relocks (held : nat) (evs : list event) : bool :=
  match evs with
  | [] => false
  | ev_lock :: evs' =>
      match held with
      | O => relocks 1 evs'
      | S _ => true
      end
  | ev_unlock :: evs' => relocks (Nat.pred held) evs'
  | ev_http_post :: evs' => relocks held evs'
  end.

(** The part of a log that the thread gets to execute when a [lock] of
    the mutex by its owner blocks: everything before the first such
    [lock]. *)
Fixpoint until_relock (held : nat) (evs : list event) : list event :=
  match evs with
  | [] => []
  | ev_lock :: evs' =>
      match held with
      | O => ev_lock :: until_relock 1 evs'
      | S _ => []
      end
  | ev_unlock :: evs' => ev_unlock :: until_relock (Nat.pred held) evs'
  | ev_http_post :: evs' => ev_http_post :: until_relock held evs'
  end.

Section Vocabulary.
Context `{Platform}.

(** The state a call leaves behind, whether it returned, threw or is
    stuck.  A stream is observed with [record_chunk]. *)
Definition perform (self : SessionManager) (c : call) (st : State) : State :=
  match c with
  | call_process_message sid prompt um t p m =>
      snd (process_message self sid prompt um t p m st)
  | call_process_message_stream sid prompt um t p m =>
      snd (snd (process_message_stream self sid prompt um
                  (returning record_chunk) t p m ([], st)))
  | call_get_session_history sid => snd (get_session_history sid st)
  | call_clear_session sid => snd (clear_session sid st)
  end.

(** A conversation: [process_message] called once per turn on one session
    id, each call after the previous one has returned; it ends at the first
    call that does not return.  A turn is a system prompt and a user
    message. *)
Fixpoint converse (self : SessionManager) (session_id : string)
    (turns : list (string * string)) : M (list string) :=
  match turns with
  | [] => ret []
  | (system_prompt, user_message) :: turns' =>
      do response <- process_message self session_id system_prompt
                                     user_message None None None;
      do responses <- converse self session_id turns';
      ret (response :: responses)
  end.

(** The states produced by a sequence of calls, one after the other, on a
    freshly constructed manager. *)
Definition reachable (self : SessionManager) (st : State) : Prop :=
  exists (w : World) (calls : list call),
    st = foldl (fun st c => perform self c st) (initial_state w) calls.

(** Everything in the source that writes to the session map, piece by
    piece: the public calls, [get_or_create_session] called on its own,
    and the statements of the two locked blocks of a turn (the user
    message appended and counted, the trimming pass, the reply
    appended). *)
Inductive store_step : Type :=
| step_call (c : call)
| step_get_or_create_session (session_id system_prompt : string)
| step_add_user_message (session_ptr : session_ref) (user_message : string)
| step_trim_history (session_ptr : session_ref)
| step_phase_B (session_id text : string).

Definition perform_store_step (self : SessionManager) (a : store_step)
    (st : State) : State :=
  match a with
  | step_call c => perform self c st
  | step_get_or_create_session sid prompt =>
      snd (get_or_create_session sid prompt st)
  | step_add_user_message ref um =>
      snd ((exec session_update ref
                   (dialog_push_back (mkChatMessage "user" um));
            session_update ref message_count_incr) st)
  | step_trim_history ref =>
      snd (session_update ref (trim_history (max_history_messages_ self)) st)
  | step_phase_B sid text => snd (locked_phase_B sid text st)
  end.

(** The states such pieces produce, in any number and order, from a
    freshly constructed manager.  They include the [reachable] states. *)
Definition built (self : SessionManager) (st : State) : Prop :=
  exists (w : World) (steps : list store_step),
    st = foldl (fun st a => perform_store_step self a st) (initial_state w) steps.

(** Every stored dialog begins with a system message. *)
Definition all_system_headed (st : State) : Prop :=
  forall sid s, sessions_ st !! sid = Some s -> system_headed s.

(** Computations that leave the session map and the mutex alone and log
    nothing but entries into [http_post]. *)
Definition net_only {A} (m : M A) : Prop :=
  forall st r st', m st = (r, st') ->
    sessions_ st' = sessions_ st /\ guards st' = guards st /\
    exists evs, events st' = events st ++ evs /\ Forall (eq ev_http_post) evs.

End Vocabulary.

(** ** A scripted peer, for the examples

    The world holds the replies the peer will give, in order, and a clock
    that ticks at every reading.  When the script is exhausted the peer
    refuses the connection. *)

Module Scripted.

Record world : Type := mkWorld {
  replies : list (exception + string);
  clock : Z
}.

(** the double-quote character *)
Definition dq : string := String (Ascii.ascii_of_nat 34) "".

Definition completion_prefix : string :=
  "{" +:+ dq +:+ "choices" +:+ dq +:+ ":[{" +:+ dq +:+ "message" +:+ dq
  +:+ ":{" +:+ dq +:+ "content" +:+ dq +:+ ":" +:+ dq.

Definition completion_suffix : string := dq +:+ "}}]}".

(** The text of a chat completion whose first choice has the content
    [text] (no character of which needs escaping). *)
Definition completion_text (text : string) : string :=
  completion_prefix +:+ text +:+ completion_suffix.

(** The text of a completion without choices. *)
Definition empty_choices_text : string :=
  "{" +:+ dq +:+ "choices" +:+ dq +:+ ":[]}".

Definition completion (text : string) : json :=
  json_object
    [("choices",
      json_array
        [json_object
           [("message", json_object [("content", json_string text)])]])].

(** The parser, on the texts the scripted peer sends: the two shapes of
    completion above; anything else is a syntax error. *)
Definition parse (text : string) : exception + json :=
  let n := String.length text in
  let a := String.length completion_prefix in
  let b := String.length completion_suffix in
  if decide (text = empty_choices_text) then
    inr (json_object [("choices", json_array [])])
  else if String.prefix completion_prefix text
          && (a + b <=? n)%nat
          && bool_decide (String.substring (n - b) b text = completion_suffix)
  then inr (completion (String.substring a (n - a - b) text))
  else inl (json_exception
              "[json.exception.parse_error.101] parse error at line 1, column 1: syntax error while parsing value").

(** The serializer, without escapes; a number is printed as [0]. *)
Fixpoint dump (j : json) : string :=
  match j with
  | json_null => "null"
  | json_boolean b => if b then "true" else "false"
  | json_number_integer _ | json_number_float _ => "0"
  | json_string s => dq +:+ s +:+ dq
  | json_array a =>
      "[" +:+ (fix elements (l : list json) : string :=
                 match l with
                 | [] => ""
                 | [x] => dump x
                 | x :: l' => dump x +:+ "," +:+ elements l'
                 end) a +:+ "]"
  | json_object o =>
      "{" +:+ (fix members (l : list (string * json)) : string :=
                 match l with
                 | [] => ""
                 | [(k, v)] => dq +:+ k +:+ dq +:+ ":" +:+ dump v
                 | (k, v) :: l' =>
                     dq +:+ k +:+ dq +:+ ":" +:+ dump v +:+ "," +:+ members l'
                 end) o +:+ "}"
  end.

Definition post (url body : string) (timeout_sec : Z) (w : world)
  : (exception + string) * world :=
  match replies w with
  | [] => (inl (runtime_error "Failed to connect to localhost:8080"), w)
  | r :: rs => (r, mkWorld rs (clock w))
  end.

Definition read_clock (w : world) : Z * world :=
  (clock w, mkWorld (replies w) (clock w + 1)).

#[global] Instance platform : Platform := {|
  World := world;
  http_post := post;
  system_clock_now := read_clock;
  json_dump := fun j => inr (dump j);
  json_parse := parse
|}.

Definition client : LLMClient :=
  mkLLMClient "http://localhost:8080" 300 0 0 4096 true true.

(** a manager that keeps two pairs of turns *)
Definition manager2 : SessionManager := mkSessionManager client 2.

(** a peer that answers the [k+1]-th request with the text ["r<k+1>"] *)
Definition ten_replies : list (exception + string) :=
  (fun r => inr (completion_text r)) <$>
    ["r1"; "r2"; "r3"; "r4"; "r5"; "r6"; "r7"; "r8"; "r9"; "r10"].

Definition start (script : list (exception + string)) : State :=
  initial_state (mkWorld script 1000).

(** the state after [get_or_create_session] was run once, for ["s"] *)
Definition seeded : State :=
  snd (get_or_create_session "s" "P" (start ten_replies)).

(** the state built by the pieces of one turn on ["s"], run one by one *)
Definition one_turn_built : State :=
  foldl (fun st a => perform_store_step manager2 a st) (start ten_replies)
    [step_get_or_create_session "s" "P"; step_add_user_message "s" "hi";
     step_trim_history "s"; step_phase_B "s" "r1"].

End Scripted.

(** * The transport under the client: parse_url and http_post

    The remaining functions of llm_client.cpp.  [parse_url] is a function
    on strings; [http_post] talks to the BSD socket interface, which is
    taken as given ([Sockets]).  The code is embedded as compiled outside
    Windows. *)

From stdpp Require pretty.

(** ** std::string and the C library *)

Definition CR : Ascii.ascii := Ascii.ascii_of_nat 13.
Definition LF : Ascii.ascii := Ascii.ascii_of_nat 10.
Definition NUL : Ascii.ascii := Ascii.ascii_of_nat 0.
(** the characters ['/'], [':'], ['-'] and ['+'] *)
Definition slash : Ascii.ascii := Ascii.ascii_of_nat 47.
Definition colon : Ascii.ascii := Ascii.ascii_of_nat 58.
Definition minus_sign : Ascii.ascii := Ascii.ascii_of_nat 45.
Definition plus_sign : Ascii.ascii := Ascii.ascii_of_nat 43.
Definition CRLF : string := String CR (String LF "").

(** [s.find(needle)]: the position of the first occurrence of [needle] in
    [s]; [None] is [std::string::npos]. *)
Definition string_find (needle s : string) : option nat :=
  String.index 0 needle s.

(** [s.find(c)] *)
Definition string_find_char (c : Ascii.ascii) (s : string) : option nat :=
  String.index 0 (String c "") s.

(** [s.substr(pos)], for [pos <= s.size()] *)
Definition string_substr_from (pos : nat) (s : string) : string :=
  String.substring pos (String.length s - pos) s.

(** [std::to_string] of an [int] or a [size_t]: the decimal numeral. *)
Definition to_string (z : Z) : string := pretty.pretty z.

(** [isspace] and [isdigit] in the "C" locale *)
Definition isspace (c : Ascii.ascii) : bool :=
  let n := Ascii.nat_of_ascii c in
  ((n =? 32) || ((9 <=? n) && (n <=? 13)))%nat.

Definition isdigit (c : Ascii.ascii) : bool :=
  let n := Ascii.nat_of_ascii c in
  ((48 <=? n) && (n <=? 57))%nat.

Definition digit_value (c : Ascii.ascii) : Z := Z.of_nat (Ascii.nat_of_ascii c) - 48.

Fixpoint skip_space (s : string) : string :=
  match s with
  | String c s' => if isspace c then skip_space s' else s
  | EmptyString => s
  end.

(** The value of the decimal digits at the front of [s], after [acc]. *)
Fixpoint read_digits (acc : Z) (s : string) : Z :=
  match s with
  | String c s' => if isdigit c then read_digits (10 * acc + digit_value c) s'
                   else acc
  | EmptyString => acc
  end.

(** [std::stoi(str)] (base 10, position not asked for): white space is
    skipped, then an optional sign and as many decimal digits as there are
    are read; what follows them is ignored.  Without a digit it throws
    [std::invalid_argument], with a value that is no [int]
    [std::out_of_range]; both are [std::logic_error]s, and the text of
    [what()] is the one of libstdc++. *)
Definition stoi (str : string) : exception + Z :=
  let s := skip_space str in
  let '(negative, s) :=
    match s with
    | String c s' =>
        if Ascii.eqb c minus_sign then (true, s')
        else if Ascii.eqb c plus_sign then (false, s')
        else (false, s)
    | EmptyString => (false, s)
    end in
  match s with
  | String c _ =>
      if isdigit c then
        let v := read_digits 0 s in
        let v := if negative : bool then - v else v in
        if (INT_MIN <=? v) && (v <=? INT_MAX) then inr v
        else inl (std_exception "stoi")
      else inl (std_exception "stoi")
  | EmptyString => inl (std_exception "stoi")
  end.

(** A [char*] read as a C string: the bytes before the first NUL. *)
Fixpoint c_str (s : string) : string :=
  match s with
  | String c s' => if Ascii.eqb c NUL then "" else String c (c_str s')
  | EmptyString => ""
  end.

(** ** parse_url *)

Record UrlParts : Type := mkUrlParts {
  host : string;
  port : Z;
  path : string
}.

Definition parse_url (url : string) : exception + UrlParts :=
  let port := 80 in
  let path := "/" in
  let work := url in
  (* Remove protocol *)
  let '(work, port) :=
    if decide (string_find "http://" work = Some 0%nat) then
      (string_substr_from 7 work, port)
    else if decide (string_find "https://" work = Some 0%nat) then
      (string_substr_from 8 work, 443)
    else (work, port) in
  (* Find path *)
  let '(work, path) :=
    match string_find_char slash work with
    | Some path_pos =>
        (String.substring 0 path_pos work, string_substr_from path_pos work)
    | None => (work, path)
    end in
  (* Find port *)
  match string_find_char colon work with
  | Some port_pos =>
      match stoi (string_substr_from (port_pos + 1) work) with
      | inr p => inr (mkUrlParts (String.substring 0 port_pos work) p path)
      | inl e => inl e
      end
  | None => inr (mkUrlParts work port path)
  end.

(** ** http_post *)

(** The end of [http_post]: the body is what follows the first empty
    line of the response. *)
Definition http_response_body (response : string) : exception + string :=
  match string_find (CRLF +:+ CRLF) response with
  | None => inl (runtime_error "Invalid HTTP response")
  | Some header_end => inr (string_substr_from (header_end + 4) response)
  end.

(** The request [http_post] writes. *)
Definition http_request (parts : UrlParts) (body : string) : string :=
  "POST " +:+ path parts +:+ " HTTP/1.1" +:+ CRLF
  +:+ "Host: " +:+ host parts +:+ ":" +:+ to_string (port parts) +:+ CRLF
  +:+ "Content-Type: application/json" +:+ CRLF
  +:+ "Content-Length: " +:+ to_string (Z.of_nat (String.length body)) +:+ CRLF
  +:+ "Connection: close" +:+ CRLF
  +:+ CRLF
  +:+ body.

(** The socket interface.  [Net] is the network together with the socket
    table of the process.  The peer sends finitely many bytes on a
    connection: a [recv] that delivers data leaves less [pending]. *)
Class Sockets : Type := {
  Net : Type;
  socket_t : Type;
  addrinfo : Type;
  (** [socket(AF_INET, SOCK_STREAM, 0)]; [None] is [INVALID_SOCKET_VAL] *)
  sys_socket : Net -> option socket_t * Net;
  (** [setsockopt] of [SO_RCVTIMEO] and of [SO_SNDTIMEO] to [tv_sec] seconds *)
  sys_setsockopt_timeouts : socket_t -> Z -> Net -> Net;
  (** [getaddrinfo(node, service, &hints, &result)] on two C strings;
      [None] when it fails *)
  sys_getaddrinfo : string -> string -> Net -> option addrinfo * Net;
  (** [connect(sock, ai_addr, ai_addrlen)]; [false] is [SOCKET_ERROR_CODE] *)
  sys_connect : socket_t -> addrinfo -> Net -> bool * Net;
  sys_freeaddrinfo : addrinfo -> Net -> Net;
  (** [send(sock, data, len, 0)]; the result is not looked at *)
  sys_send : socket_t -> string -> Z -> Net -> Net;
  (** [recv(sock, buffer, len, 0)]: the bytes written to the buffer when
      the result is positive, [None] when it is zero or negative *)
  sys_recv : socket_t -> Z -> Net -> option string * Net;
  sys_close : socket_t -> Net -> Net;
  pending : Net -> nat;
  sys_recv_progress : forall sock len w data w',
    sys_recv sock len w = (Some data, w') -> (pending w' < pending w)%nat
}.

(** The system calls of a thread, in order. *)
Inductive syscall : Type :=
| call_socket (created : bool)
| call_setsockopt (tv_sec : Z)
| call_getaddrinfo (node service : string) (resolved : bool)
| call_connect (connected : bool)
| call_freeaddrinfo
| call_send (data : string) (len : Z)
| call_recv (data : option string)
| call_close.

Global Instance syscall_eq_dec : EqDecision syscall.
Proof. solve_decision. Defined.

Definition inspect {A} (a : A) : {b : A | a = b} := exist _ a eq_refl.

Section Transport.
Context `{Sockets}.

Record NetState : Type := mkNetState {
  net : Net;
  trace : list syscall
}.

Definition traced {A} (f : Net -> A * Net) (ev : A -> syscall)
  : Mx NetState A :=
  fun st =>
    let (a, w) := f (net st) in
    (Return a, mkNetState w (trace st ++ [ev a])).

Definition traced_ (f : Net -> Net) (ev : syscall) : Mx NetState unit :=
  fun st => (Return tt, mkNetState (f (net st)) (trace st ++ [ev])).

(** [while ((received = recv(sock, buffer, sizeof(buffer) - 1, 0)) > 0) {
       buffer[received] = '\0';  response += buffer; }] *)
Equations? recv_loop (sock : socket_t) (response : string) (st : NetState)
    : outcome string * NetState by wf (pending (net st)) lt :=
  recv_loop sock response st
    with inspect (sys_recv sock 4095 (net st)) := {
    | exist _ (Some buffer, w) _ =>
        recv_loop sock (response +:+ c_str buffer)
          (mkNetState w (trace st ++ [call_recv (Some buffer)]))
    | exist _ (None, w) _ =>
        (Return response, mkNetState w (trace st ++ [call_recv None])) }.
Proof. simpl. eapply sys_recv_progress. eassumption. Qed.

Definition http_post_sockets (url body : string) (timeout_sec : Z)
  : Mx NetState string :=
  do parts <- lift (parse_url url);
  do sock <- traced sys_socket (fun s => call_socket (bool_decide (is_Some s)));
  match sock with
  | None => throw (runtime_error "Failed to create socket")
  | Some sock =>
      (* Set timeout *)
      exec traced_ (sys_setsockopt_timeouts sock timeout_sec)
                   (call_setsockopt timeout_sec);
      (* Resolve hostname *)
      do result <- traced (sys_getaddrinfo (c_str (host parts))
                                           (to_string (port parts)))
                          (fun r => call_getaddrinfo (c_str (host parts))
                                      (to_string (port parts))
                                      (bool_decide (is_Some r)));
      match result with
      | None =>
          exec traced_ (sys_close sock) call_close;
          throw (runtime_error ("Failed to resolve hostname: " +:+ host parts))
      | Some result =>
          (* Connect *)
          do connected <- traced (sys_connect sock result) call_connect;
          if connected : bool then
            exec traced_ (sys_freeaddrinfo result) call_freeaddrinfo;
            (* Build HTTP request *)
            let req_str := http_request parts body in
            let len := wrap_int (Z.of_nat (String.length req_str)) in
            exec traced_ (sys_send sock req_str len) (call_send req_str len);
            (* Read response *)
            do response <- recv_loop sock "";
            exec traced_ (sys_close sock) call_close;
            (* Parse HTTP response *)
            lift (http_response_body response)
          else
            exec traced_ (sys_freeaddrinfo result) call_freeaddrinfo;
            exec traced_ (sys_close sock) call_close;
            throw (runtime_error ("Failed to connect to " +:+ host parts +:+ ":"
                                  +:+ to_string (port parts)))
      end
  end.

(** The process environment made of the sockets, a clock and the JSON
    library. *)
Definition socket_platform (clock_now : Net -> Z * Net)
    (dump : json -> exception + string) (parse : string -> exception + json)
  : Platform := {|
  World := NetState;
  http_post := fun url body timeout_sec st =>
    match http_post_sockets url body timeout_sec st with
    | (Return response, st') => (inr response, st')
    | (Throw e, st') => (inl e, st')
    (* not reached: the transport waits for no mutex *)
    | (Blocked, st') => (inl (std_exception "blocked"), st')
    end;
  system_clock_now := fun st =>
    let (t, w) := clock_now (net st) in (t, mkNetState w (trace st));
  json_dump := dump;
  json_parse := parse
|}.

End Transport.

(** The sockets opened and the sockets closed in a trace. *)
Definition opened (calls : list syscall) : nat :=
  length (filter (fun c => c = call_socket true) calls).

Definition closed (calls : list syscall) : nat :=
  length (filter (fun c => c = call_close) calls).

Definition receives (c : syscall) : Prop :=
  match c with
  | call_recv _ => True
  | _ => False
  end.

Definition sends (c : syscall) : Prop :=
  match c with
  | call_send _ _ => True
  | _ => False
  end.

(** Every character of [s] is a decimal digit. *)
Fixpoint all_digits (s : string) : Prop :=
  match s with
  | String c s' => isdigit c = true /\ all_digits s'
  | EmptyString => True
  end.

(** No character of [s] is [c]. *)
Fixpoint free_of (c : Ascii.ascii) (s : string) : Prop :=
  match s with
  | String c' s' => c' <> c /\ free_of c s'
  | EmptyString => True
  end.

(** ** More vocabulary for the client and the manager *)

(** The request body [generate] builds (llm_client.cpp, lines 208-228). *)
Definition chat_request (self : LLMClient) (messages : list ChatMessage)
    (temperature top_p : option double) (max_tokens : option Z)
    (model : string) : json :=
  let temp := default (default_temperature_ self) temperature in
  let tp := default (default_top_p_ self) top_p in
  let mt := default (default_max_tokens_ self) max_tokens in
  let msgs := json_array (message_json <$> messages) in
  let body := [("model", json_string model);
               ("messages", msgs);
               ("temperature", json_number_float temp);
               ("top_p", json_number_float tp);
               ("max_tokens", json_number_integer mt)] in
  let body := if skip_thinking_ self
              then object_set "extra_body"
                     (json_object [("enable_thinking", json_boolean false)]) body
              else body in
  json_object body.


(** The first [n] elements of a list but the last are all of length [k]. *)
Definition full_but_last (k : nat) (chunks : list string) : Prop :=
  forall i chunk, chunks !! i = Some chunk -> (S i < length chunks)%nat ->
    String.length chunk = k.

(** * The global instances (llm_client.cpp, lines 446-468) *)

(** [struct LlmConfig] (config.hpp) *)
Record LlmConfig : Type := mkLlmConfig {
  server_url : string;
  timeout : Z;
  temperature : double;
  top_p : double;
  max_tokens : Z
}.

Section Globals.
Context `{Platform}.

(** The process: the configuration [get_config()] has loaded, the two
    file-level pointers, and the state of the manager that
    [g_session_manager] points to (without a manager: no session). *)
Record Process : Type := mkProcess {
  config_llm : LlmConfig;
  g_llm_client : option LLMClient;
  g_session_manager : option SessionManager;
  state : State
}.

(** a computation of the client or of the manager, run in the process *)
Definition in_process {A} (m : M A) : Mx Process A :=
  fun ps =>
    let (r, st) := m (state ps) in
    (r, mkProcess (config_llm ps) (g_llm_client ps) (g_session_manager ps) st).

(** [LLMClient::LLMClient(const LlmConfig& config)] *)
Definition LLMClient_of_config (config : LlmConfig) : M LLMClient :=
  LLMClient_new (server_url config) (timeout config) (temperature config)
                (top_p config) (max_tokens config).

(** [LLMClient::LLMClient()]: the same with [get_config().llm] *)
Definition LLMClient_default : Mx Process LLMClient :=
  fun ps => in_process (LLMClient_of_config (config_llm ps)) ps.

(** [g_llm_client = std::make_unique<LLMClient>(...)], the client built *)
Definition set_g_llm_client (client : LLMClient) : Mx Process unit :=
  fun ps =>
    (Return tt,
     mkProcess (config_llm ps) (Some client) (g_session_manager ps) (state ps)).

(** [g_session_manager = std::make_unique<SessionManager>(client, n)]:
    the new manager has an empty map and a free mutex; the manager it
    replaces is destroyed, and its map with it. *)
Definition set_g_session_manager (client : LLMClient) (max_history_messages : Z)
  : Mx Process unit :=
  fun ps =>
    (Return tt,
     mkProcess (config_llm ps) (g_llm_client ps)
       (Some (mkSessionManager client max_history_messages))
       (mkState (world (state ps)) ∅ 0 (events (state ps)))).

Definition init_llm_service (config : LlmConfig) : Mx Process unit :=
  do client <- in_process (LLMClient_of_config config);
  exec set_g_llm_client client;
  set_g_session_manager client 20.

Definition get_llm_client : Mx Process LLMClient :=
  fun ps =>
    match g_llm_client ps with
    | Some client => ret client ps
    | None =>
        (* Initialize with default config *)
        (do client <- LLMClient_default;
         exec set_g_llm_client client;
         ret client) ps
    end.

Definition get_session_manager : Mx Process SessionManager :=
  fun ps =>
    match g_session_manager ps with
    | Some manager => ret manager ps
    | None =>
        (do client <- get_llm_client;
         exec set_g_session_manager client 20;
         ret (mkSessionManager client 20)) ps
    end.

(** The process at start: both pointers null. *)
Definition initial_process (config : LlmConfig) (w : World) : Process :=
  mkProcess config None None (initial_state w).

(** What the rest of the program does with the globals: it initializes
    the service, asks for the client or for the manager, or calls a member
    function of the manager that [get_session_manager] returns. *)
Inductive process_call : Type :=
| call_init_llm_service (config : LlmConfig)
| call_get_llm_client
| call_get_session_manager
| call_on_manager (c : call).

Definition perform_in_process (pc : process_call) (ps : Process) : Process :=
  match pc with
  | call_init_llm_service config => snd (init_llm_service config ps)
  | call_get_llm_client => snd (get_llm_client ps)
  | call_get_session_manager => snd (get_session_manager ps)
  | call_on_manager c =>
      match get_session_manager ps with
      | (Return manager, ps1) =>
          mkProcess (config_llm ps1) (g_llm_client ps1) (g_session_manager ps1)
                    (perform manager c (state ps1))
      | (Throw _, ps1) => ps1
      | (Blocked, ps1) => ps1
      end
  end.

(** The states of the process that such calls, one after the other,
    produce from its start. *)
Definition process_reachable (ps : Process) : Prop :=
  exists config w calls,
    ps = foldl (fun ps pc => perform_in_process pc ps)
               (initial_process config w) calls.

(** What holds of the globals in every state of the process. *)
Definition globals_consistent (ps : Process) : Prop :=
  (forall manager, g_session_manager ps = Some manager ->
     max_history_messages_ manager = 20
     /\ g_llm_client ps = Some (client_ manager))
  /\ sessions_ (state ps) = ∅.

End Globals.

(** * The HTTP handlers of the model (handlers/llm_handler.cpp) *)

(** ** nlohmann::json, as far as the handlers use it *)

Definition is_array (j : json) : bool :=
  match j with
  | json_array _ => true
  | _ => false
  end.

Definition is_null (j : json) : bool :=
  match j with
  | json_null => true
  | _ => false
  end.

(** [j.value(key, default_value)] with a string default: the string under
    the key, the default when the key is missing; type_error 302 when the
    value is no string, type_error 306 when [j] is no object. *)
Definition value_string (j : json) (key default_value : string)
  : exception + string :=
  match j with
  | json_object o =>
      match object_find key o with
      | Some v => get_string v
      | None => inr default_value
      end
  | _ => inl (json_exception
           ("[json.exception.type_error.306] cannot use value() with "
            +:+ type_name j))
  end.

(** What a range-based [for] over [j] visits: the elements of an array,
    the values of an object, nothing for [null], the value itself
    otherwise. *)
Definition elements (j : json) : list json :=
  match j with
  | json_null => []
  | json_array a => a
  | json_object o => snd <$> o
  | _ => [j]
  end.

(** The conversions of the C++ implementation between its integers and
    its [double]s, and the collaborators of the handlers outside this
    development: the token check and the user table behind
    [Auth::get_current_user].  [User] stands for [struct User]. *)
Class Collaborators `{Platform} : Type := {
  double_of_int : Z -> double;
  int_of_double : double -> Z;
  User : Type;
  (** [Auth::decode_token]: the user id of a valid token *)
  decode_token : string -> World -> (exception + option Z) * World;
  (** [Database::find_user_by_id] *)
  find_user_by_id : Z -> World -> (exception + option User) * World
}.

Section Conversions.
Context `{Platform} `{!Collaborators}.

(** [j.get<double>()]: [double] is the library's own float type, and the
    conversion takes numbers only; type_error 302 otherwise, also on a
    boolean. *)
Definition get_double (j : json) : exception + double :=
  match j with
  | json_number_float d => inr d
  | json_number_integer z => inr (double_of_int z)
  | _ => inl (json_exception
           ("[json.exception.type_error.302] type must be number, but is "
            +:+ type_name j))
  end.

(** [j.get<int>()]: [int] is not one of the library's own number types,
    and the conversion for such a type takes booleans too. *)
Definition get_int (j : json) : exception + Z :=
  match j with
  | json_number_float d => inr (int_of_double d)
  | json_number_integer z => inr (wrap_int z)
  | json_boolean b => inr (if b then 1 else 0)
  | _ => inl (json_exception
           ("[json.exception.type_error.302] type must be number, but is "
            +:+ type_name j))
  end.

End Conversions.

(** ** crow::request and crow::response, as far as the handlers use them *)

Record request : Type := mkRequest {
  (** [req.body] *)
  req_body : string;
  (** [req.get_header_value(name)]: the value of the header, empty when
      the request has none of that name *)
  get_header_value : string -> string
}.

Record response : Type := mkResponse {
  code : Z;
  body : string;
  headers : list (string * string)
}.

(** [res.set_header(key, value)]: a header of that name is replaced. *)
Definition set_header (key value : string) (res : response) : response :=
  mkResponse (code res) (body res)
    (filter (fun h => fst h <> key) (headers res) ++ [(key, value)]).

(** ** Auth (auth.cpp) *)

(** [Auth::extract_token]: the text after ["Bearer "], or all of it. *)
Definition extract_token (auth_header : string) : string :=
  let prefix := "Bearer " in
  if decide (String.substring 0 (String.length prefix) auth_header = prefix)
  then string_substr_from (String.length prefix) auth_header
  else auth_header.

Module LLMHandler.
Section Handlers.
Context `{Platform} `{!Collaborators}.

Definition in_world {A} (f : World -> (exception + A) * World) : Mx Process A :=
  in_process (fun st =>
    let (r, w) := f (world st) in
    lift r (mkState w (sessions_ st) (guards st) (events st))).

(** [Auth::instance().get_current_user(auth_header)] *)
Definition get_current_user (auth_header : string) : Mx Process (option User) :=
  if decide (auth_header = "") then ret None
  else
    let token := extract_token auth_header in
    do payload <- in_world (decode_token token);
    match payload with
    | None => ret None
    | Some user_id => in_world (find_user_by_id user_id)
    end.

Definition error_response (status : Z) (detail : string) : Mx Process response :=
  let error := json_object [("detail", json_string detail)] in
  do text <- lift (json_dump error);
  ret (set_header "Content-Type" "application/json" (mkResponse status text [])).

Definition json_response (status : Z) (data : json) : Mx Process response :=
  do text <- lift (json_dump data);
  ret (set_header "Content-Type" "application/json" (mkResponse status text [])).

(** The two [catch] clauses every handler of a request ends with:
    a [std::runtime_error] is answered 503 with its text, any other
    [std::exception] 500. *)
Definition answering_errors (handler : Mx Process response) : Mx Process response :=
  try_catch handler
    (fun e =>
       match e with
       | runtime_error w => error_response 503 w
       | _ => error_response 500 "Internal server error"
       end).

(** The one [catch] clause of the handlers that do not call the model. *)
Definition answering_any_error (detail : string) (handler : Mx Process response)
  : Mx Process response :=
  try_catch handler (fun e => error_response 500 detail).

(** [for (const auto& msg : body["messages"]) { ... messages.push_back(cm); }] *)
Fixpoint read_messages (msgs : list json) : exception + list ChatMessage :=
  match msgs with
  | [] => inr []
  | msg :: msgs' =>
      match value_string msg "role" "user" with
      | inl e => inl e
      | inr role =>
          match value_string msg "content" "" with
          | inl e => inl e
          | inr content =>
              match read_messages msgs' with
              | inl e => inl e
              | inr messages => inr (mkChatMessage role content :: messages)
              end
          end
      end
  end.

(** One optional parameter:
    [if (body.contains(key) && !body[key].is_null()) x = body[key].get<T>();] *)
Definition optional_parameter {T} (get : json -> exception + T) (body : json)
    (key : string) : exception + option T :=
  if contains body key then
    match at_key body key with
    | inl e => inl e
    | inr v =>
        if negb (is_null v) then
          match get v with
          | inl e => inl e
          | inr x => inr (Some x)
          end
        else inr None
    end
  else inr None.

(** The optional parameters, read the same way by the four handlers that
    call the model: temperature, top_p, max_tokens. *)
Definition optional_parameters (body : json)
  : exception + (option double * option double * option Z) :=
  match optional_parameter get_double body "temperature" with
  | inl e => inl e
  | inr temperature =>
      match optional_parameter get_double body "top_p" with
      | inl e => inl e
      | inr top_p =>
          match optional_parameter get_int body "max_tokens" with
          | inl e => inl e
          | inr max_tokens => inr (temperature, top_p, max_tokens)
          end
      end
  end.

Definition LF2 : string := String LF (String LF "").

(** The server-sent event of a value:
    [sse_stream << "data: " << data.dump() << "\n\n"].  The operands of [<<]
    are evaluated from left to right: when [dump] throws, ["data: "] is
    already in the stream. *)
Definition sse_event (data : json) (sse_stream : string)
  : outcome unit * string :=
  let sse_stream := sse_stream +:+ "data: " in
  match json_dump data with
  | inl e => (Throw e, sse_stream)
  | inr text => (Return tt, sse_stream +:+ text +:+ LF2)
  end.

(** The response that carries a stream of events. *)
Definition sse_response (sse_stream : string) : response :=
  set_header "Connection" "keep-alive"
    (set_header "Cache-Control" "no-cache"
       (set_header "Content-Type" "text/event-stream"
          (mkResponse 200 sse_stream []))).

(** A member function of the client or of the manager that takes a
    callback, run in the process next to the variables of the callback. *)
Definition in_process_with {S A} (m : Mx (S * State) A) : Mx (S * Process) A :=
  fun c =>
    let ps := snd c in
    match m (fst c, state ps) with
    | (r, (s, st)) =>
        (r, (s, mkProcess (config_llm ps) (g_llm_client ps)
                          (g_session_manager ps) st))
    end.

(** A local variable the callback writes to, of a handler that calls a
    streaming member function: [m] runs with it, from [init]; the handler
    goes on with its final value.  When [m] throws the variable goes with
    the frame; when [m] is stuck the handler never looks at it. *)
Definition with_stream {A} (init : string) (m : Mx (string * Process) A)
  : Mx Process (A * string) :=
  fun ps =>
    match m (init, ps) with
    | (Return a, (s, ps')) => (Return (a, s), ps')
    | (Throw e, (s, ps')) => (Throw e, ps')
    | (Blocked, (s, ps')) => (Blocked, ps')
    end.

(** POST /api/llm/chat *)
Definition chat (req : request) : Mx Process response :=
  answering_errors
    ((* Authenticate user *)
     let auth_header := get_header_value req "Authorization" in
     do user <- get_current_user auth_header;
     match user with
     | None => error_response 401 "Could not validate credentials"
     | Some _ =>
         do body <- lift (json_parse (req_body req));
         (* Parse messages *)
         if negb (contains body "messages") then
           error_response 400 "messages array is required"
         else
           do msgs <- lift (at_key body "messages");
           if negb (is_array msgs) then
             error_response 400 "messages array is required"
           else
             do messages <- lift (read_messages (elements msgs));
             if decide (messages = []) then
               error_response 400 "At least one message is required"
             else
               (* Optional parameters *)
               do params <- lift (optional_parameters body);
               let '(temperature, top_p, max_tokens) := params in
               do model <- lift (value_string body "model" "default");
               (* Generate response *)
               do client <- get_llm_client;
               do response <- in_process (generate client messages temperature
                                                   top_p max_tokens model);
               let result := json_object [("response", json_string response)] in
               json_response 200 result
     end).

(** POST /api/llm/chat/session *)
Definition session_chat (req : request) : Mx Process response :=
  answering_errors
    (let auth_header := get_header_value req "Authorization" in
     do user <- get_current_user auth_header;
     match user with
     | None => error_response 401 "Could not validate credentials"
     | Some _ =>
         do body <- lift (json_parse (req_body req));
         do session_id <- lift (value_string body "session_id" "");
         do message <- lift (value_string body "message" "");
         do system_prompt <- lift (value_string body "system_prompt"
                                     "You are a helpful AI assistant.");
         if decide (session_id = "") then
           error_response 400 "session_id is required"
         else if decide (message = "") then
           error_response 400 "message is required"
         else
           do params <- lift (optional_parameters body);
           let '(temperature, top_p, max_tokens) := params in
           (* Process message with session *)
           do session_manager <- get_session_manager;
           do response <- in_process (process_message session_manager session_id
                                        system_prompt message temperature top_p
                                        max_tokens);
           let result := json_object [("response", json_string response);
                                      ("session_id", json_string session_id)] in
           json_response 200 result
     end).

(** POST /api/llm/chat/stream *)
Definition chat_stream (req : request) : Mx Process response :=
  answering_errors
    (let auth_header := get_header_value req "Authorization" in
     do user <- get_current_user auth_header;
     match user with
     | None => error_response 401 "Could not validate credentials"
     | Some _ =>
         do body <- lift (json_parse (req_body req));
         if negb (contains body "messages") then
           error_response 400 "messages array is required"
         else
           do msgs <- lift (at_key body "messages");
           if negb (is_array msgs) then
             error_response 400 "messages array is required"
           else
             do messages <- lift (read_messages (elements msgs));
             do params <- lift (optional_parameters body);
             let '(temperature, top_p, max_tokens) := params in
             do model <- lift (value_string body "model" "default");
             (* Generate response (for now, non-streaming wrapped as SSE) *)
             do client <- get_llm_client;
             let on_chunk : callback string :=
               fun chunk =>
                 sse_event (json_object [("content", json_string chunk)]) in
             do streamed <- with_stream ""
                              (in_process_with
                                 (generate_stream client messages on_chunk
                                    temperature top_p max_tokens model));
             let sse_stream := snd streamed in
             (* Send done signal *)
             let done := json_object [("done", json_boolean true)] in
             do sse_stream <- (fun ps =>
                                 let (r, s) := sse_event done sse_stream in
                                 match r with
                                 | Return _ => (Return s, ps)
                                 | Throw e => (Throw e, ps)
                                 | Blocked => (Blocked, ps)
                                 end);
             ret (sse_response sse_stream)
     end).

(** POST /api/llm/chat/session/stream *)
Definition session_chat_stream (req : request) : Mx Process response :=
  answering_errors
    (let auth_header := get_header_value req "Authorization" in
     do user <- get_current_user auth_header;
     match user with
     | None => error_response 401 "Could not validate credentials"
     | Some _ =>
         do body <- lift (json_parse (req_body req));
         do session_id <- lift (value_string body "session_id" "");
         do message <- lift (value_string body "message" "");
         do system_prompt <- lift (value_string body "system_prompt"
                                     "You are a helpful AI assistant.");
         if bool_decide (session_id = "") || bool_decide (message = "") then
           error_response 400 "session_id and message are required"
         else
           do params <- lift (optional_parameters body);
           let '(temperature, top_p, max_tokens) := params in
           do session_manager <- get_session_manager;
           let on_chunk : callback string :=
             fun chunk =>
               sse_event (json_object [("content", json_string chunk);
                                       ("session_id", json_string session_id)]) in
           do streamed <- with_stream ""
                            (in_process_with
                               (process_message_stream session_manager session_id
                                  system_prompt message on_chunk
                                  temperature top_p max_tokens));
           let sse_stream := snd streamed in
           (* Send done signal *)
           let done := json_object [("done", json_boolean true);
                                    ("session_id", json_string session_id)] in
           do sse_stream <- (fun ps =>
                               let (r, s) := sse_event done sse_stream in
                               match r with
                               | Return _ => (Return s, ps)
                               | Throw e => (Throw e, ps)
                               | Blocked => (Blocked, ps)
                               end);
           ret (sse_response sse_stream)
     end).

(** The answer of the two history handlers once the session id is known. *)
Definition history_response (session_id : string) : Mx Process response :=
  do session_manager <- get_session_manager;
  do history <- in_process (get_session_history session_id);
  match history with
  | None => error_response 404 "Session not found"
  | Some history =>
      let messages := json_array (message_json <$> history) in
      let result := json_object [("session_id", json_string session_id);
                                 ("messages", messages)] in
      json_response 200 result
  end.

(** GET /api/llm/chat/session/{session_id}/history *)
Definition get_session_history (req : request) (session_id : string)
  : Mx Process response :=
  answering_any_error "Internal server error"
    (let auth_header := get_header_value req "Authorization" in
     do user <- get_current_user auth_header;
     match user with
     | None => error_response 401 "Could not validate credentials"
     | Some _ => history_response session_id
     end).

(** POST /api/llm/chat/session/history *)
Definition post_session_history (req : request) : Mx Process response :=
  answering_any_error "Internal server error"
    (let auth_header := get_header_value req "Authorization" in
     do user <- get_current_user auth_header;
     match user with
     | None => error_response 401 "Could not validate credentials"
     | Some _ =>
         do body <- lift (json_parse (req_body req));
         do session_id <- lift (value_string body "session_id" "");
         if decide (session_id = "") then
           error_response 400 "session_id is required"
         else history_response session_id
     end).

(** DELETE /api/llm/chat/session/{session_id} *)
Definition clear_session (req : request) (session_id : string)
  : Mx Process response :=
  answering_any_error "Internal server error"
    (let auth_header := get_header_value req "Authorization" in
     do user <- get_current_user auth_header;
     match user with
     | None => error_response 401 "Could not validate credentials"
     | Some _ =>
         do session_manager <- get_session_manager;
         exec in_process (clear_session session_id);
         let result :=
           json_object [("ok", json_boolean true);
                        ("message", json_string ("Session " +:+ session_id
                                                 +:+ " cleared"))] in
         json_response 200 result
     end).

(** GET /api/llm/health *)
Definition health : Mx Process response :=
  try_catch
    (do client <- get_llm_client;
     let result :=
       json_object
         [("status", json_string (if available_ client then "ok"
                                  else "unavailable"));
          ("server_url", json_string (server_url_ client));
          ("temperature", json_number_float (default_temperature_ client));
          ("max_tokens", json_number_integer (default_max_tokens_ client))] in
     let status := if available_ client then 200 else 503 in
     json_response status result)
    (fun e => error_response 503 "LLM service not initialized").

End Handlers.
End LLMHandler.

(** ** A scripted network and scripted collaborators, for the examples *)

Module ScriptedNet.

(** The network says whether a socket can be had, the name resolved and
    the connection made, and holds what the peer will send, one [recv]
    at a time; it keeps what was sent. *)
Record net : Type := mkNet {
  can_create : bool;
  can_resolve : bool;
  can_connect : bool;
  incoming : list string;
  sent : list string
}.

Definition recv (w : net) : option string * net :=
  match incoming w with
  | [] => (None, w)
  | chunk :: rest =>
      (Some chunk,
       mkNet (can_create w) (can_resolve w) (can_connect w) rest (sent w))
  end.

Definition send (data : string) (w : net) : net :=
  mkNet (can_create w) (can_resolve w) (can_connect w) (incoming w)
        (sent w ++ [data]).

Definition sockets : Sockets.
Proof.
  refine {|
  Net := net;
  socket_t := unit;
  addrinfo := unit;
  sys_socket := fun w => (if can_create w then Some tt else None, w);
  sys_setsockopt_timeouts := fun _ _ w => w;
  sys_getaddrinfo := fun _ _ w => (if can_resolve w then Some tt else None, w);
  sys_connect := fun _ _ w => (can_connect w, w);
  sys_freeaddrinfo := fun _ w => w;
  sys_send := fun _ data _ w => send data w;
  sys_recv := fun _ _ w => recv w;
  sys_close := fun _ w => w;
  pending := fun w => length (incoming w)
|}.
  intros _ _ w data w'. unfold recv.
  destruct (incoming w) as [|chunk rest] eqn:Hin; [discriminate|].
  intros [= _ <-]. simpl. lia.
Defined.

(** a peer that answers every connection with the chunks [chunks] *)
Definition answering (chunks : list string) : @NetState sockets :=
  @mkNetState sockets (mkNet true true true chunks []) [].

(** The process environment on this network: the clock stands still, the
    JSON library is the one of the scripted peer. *)
Definition platform : Platform :=
  @socket_platform sockets (fun w => (0, w)) (fun j => inr (Scripted.dump j))
                   Scripted.parse.

End ScriptedNet.

Module ScriptedPortal.

(** The request bodies of the examples, as texts and as values. *)
Definition session_request : json :=
  json_object [("session_id", json_string "s"); ("message", json_string "hi");
               ("system_prompt", json_string "P")].

Definition chat_request : json :=
  json_object [("messages",
                json_array [json_object [("role", json_string "user");
                                         ("content", json_string "hi")]])].

Definition empty_chat_request : json :=
  json_object [("messages", json_array [])].

Definition history_request : json :=
  json_object [("session_id", json_string "s")].

(** The parser: the request bodies above, written by [Scripted.dump], and
    the answers of the scripted peer. *)
Definition parse (text : string) : exception + json :=
  if decide (text = Scripted.dump session_request) then inr session_request
  else if decide (text = Scripted.dump chat_request) then inr chat_request
  else if decide (text = Scripted.dump empty_chat_request)
       then inr empty_chat_request
  else if decide (text = Scripted.dump history_request) then inr history_request
  else Scripted.parse text.

Definition platform : Platform := {|
  World := Scripted.world;
  http_post := Scripted.post;
  system_clock_now := Scripted.read_clock;
  json_dump := fun j => inr (Scripted.dump j);
  json_parse := parse
|}.

(** One user, with id 7, whose token is ["secret"]. *)
Definition collaborators : @Collaborators platform := {|
  double_of_int := fun z => z;
  int_of_double := fun d => d;
  User := Z;
  decode_token := fun token w =>
    (inr (if decide (token = "secret") then Some 7 else None), w);
  find_user_by_id := fun user_id w =>
    (inr (if decide (user_id = 7) then Some user_id else None), w)
|}.

Definition configuration : LlmConfig :=
  mkLlmConfig "http://localhost:8080" 300 0 0 4096.

(** a request of the user with the given body *)
Definition authorized (text : string) : request :=
  mkRequest text
    (fun name => if decide (name = "Authorization") then "Bearer secret" else "").

(** a request without credentials *)
Definition anonymous (text : string) : request :=
  mkRequest text (fun _ => "").

(** The process at start, with a peer that gives the replies [script]. *)
Definition start (script : list (exception + string)) : @Process platform :=
  @initial_process platform configuration (Scripted.mkWorld script 1000).

(** The process once the manager is there and [get_or_create_session]
    has been run for ["s"]. *)
Definition seeded (script : list (exception + string)) : @Process platform :=
  let ps := snd (@get_session_manager platform (start script)) in
  mkProcess (config_llm ps) (g_llm_client ps) (g_session_manager ps)
            (snd (@get_or_create_session platform "s" "P" (state ps))).

End ScriptedPortal.

(** * Properties *)

(** ** Integer reductions *)

Lemma wrap_int_id z : in_int z -> wrap_int z = z.
Proof.
  unfold in_int, INT_MIN, INT_MAX, wrap_int. intros Hz.
  rewrite Z.mod_small; lia.
Qed.

Lemma wrap_int_high z :
  INT_MAX < z <= INT_MAX + 2 ^ 32 -> wrap_int z = z - 2 ^ 32.
Proof.
  unfold INT_MAX, wrap_int. intros Hz.
  replace (z + 2 ^ 31) with ((z - 2 ^ 31) + 1 * 2 ^ 32) by lia.
  rewrite Z.mod_add by lia. rewrite Z.mod_small; lia.
Qed.

Lemma to_size_t_id z : 0 <= z < 2 ^ 64 -> to_size_t z = z.
Proof. intros Hz. unfold to_size_t. apply Z.mod_small; lia. Qed.

Lemma to_size_t_neg z : - 2 ^ 31 <= z < 0 -> to_size_t z = z + 2 ^ 64.
Proof.
  intros Hz. unfold to_size_t.
  replace z with ((z + 2 ^ 64) + (-1) * 2 ^ 64) at 1 by lia.
  rewrite Z.mod_add by lia. apply Z.mod_small; lia.
Qed.

Lemma to_size_t_nonneg z : 0 <= to_size_t z.
Proof. unfold to_size_t. apply Z.mod_pos_bound. lia. Qed.

(** ** The copy loop and the trimming pass *)

Lemma copy_loop_take_drop (d : list ChatMessage) n a nd :
  (a + n <= length d)%nat ->
  foldl (fun nd i => match d !! i with
                     | Some m => nd ++ [m]
                     | None => nd
                     end) nd (seq a n)
  = nd ++ take n (drop a d).
Proof.
  revert a nd. induction n as [|n IH]; intros a nd Hle; simpl.
  - by rewrite take_0, app_nil_r.
  - destruct (lookup_lt_is_Some_2 d a) as [m Hm]; [lia|].
    rewrite Hm, IH by lia.
    rewrite (drop_S _ _ _ Hm). simpl. by rewrite <- app_assoc.
Qed.

Lemma copy_from_drop start d nd :
  0 <= start -> copy_from start d nd = nd ++ drop (Z.to_nat start) d.
Proof.
  intros Hs. unfold copy_from.
  destruct (Z.ltb_spec start (Z.of_nat (length d))) as [Hlt|Hge].
  - rewrite copy_loop_take_drop by lia.
    rewrite take_ge; [done|]. rewrite length_drop. lia.
  - rewrite drop_ge by lia. by rewrite app_nil_r.
Qed.

(** Whatever the integers involved, a pass either leaves the dialog alone
    or keeps its first element followed by a suffix of the dialog. *)
Lemma trim_history_shape mh s :
  dialog (trim_history mh s) = dialog s \/
  (exists k : nat, (1 < length (dialog s))%nat /\
      dialog (trim_history mh s) = take 1 (dialog s) ++ drop k (dialog s)).
Proof.
  unfold trim_history.
  destruct (Z.ltb_spec 1 (Z.of_nat (length (dialog s)))); [|by left].
  destruct (Z.ltb_spec (wrap_int (mh * 2))
              (wrap_int (wrap_int (Z.of_nat (length (dialog s))) - 1))); [|by left].
  right. eexists. split; [lia|]. simpl.
  apply copy_from_drop, to_size_t_nonneg.
Qed.

Lemma trim_history_fields mh s :
  created_at (trim_history mh s) = created_at s /\
  last_access (trim_history mh s) = last_access s /\
  message_count (trim_history mh s) = message_count s.
Proof.
  unfold trim_history.
  repeat match goal with |- context [if ?b then _ else _] => destruct b end;
    done.
Qed.

(** The pass, when no integer overflows. *)
Lemma trim_history_exact mh s :
  in_int (2 * mh) ->
  Z.of_nat (length (dialog s)) <= INT_MAX ->
  dialog (trim_history mh s) =
    if (1 <? Z.of_nat (length (dialog s)))
       && (2 * mh <? Z.of_nat (length (dialog s)) - 1)
    then take 1 (dialog s) ++ last_n (2 * mh) (dialog s)
    else dialog s.
Proof.
  intros Hmh Hlen. unfold trim_history. cbv zeta.
  set (d := dialog s) in *. set (n := Z.of_nat (length d)) in *.
  destruct (Z.ltb_spec 1 n) as [H1|H1]; [|reflexivity]. simpl.
  assert (Hn : wrap_int n = n) by (apply wrap_int_id; unfold in_int, INT_MIN, INT_MAX in *; lia).
  rewrite Hn.
  rewrite (wrap_int_id (n - 1)) by (unfold in_int, INT_MIN, INT_MAX in *; lia).
  replace (mh * 2) with (2 * mh) by lia.
  rewrite (wrap_int_id (2 * mh)) by done.
  destruct (Z.ltb_spec (2 * mh) (n - 1)) as [H2|H2]; [|reflexivity]. simpl.
  fold d. unfold last_n. f_equal.
  unfold in_int, INT_MIN, INT_MAX in *.
  destruct (Z_le_gt_dec (n - 2 * mh) (2 ^ 31 - 1)) as [Hs|Hs].
  - rewrite wrap_int_id by (unfold in_int, INT_MIN, INT_MAX; lia).
    rewrite to_size_t_id by lia.
    rewrite copy_from_drop by lia.
    f_equal. destruct (Z_le_gt_dec 0 mh).
    + f_equal. subst n. lia.
    + rewrite !drop_ge; [done| |]; subst n; lia.
  - rewrite wrap_int_high by (unfold INT_MAX; lia).
    rewrite to_size_t_neg by lia.
    unfold copy_from.
    destruct (Z.ltb_spec (n - 2 * mh - 2 ^ 32 + 2 ^ 64) (Z.of_nat (length d))); [subst n; lia|].
    rewrite drop_ge; [by rewrite app_nil_r|]. subst n. lia.
Qed.

(** ** What each locked block does to the state *)

Section ManagerFacts.
Context `{Platform}.

(** A guard on a mutex that is held: the thread stops in the constructor. *)
Lemma lock_guard_held {A} (body : M A) st :
  guards st <> 0%nat -> lock_guard body st = (Blocked, log_event ev_lock st).
Proof.
  intros Hheld. unfold lock_guard. simpl. by destruct (guards st).
Qed.

(** [get_or_create_session] called with the mutex free. *)
Lemma get_or_create_session_run sid prompt st :
  guards st = 0%nat ->
  get_or_create_session sid prompt st =
    let (t, w) := system_clock_now (world st) in
    let session := match sessions_ st !! sid with
                   | Some found => set_last_access t found
                   | None => mkSession [mkChatMessage "system" prompt] t t 0
                   end in
    (Return sid,
     mkState w (<[sid := session]> (sessions_ st)) 0
             (events st ++ [ev_lock; ev_unlock])).
Proof.
  intros Hfree.
  unfold get_or_create_session, lock_guard, bind, get_sessions, put_sessions,
    now, ret, log_event.
  destruct st as [w m g ev]; simpl in *; subst g.
  destruct (m !! sid) as [found|] eqn:Hm; simpl;
    destruct (system_clock_now w) as [t w']; simpl;
    rewrite <- !app_assoc; reflexivity.
Qed.

(** The first locked block of a turn never gets past its second guard:
    nothing is read or written, and the guard of the block stays alive. *)
Lemma locked_phase_A_run self sid prompt um st :
  locked_phase_A self sid prompt um st =
    (Blocked,
     mkState (world st) (sessions_ st) (Nat.max 1 (guards st))
             (events st ++ match guards st with
                           | O => [ev_lock; ev_lock]
                           | S _ => [ev_lock]
                           end)).
Proof.
  unfold locked_phase_A, get_or_create_session, lock_guard, bind, log_event.
  destruct st as [w m [|g] ev]; simpl; [|done].
  by rewrite <- !app_assoc.
Qed.

Lemma locked_phase_B_run sid response st :
  guards st = 0%nat ->
  locked_phase_B sid response st =
    (Return tt,
     mkState (world st)
             (alter (dialog_push_back (mkChatMessage "assistant" response))
                    sid (sessions_ st))
             0 (events st ++ [ev_lock; ev_unlock])).
Proof.
  intros Hfree.
  unfold locked_phase_B, lock_guard, session_update, bind, get_sessions,
    put_sessions, ret, log_event.
  destruct st as [w m g ev]; simpl in *; subst g.
  destruct (m !! sid) as [found|] eqn:Hm; simpl; rewrite <- !app_assoc; simpl.
  - reflexivity.
  - by rewrite alter_id'.
Qed.

Lemma get_session_history_run sid st :
  guards st = 0%nat ->
  get_session_history sid st =
    (Return (dialog <$> sessions_ st !! sid),
     mkState (world st) (sessions_ st) 0 (events st ++ [ev_lock; ev_unlock])).
Proof.
  intros Hfree.
  unfold get_session_history, lock_guard, bind, get_sessions, ret, log_event.
  destruct st as [w m g ev]; simpl in *; subst g. by rewrite <- !app_assoc.
Qed.

Lemma clear_session_run sid st :
  guards st = 0%nat ->
  clear_session sid st =
    (Return tt,
     mkState (world st) (delete sid (sessions_ st)) 0
             (events st ++ [ev_lock; ev_unlock])).
Proof.
  intros Hfree.
  unfold clear_session, lock_guard, bind, get_sessions, put_sessions, log_event.
  destruct st as [w m g ev]; simpl in *; subst g. by rewrite <- !app_assoc.
Qed.

(** Both entry points of a turn stop where phase A stops. *)
Lemma process_message_run self sid prompt um t p m st :
  process_message self sid prompt um t p m st
  = (Blocked, snd (locked_phase_A self sid prompt um st)).
Proof.
  unfold process_message, bind. by rewrite locked_phase_A_run.
Qed.

Lemma process_message_stream_run {S} self sid prompt um
    (on_chunk : callback S) t p m s st :
  process_message_stream self sid prompt um on_chunk t p m (s, st)
  = (Blocked, (s, snd (locked_phase_A self sid prompt um st))).
Proof.
  unfold process_message_stream, bind, on_state. simpl.
  by rewrite locked_phase_A_run.
Qed.

End ManagerFacts.

(** ** Strings cut into chunks *)

Lemma substring_nil n m : String.substring n m "" = "".
Proof. by destruct n, m. Qed.

Lemma substring_zero_len n s : String.substring n 0 s = "".
Proof. revert n. induction s as [|c s IH]; intros [|n]; simpl; auto. Qed.

Lemma append_nil_l s : "" +:+ s = s.
Proof. reflexivity. Qed.

Lemma append_cons c s t : String c s +:+ t = String c (s +:+ t).
Proof. reflexivity. Qed.

Lemma append_nil_r s : s +:+ "" = s.
Proof.
  induction s as [|c s IH]; [done|]. by rewrite append_cons, IH.
Qed.

Lemma append_assoc s1 s2 s3 : (s1 +:+ s2) +:+ s3 = s1 +:+ (s2 +:+ s3).
Proof.
  induction s1 as [|c s1 IH]; [done|]. by rewrite !append_cons, IH.
Qed.

Lemma substring_split s i a b :
  String.substring i (a + b) s
  = String.substring i a s +:+ String.substring (i + a) b s.
Proof.
  revert i a. induction s as [|c s IH]; intros i a.
  - by rewrite !substring_nil.
  - destruct i as [|i]; simpl.
    + destruct a as [|a]; simpl; [done|].
      rewrite append_cons. f_equal. apply (IH 0%nat).
    + apply IH.
Qed.

Lemma substring_clamp s i m :
  (String.length s - i <= m)%nat ->
  String.substring i m s = String.substring i (String.length s - i) s.
Proof.
  revert i m. induction s as [|c s IH]; intros i m Hm.
  - by rewrite !substring_nil.
  - destruct i as [|i]; simpl in *.
    + destruct m as [|m]; [lia|]. f_equal.
      rewrite (IH 0%nat m) by lia. f_equal. lia.
    + apply IH. lia.
Qed.

Lemma substring_whole s : String.substring 0 (String.length s) s = s.
Proof. induction s as [|c s IH]; simpl; congruence. Qed.

Lemma chunks_from_step r i :
  chunks_from r i =
    if decide (i < String.length r)%nat
    then String.substring i chunk_size r :: chunks_from r (i + chunk_size)
    else [].
Proof.
  rewrite chunks_from_equation_1.
  by destruct (decide (i < String.length r)%nat).
Qed.

(** The loop hands the callback the chunks of the response in order, up to
    the first on which it throws or does not come back. *)
Lemma stream_loop_deliver {S} r (on_chunk : callback S) i s :
  stream_loop r on_chunk i s = deliver on_chunk (chunks_from r i) s.
Proof.
  remember (String.length r - i)%nat as k eqn:Hk.
  revert i s Hk. induction (lt_wf k) as [k _ IH]; intros i s Hk.
  rewrite stream_loop_equation_1, chunks_from_step.
  destruct (decide (i < String.length r)%nat) as [Hlt|Hge]; simpl; [|done].
  destruct (on_chunk (String.substring i chunk_size r) s) as [[[]|e|] s'];
    simpl; [|done..].
  apply (IH (String.length r - (i + chunk_size))%nat); [|done].
  unfold chunk_size. lia.
Qed.

Lemma deliver_returning {S} (f : string -> S -> S) chunks s :
  deliver (returning f) chunks s
  = (Return tt, foldl (fun acc chunk => f chunk acc) s chunks).
Proof.
  revert s. induction chunks as [|c chunks IH]; intros s; simpl; [done|].
  apply IH.
Qed.

(** Put together again, the chunks cut from [i] on are the response from
    [i] on. *)
Lemma concat_chunks_from r i :
  concat_chunks (chunks_from r i)
  = String.substring i (String.length r - i) r.
Proof.
  remember (String.length r - i)%nat as k eqn:Hk.
  revert i Hk. induction (lt_wf k) as [k _ IH]; intros i Hk.
  rewrite chunks_from_step.
  destruct (decide (i < String.length r)%nat) as [Hlt|Hge]; simpl.
  - rewrite (IH (String.length r - (i + chunk_size))%nat)
      by (unfold chunk_size; lia || done).
    destruct (le_lt_dec chunk_size k) as [Hbig|Hsmall].
    + transitivity (String.substring i (chunk_size + (k - chunk_size)) r).
      * rewrite substring_split. do 2 f_equal. lia.
      * f_equal. lia.
    + replace (String.length r - (i + chunk_size))%nat with 0%nat by lia.
      rewrite substring_zero_len, append_nil_r.
      rewrite substring_clamp by lia. by subst k.
  - replace k with 0%nat by lia. by rewrite substring_zero_len.
Qed.

Lemma concat_chunks_all r : concat_chunks (chunks_from r 0) = r.
Proof.
  rewrite concat_chunks_from, Nat.sub_0_r. apply substring_whole.
Qed.

Lemma record_chunks_fold chunks received :
  foldl (fun acc chunk => record_chunk chunk acc) received chunks
  = received ++ chunks.
Proof.
  revert received. induction chunks as [|c chunks IH]; intros received; simpl.
  - by rewrite app_nil_r.
  - rewrite IH. unfold record_chunk. by rewrite <- app_assoc.
Qed.

(** ** What the client does to the state *)

Section ClientFacts.
Context `{Platform}.

Lemma net_only_ret {A} (a : A) : net_only (ret a).
Proof.
  intros st r st' [= <- <-]. repeat split. exists []. by rewrite app_nil_r.
Qed.

Lemma net_only_throw {A} e : net_only (@throw _ A e).
Proof.
  intros st r st' [= <- <-]. repeat split. exists []. by rewrite app_nil_r.
Qed.

Lemma net_only_lift {A} (x : exception + A) : net_only (lift x).
Proof. destruct x; [apply net_only_throw | apply net_only_ret]. Qed.

Lemma net_only_bind {A B} (m : M A) (k : A -> M B) :
  net_only m -> (forall a, net_only (k a)) -> net_only (bind m k).
Proof.
  intros Hm Hk st r st'. unfold bind.
  destruct (m st) as [[a|e|] st1] eqn:E.
  - intros Hr. destruct (Hm _ _ _ E) as (S1 & G1 & evs1 & E1 & F1).
    destruct (Hk _ _ _ _ Hr) as (S2 & G2 & evs2 & E2 & F2).
    split; [congruence|]. split; [congruence|].
    exists (evs1 ++ evs2). rewrite E2, E1, app_assoc.
    split; [done|]. by apply Forall_app.
  - intros [= <- <-]. exact (Hm _ _ _ E).
  - intros [= <- <-]. exact (Hm _ _ _ E).
Qed.

Lemma net_only_try_catch {A} (m : M A) (h : exception -> M A) :
  net_only m -> (forall e, net_only (h e)) -> net_only (try_catch m h).
Proof.
  intros Hm Hh st r st'. unfold try_catch.
  destruct (m st) as [[a|e|] st1] eqn:E.
  - intros [= <- <-]. exact (Hm _ _ _ E).
  - intros Hr. destruct (Hm _ _ _ E) as (S1 & G1 & evs1 & E1 & F1).
    destruct (Hh _ _ _ _ Hr) as (S2 & G2 & evs2 & E2 & F2).
    split; [congruence|]. split; [congruence|].
    exists (evs1 ++ evs2). rewrite E2, E1, app_assoc.
    split; [done|]. by apply Forall_app.
  - intros [= <- <-]. exact (Hm _ _ _ E).
Qed.

Lemma net_only_http_post url body timeout :
  net_only (call_http_post url body timeout).
Proof.
  intros st r st'. unfold call_http_post, log_event. simpl.
  destruct (http_post url body timeout (world st)) as [[e|a] w]; simpl;
    intros [= <- <-]; simpl; repeat split; exists [ev_http_post]; auto.
Qed.

Local Ltac net_only_tac :=
  repeat first
    [ apply net_only_ret | apply net_only_throw | apply net_only_lift
    | apply net_only_http_post
    | apply net_only_bind; [|intros ?]
    | apply net_only_try_catch; [|intros ?]
    | match goal with
      | |- net_only (if ?b then _ else _) => destruct b
      | |- net_only (match ?e with _ => _ end) => destruct e
      end ].

(** Computations that return or throw: nothing in them waits. *)
Lemma returns_ret {A} (a : A) st : fst (@ret State A a st) <> Blocked.
Proof. done. Qed.

Lemma returns_lift {A} (x : exception + A) st : fst (@lift State A x st) <> Blocked.
Proof. by destruct x. Qed.

Lemma returns_bind {A B} (m : M A) (k : A -> M B) :
  (forall st, fst (m st) <> Blocked) ->
  (forall a st, fst (k a st) <> Blocked) ->
  forall st, fst (bind m k st) <> Blocked.
Proof.
  intros Hm Hk st. unfold bind. specialize (Hm st).
  destruct (m st) as [[a|e|] st1]; simpl in *; [apply Hk|done..].
Qed.

Lemma returns_try_catch {A} (m : M A) (h : exception -> M A) :
  (forall st, fst (m st) <> Blocked) ->
  (forall e st, fst (h e st) <> Blocked) ->
  forall st, fst (try_catch m h st) <> Blocked.
Proof.
  intros Hm Hh st. unfold try_catch. specialize (Hm st).
  destruct (m st) as [[a|e|] st1]; simpl in *; [done|apply Hh|done].
Qed.

Lemma returns_http_post url body timeout st :
  fst (call_http_post url body timeout st) <> Blocked.
Proof.
  unfold call_http_post. simpl.
  by destruct (http_post url body timeout (world st)) as [[e|a] w].
Qed.

Local Ltac returns_tac :=
  repeat first
    [ apply returns_ret | apply returns_lift | apply returns_http_post
    | done
    | apply returns_bind; [intros ?|intros ? ?]
    | apply returns_try_catch; [intros ?|intros ? ?]
    | match goal with
      | |- fst ((if ?b then _ else _) _) <> Blocked => destruct b
      | |- fst ((match ?e with _ => _ end) _) <> Blocked => destruct e
      end ].

(** The client never waits for the mutex. *)
Lemma generate_returns self msgs t p m model st :
  fst (generate self msgs t p m model st) <> Blocked.
Proof. revert st. unfold generate. returns_tac. Qed.

Lemma test_connection_returns_or_throws self st :
  fst (test_connection self st) <> Blocked.
Proof. revert st. unfold test_connection. returns_tac. Qed.

Lemma generate_net_only self msgs t p m model :
  net_only (generate self msgs t p m model).
Proof. unfold generate. net_only_tac. Qed.

Lemma test_connection_net_only self : net_only (test_connection self).
Proof. unfold test_connection. net_only_tac. Qed.

(** [generate] throws nothing but [std::runtime_error]. *)
Lemma generate_throws_runtime_error self msgs t p m model st e st' :
  generate self msgs t p m model st = (Throw e, st') ->
  exists w, e = runtime_error w.
Proof.
  unfold generate, try_catch.
  match goal with
  | |- context [match ?b st with _ => _ end] =>
      destruct (b st) as [[a|e0|] st1]
  end; [done| |done].
  destruct e0; unfold throw; intros [= <- <-]; eauto.
Qed.

(** [generate_stream], by the outcome of [generate]: the chunks of the
    response, and the marker if the callback threw in the middle of them;
    the marker alone if [generate] threw. *)
Lemma generate_stream_run {S} self msgs (on_chunk : callback S)
    t p m model s st :
  generate_stream self msgs on_chunk t p m model (s, st) =
    match generate self msgs t p m model st with
    | (Return full_response, st') =>
        match deliver on_chunk (chunks_from full_response 0) s with
        | (Return _, s') => (Return tt, (s', st'))
        | (Throw e, s') =>
            let (r, s'') := on_chunk ("Error: " +:+ what e) s' in
            (r, (s'', st'))
        | (Blocked, s') => (Blocked, (s', st'))
        end
    | (Throw e, st') =>
        let (r, s') := on_chunk ("Error: " +:+ what e) s in
        (r, (s', st'))
    | (Blocked, st') => (Blocked, (s, st'))
    end.
Proof.
  unfold generate_stream, try_catch, bind, on_state, on_caller. simpl.
  destruct (generate self msgs t p m model st) as [[r|e|] st']; simpl; [|done..].
  rewrite stream_loop_deliver.
  by destruct (deliver on_chunk (chunks_from r 0) s) as [[[]|e|] s'].
Qed.

End ClientFacts.

(** ** The trimming policy *)

Lemma filter_all {A} (P : A -> Prop) `{forall x, Decision (P x)} (l : list A) :
  Forall P l -> filter P l = l.
Proof.
  induction 1 as [|x l Hx _ IH]; [done|].
  by rewrite filter_cons_True, IH.
Qed.

Lemma non_system_count_dialog sys hist :
  role sys = "system" ->
  Forall (fun m => role m <> "system") hist ->
  non_system_count (sys :: hist) = length hist.
Proof.
  intros Hsys Hhist. unfold non_system_count.
  rewrite filter_cons_False by (intros Hn; by apply Hn).
  by rewrite filter_all.
Qed.

Lemma length_last_n {A} (n : Z) (l : list A) :
  Z.of_nat (length (last_n n l)) = Z.min (Z.of_nat (length l)) (Z.max 0 n).
Proof. unfold last_n. rewrite length_drop. lia. Qed.

(** C2. The trimming pass of phase A, applied to a session whose dialog is
    a system message followed by user/assistant messages and to which the
    user message has just been appended: it rewrites the dialog if and
    only if the number of non-system messages exceeds
    [2 * max_history_messages_], and the rewritten dialog is the system
    message followed by the last [2 * max_history_messages_] elements of
    the dialog it was given, whatever their roles.  (No [int] overflows:
    twice the bound and the dialog length fit.) *)
Theorem trim_history_after_user_message
    (mh : Z) (s : Session) (sys : ChatMessage) (hist : list ChatMessage)
    (user_message : string) :
  dialog s = sys :: hist ->
  role sys = "system" ->
  Forall (fun m => role m <> "system") hist ->
  in_int (2 * mh) ->
  Z.of_nat (length (dialog s)) < INT_MAX ->
  let s1 := message_count_incr
              (dialog_push_back (mkChatMessage "user" user_message) s) in
  let s2 := trim_history mh s1 in
  (dialog s2 <> dialog s1 <-> 2 * mh < Z.of_nat (non_system_count (dialog s1)))
  /\ (2 * mh < Z.of_nat (non_system_count (dialog s1)) ->
      dialog s2 = sys :: last_n (2 * mh) (dialog s1)).
Proof.
  intros Hd Hsys Hhist Hmh Hlen s1 s2.
  assert (Hd1 : dialog s1 = sys :: (hist ++ [mkChatMessage "user" user_message])).
  { subst s1. simpl. by rewrite Hd. }
  assert (Hcount : non_system_count (dialog s1) = S (length hist)).
  { rewrite Hd1, non_system_count_dialog; [|done|].
    - rewrite length_app. simpl. lia.
    - apply Forall_app. split; [done|].
      constructor; [simpl; discriminate | constructor]. }
  assert (Hsize : Z.of_nat (length (dialog s1)) = Z.of_nat (length hist) + 2).
  { rewrite Hd1. simpl. rewrite length_app. simpl. lia. }
  assert (Hlen' : Z.of_nat (length hist) + 1 < INT_MAX).
  { rewrite Hd in Hlen. simpl in Hlen. lia. }
  pose proof (trim_history_exact mh s1 Hmh) as Hex.
  fold s2 in Hex. rewrite Hsize in Hex. rewrite Hcount.
  specialize (Hex ltac:(lia)).
  destruct (Z.ltb_spec 1 (Z.of_nat (length hist) + 2)) as [_|?]; [|lia].
  simpl in Hex.
  destruct (Z.ltb_spec (2 * mh) (Z.of_nat (length hist) + 2 - 1)) as [Hlt|Hge].
  - assert (Heq : dialog s2 = sys :: last_n (2 * mh) (dialog s1)).
    { rewrite Hex.
      change (dialog s1) with (dialog s ++ [mkChatMessage "user" user_message]).
      by rewrite Hd. }
    split; [|done]. split; [lia|]. intros _ Hsame.
    pose proof (length_last_n (2 * mh) (dialog s1)) as HL.
    rewrite Heq in Hsame. apply (f_equal length) in Hsame.
    cbn [length] in Hsame. lia.
  - split; [|lia]. split; [intros Hne; by destruct Hne | lia].
Qed.

(** ** Shape of the stored dialogs *)

Lemma trim_history_head mh s :
  dialog (trim_history mh s) !! 0%nat = dialog s !! 0%nat.
Proof.
  destruct (trim_history_shape mh s) as [->|(k & Hlen & ->)]; [done|].
  destruct (dialog s) as [|x d]; [simpl in Hlen; lia|done].
Qed.

(** Without overflow a pass keeps the first element and a suffix of what
    follows it. *)
Lemma trim_history_suffix mh s :
  in_int (2 * mh) ->
  Z.of_nat (length (dialog s)) <= INT_MAX ->
  exists k : nat,
    dialog (trim_history mh s) = take 1 (dialog s) ++ drop k (drop 1 (dialog s)).
Proof.
  intros Hmh Hlen. rewrite trim_history_exact by done.
  destruct (Z.ltb_spec 1 (Z.of_nat (length (dialog s)))) as [H1|H1]; simpl.
  2:{ exists 0%nat. by rewrite drop_0, take_drop. }
  destruct (Z.ltb_spec (2 * mh) (Z.of_nat (length (dialog s)) - 1)) as [H2|H2].
  2:{ exists 0%nat. by rewrite drop_0, take_drop. }
  exists (length (dialog s) - Z.to_nat (2 * mh) - 1)%nat.
  unfold last_n. rewrite drop_drop. do 2 f_equal. lia.
Qed.

(** ** The session map *)

Section Store.
Context `{Platform}.

(** A public call changes the session map only through [clear_session]:
    the two entry points of a turn stop before they touch it. *)
Lemma perform_sessions self c st :
  sessions_ (perform self c st) = sessions_ st
  \/ exists sid, c = call_clear_session sid
                 /\ sessions_ (perform self c st) = delete sid (sessions_ st).
Proof.
  destruct c as [sid prompt um t p m|sid prompt um t p m|sid|sid]; simpl.
  - left. by rewrite process_message_run, locked_phase_A_run.
  - left. by rewrite process_message_stream_run, locked_phase_A_run.
  - left. destruct (decide (guards st = 0%nat)) as [Hfree|Hheld].
    + by rewrite get_session_history_run.
    + unfold get_session_history. by rewrite lock_guard_held.
  - destruct (decide (guards st = 0%nat)) as [Hfree|Hheld].
    + right. exists sid. by rewrite clear_session_run.
    + left. unfold clear_session. by rewrite lock_guard_held.
Qed.

(** No sequence of public calls ever stores a session. *)
Lemma reachable_no_session self st : reachable self st -> sessions_ st = ∅.
Proof.
  intros (w & calls & ->).
  induction calls as [|c calls IH] using rev_ind; [done|].
  rewrite foldl_app. simpl.
  destruct (perform_sessions self c
              (foldl (fun st c => perform self c st) (initial_state w) calls))
    as [->|(sid & _ & ->)]; [done|].
  rewrite IH. apply delete_empty.
Qed.

Lemma reachable_built self st : reachable self st -> built self st.
Proof.
  intros (w & calls & ->). exists w, (step_call <$> calls).
  generalize (initial_state w).
  induction calls as [|c calls IH]; intros st0; simpl; [done|]. apply IH.
Qed.

Lemma system_headed_push_back m s :
  system_headed s -> system_headed (dialog_push_back m s).
Proof.
  intros [prompt Hhead]. exists prompt. simpl.
  destruct (dialog s); [discriminate|done].
Qed.

(** Each piece keeps the system message at the head of every dialog. *)
Lemma perform_store_step_headed self a st :
  all_system_headed st -> all_system_headed (perform_store_step self a st).
Proof.
  intros Hok. unfold all_system_headed in *.
  destruct a as [c|sid prompt|ref um|ref|sid text]; simpl.
  - destruct (perform_sessions self c st) as [Heq|(sid & _ & Heq)];
      intros sid' s'; rewrite Heq; [apply Hok|].
    rewrite lookup_delete_Some. intros [_ Hs']. by apply (Hok sid').
  - destruct (decide (guards st = 0%nat)) as [Hfree|Hheld].
    + rewrite get_or_create_session_run by done.
      destruct (system_clock_now (world st)) as [t w]. cbn.
      intros sid' s'. rewrite lookup_insert_Some.
      intros [[<- <-]|[_ Hs']]; [|by apply (Hok sid')].
      destruct (sessions_ st !! sid) as [found|] eqn:Hfound.
      * exact (Hok sid found Hfound).
      * by exists prompt.
    + unfold get_or_create_session. rewrite lock_guard_held by done. exact Hok.
  - unfold session_update, bind, get_sessions, put_sessions. simpl.
    intros sid' s'. rewrite lookup_alter_Some.
    intros [(<- & s1 & Hs1 & ->)|[Hne Hs']].
    2:{ rewrite lookup_alter_ne in Hs' by done. by apply (Hok sid'). }
    apply lookup_alter_Some in Hs1.
    destruct Hs1 as [(_ & s0 & Hs0 & ->)|[Hne _]]; [|done].
    destruct (system_headed_push_back (mkChatMessage "user" um) s0
                (Hok ref s0 Hs0)) as [prompt Hhead].
    by exists prompt.
  - unfold session_update, bind, get_sessions, put_sessions. simpl.
    intros sid' s'. rewrite lookup_alter_Some.
    intros [(<- & s0 & Hs0 & ->)|[_ Hs']]; [|by apply (Hok sid')].
    destruct (Hok ref s0 Hs0) as [prompt Hhead].
    exists prompt. by rewrite trim_history_head.
  - destruct (decide (guards st = 0%nat)) as [Hfree|Hheld].
    + rewrite locked_phase_B_run by done. simpl.
      intros sid' s'. rewrite lookup_alter_Some.
      intros [(<- & s0 & Hs0 & ->)|[_ Hs']]; [|by apply (Hok sid')].
      apply system_headed_push_back. exact (Hok sid s0 Hs0).
    + unfold locked_phase_B. rewrite lock_guard_held by done. exact Hok.
Qed.

Lemma built_system_headed self st : built self st -> all_system_headed st.
Proof.
  intros (w & steps & ->).
  induction steps as [|a steps IH] using rev_ind.
  - intros sid s. simpl. by rewrite lookup_empty.
  - rewrite foldl_app. simpl. by apply perform_store_step_headed.
Qed.

(** C3. In every state that the pieces of the source that write to the
    session map can build, in any number and order, from a fresh manager
    (among them every state reachable by the public calls,
    [reachable_built]; those hold no session at all,
    [reachable_no_session]), every stored dialog begins with a message of role
    "system" (invariant I1), and the trimming pass that a turn applies
    to it, once the user message is appended, keeps that first message and
    only removes entries after it: what follows the first message
    afterwards is a suffix of what followed it before (invariant I2; the
    suffix is computed in [int], hence for a bound and a dialog length
    that fit one). *)
Theorem system_message_invariants self st :
  built self st ->
  forall sid s, sessions_ st !! sid = Some s ->
    (exists prompt, dialog s !! 0%nat = Some (mkChatMessage "system" prompt))
    /\ (forall m, dialog s !! 0%nat = Some m -> role m = "system")
    /\ (forall user_message,
          let s1 := dialog_push_back (mkChatMessage "user" user_message) s in
          let s2 := trim_history (max_history_messages_ self) s1 in
          dialog s2 !! 0%nat = dialog s !! 0%nat
          /\ (in_int (2 * max_history_messages_ self) ->
              Z.of_nat (length (dialog s1)) <= INT_MAX ->
              exists k : nat, drop 1 (dialog s2) = drop k (drop 1 (dialog s1)))).
Proof.
  intros Hbuilt sid s Hs.
  destruct (built_system_headed self st Hbuilt sid s Hs) as [p0 Hp0].
  split; [by exists p0|].
  split; [rewrite Hp0; by intros m [= <-]|].
  intros um s1 s2. subst s2. split.
  - rewrite trim_history_head. subst s1. simpl.
    destruct (dialog s); [discriminate|done].
  - intros Hmh Hlen.
    destruct (trim_history_suffix (max_history_messages_ self) s1 Hmh Hlen)
      as [k Hk].
    exists k. rewrite Hk. subst s1. simpl.
    destruct (dialog s); [discriminate|done].
Qed.

End Store.

(** ** Streaming *)

Section Streaming.
Context `{Platform}.

(** C8. When [generate] fails, whatever the cause (every failure surfaces
    as an exception [e]), [generate_stream] invokes [on_chunk] exactly
    once, with the marker ["Error: " ++ e.what()], and that invocation is
    all it does: it ends as the invocation ends.  Hence, for a callback
    that returns, it returns normally to its caller, and the chunks an
    observer records are that single string. *)
Theorem generate_stream_failure_single_chunk
    self msgs t p m model st e st' :
  generate self msgs t p m model st = (Throw e, st') ->
  (forall (S : Type) (on_chunk : callback S) (s : S),
     generate_stream self msgs on_chunk t p m model (s, st)
     = let (r, s') := on_chunk ("Error: " +:+ what e) s in (r, (s', st')))
  /\ (forall (S : Type) (f : string -> S -> S) (s : S),
       generate_stream self msgs (returning f) t p m model (s, st)
       = (Return tt, (f ("Error: " +:+ what e) s, st')))
  /\ generate_stream self msgs (returning record_chunk) t p m model ([], st)
     = (Return tt, (["Error: " +:+ what e], st')).
Proof.
  intros G. split; [|split]; intros; by rewrite generate_stream_run, G.
Qed.

(** [generate] returns only if the peer answered, the answer parsed, and
    the parsed value has the expected shape; in every other case
    (unreachable peer, timeout, unparsable or ill-shaped answer) it throws. *)
Lemma generate_return_inv self msgs t p m model st response st' :
  generate self msgs t p m model st = (Return response, st') ->
  exists request body j choices c0 message content_,
    http_post (server_url_ self +:+ "/v1/chat/completions") request
              (timeout_ self) (world st) = (inr body, world st')
    /\ json_parse body = inr j
    /\ contains j "choices" = true
    /\ at_key j "choices" = inr choices
    /\ 0 < size choices
    /\ at_index choices 0 = inr c0
    /\ at_key c0 "message" = inr message
    /\ at_key message "content" = inr content_
    /\ get_string content_ = inr response.
Proof.
  unfold generate, try_catch, bind at 1.
  match goal with
  | |- context [lift (json_dump ?b) st] => destruct (json_dump b) as [e|request]
  end; simpl.
  { destruct e; discriminate. }
  unfold bind at 1, call_http_post, log_event. simpl.
  destruct (http_post _ request _ (world st)) as [[e|body] w] eqn:Hpost; simpl.
  { destruct e; discriminate. }
  unfold bind at 1. destruct (json_parse body) as [e|j] eqn:Hparse; simpl.
  { destruct e; discriminate. }
  destruct (contains j "choices") eqn:Hc; simpl; [|discriminate].
  unfold bind at 1. destruct (at_key j "choices") as [e|choices] eqn:Hk; simpl.
  { destruct e; discriminate. }
  destruct (Z.ltb_spec 0 (size choices)) as [Hsz|Hsz]; simpl; [|discriminate].
  unfold bind at 1. destruct (at_index choices 0) as [e|c0] eqn:H0; simpl.
  { destruct e; discriminate. }
  unfold bind at 1. destruct (at_key c0 "message") as [e|message] eqn:Hm; simpl.
  { destruct e; discriminate. }
  unfold bind at 1. destruct (at_key message "content") as [e|content_] eqn:Hct; simpl.
  { destruct e; discriminate. }
  unfold bind at 1. destruct (get_string content_) as [e|text] eqn:Hg; simpl.
  { destruct e; discriminate. }
  intros [= <- <-]. simpl. by exists request, body, j, choices, c0, message, content_.
Qed.

(** C7, evaluated on the code.  Neither call comes back:
    [process_message] returns no string and [process_message_stream]
    hands its callback no chunk, whatever the callback; both stop in phase
    A, in the same state.  The layer below does what the claim says: when
    [generate] returns a string, [generate_stream] hands its callback
    chunks whose concatenation, in delivery order, is that string. *)
Theorem stream_and_call_deliver_nothing self sid prompt um t p m st :
  fst (process_message self sid prompt um t p m st) = Blocked
  /\ process_message_stream self sid prompt um (returning record_chunk) t p m
                            ([], st)
     = (Blocked, ([], snd (process_message self sid prompt um t p m st)))
  /\ (forall (S : Type) (on_chunk : callback S) (s : S),
        process_message_stream self sid prompt um on_chunk t p m (s, st)
        = (Blocked, (s, snd (process_message self sid prompt um t p m st))))
  /\ (forall msgs model response st',
        generate (client_ self) msgs t p m model st = (Return response, st') ->
        exists chunks,
          generate_stream (client_ self) msgs (returning record_chunk)
                          t p m model ([], st)
          = (Return tt, (chunks, st'))
          /\ concat_chunks chunks = response).
Proof.
  rewrite process_message_run. split; [done|].
  split; [by rewrite process_message_stream_run|].
  split; [intros S on_chunk s; by rewrite process_message_stream_run|].
  intros msgs model response st' Hgen. exists (chunks_from response 0).
  rewrite generate_stream_run, Hgen, deliver_returning, record_chunks_fold.
  split; [done|]. apply concat_chunks_all.
Qed.

End Streaming.

(** ** The session protocol *)

Section SessionProtocol.
Context `{Platform}.

(** The events of a call that stops in phase A. *)
Lemma locked_phase_A_events self sid prompt um st :
  exists evs,
    events (snd (locked_phase_A self sid prompt um st)) = events st ++ evs
    /\ (ev_unlock ∉ evs) /\ (ev_http_post ∉ evs)
    /\ relocks (guards st) evs = true
    /\ (ev_http_post ∉ until_relock (guards st) evs)
    /\ (guards st = 0%nat -> evs = [ev_lock; ev_lock]).
Proof.
  assert (Hnot : forall ev l, ev <> ev_lock -> l = [ev_lock; ev_lock]
                                \/ l = [ev_lock] \/ l = [] -> ev ∉ l).
  { intros ev l Hev [->|[->| ->]] Hin;
      repeat (apply elem_of_cons in Hin as [Hin|Hin]; [done|]);
      by apply elem_of_nil in Hin. }
  rewrite locked_phase_A_run. simpl.
  eexists. split; [reflexivity|].
  destruct (guards st); simpl; repeat split; try done;
    apply Hnot; auto.
Qed.

(** C6, evaluated on the code.  The block of phase B does what the claim
    says when it is entered, with the mutex free, for an id that is not in
    the map: it returns, raises nothing and leaves the map as it is.  But
    [process_message] never enters it: the call stops in phase A, before
    the model is called, no guard is ever released, and no response is
    returned to the caller. *)
Theorem phase_B_never_entered self sid prompt um t p m st response :
  (guards st = 0%nat -> sessions_ st !! sid = None ->
   locked_phase_B sid response st
   = (Return tt,
      mkState (world st) (sessions_ st) 0 (events st ++ [ev_lock; ev_unlock])))
  /\ fst (process_message self sid prompt um t p m st) <> Return response
  /\ fst (process_message self sid prompt um t p m st) = Blocked
  /\ exists evs,
       events (snd (process_message self sid prompt um t p m st))
       = events st ++ evs
       /\ (ev_unlock ∉ evs) /\ ev_http_post ∉ evs.
Proof.
  split.
  { intros Hfree Hnone. rewrite locked_phase_B_run by done.
    by rewrite alter_id'. }
  rewrite process_message_run. split; [done|]. split; [done|].
  destruct (locked_phase_A_events self sid prompt um st)
    as (evs & Hevs & Hunlock & Hpost & _).
  by exists evs.
Qed.

(** A session is seeded with the system prompt of the call of
    [get_or_create_session] that creates it. *)
Lemma system_prompt_seeded_at_creation st sid prompt :
  guards st = 0%nat ->
  sessions_ st !! sid = None ->
  exists s',
    sessions_ (snd (get_or_create_session sid prompt st)) !! sid = Some s'
    /\ dialog s' = [mkChatMessage "system" prompt].
Proof.
  intros Hfree Hnone. rewrite get_or_create_session_run by done.
  destruct (system_clock_now (world st)) as [now_ w]. cbn.
  rewrite lookup_insert_eq, Hnone. by eexists.
Qed.

(** C9. A session that is in the map (in any state the pieces of the
    source can build) has a system directive at position 0 of its dialog.
    [get_or_create_session], called for its id with another system prompt,
    returns the session as it is: the prompt is ignored and the dialog is
    what it was (only the time of access changes).  A call of
    [process_message] or of [process_message_stream] on its id leaves that
    message as it was, whatever system prompt the call passes. *)
Theorem system_prompt_of_existing_session_kept
    self st sid s new_prompt um t p m :
  built self st ->
  sessions_ st !! sid = Some s ->
  (exists seeded, dialog s !! 0%nat = Some (mkChatMessage "system" seeded))
  /\ (exists s',
        sessions_ (snd (get_or_create_session sid new_prompt st)) !! sid
          = Some s'
        /\ dialog s' = dialog s)
  /\ (guards st = 0%nat ->
      fst (get_or_create_session sid new_prompt st) = Return sid)
  /\ (exists s',
     sessions_ (snd (process_message self sid new_prompt um t p m st)) !! sid
       = Some s'
     /\ dialog s' !! 0%nat = dialog s !! 0%nat)
  /\ (forall (S : Type) (on_chunk : callback S) (s0 : S),
       exists s',
         sessions_ (snd (snd (process_message_stream self sid new_prompt um
                                on_chunk t p m (s0, st)))) !! sid = Some s'
         /\ dialog s' !! 0%nat = dialog s !! 0%nat).
Proof.
  intros Hbuilt Hs.
  split; [exact (built_system_headed self st Hbuilt sid s Hs)|].
  split; [|split; [|split]].
  - destruct (decide (guards st = 0%nat)) as [Hfree|Hheld].
    + rewrite get_or_create_session_run by done.
      destruct (system_clock_now (world st)) as [now_ w]. cbn.
      rewrite lookup_insert_eq, Hs. by eexists.
    + unfold get_or_create_session. rewrite lock_guard_held by done.
      by exists s.
  - intros Hfree. rewrite get_or_create_session_run by done.
    by destruct (system_clock_now (world st)).
  - rewrite process_message_run, locked_phase_A_run. by exists s.
  - intros S on_chunk s0.
    rewrite process_message_stream_run, locked_phase_A_run. by exists s.
Qed.

(** C10, evaluated on the code.  [process_message_stream] never reaches
    the call of the model: whatever the callback, it stops in phase A
    without having called it, with no entry into [http_post], and with the
    world and the session map as they were.  No error marker is
    delivered, none is stored. *)
Theorem stream_stops_before_the_model {S} self sid prompt um
    (on_chunk : callback S) t p m s st :
  let out := process_message_stream self sid prompt um on_chunk t p m (s, st) in
  fst out = Blocked
  /\ fst (snd out) = s
  /\ sessions_ (snd (snd out)) = sessions_ st
  /\ world (snd (snd out)) = world st
  /\ exists evs,
       events (snd (snd out)) = events st ++ evs
       /\ (ev_http_post ∉ evs) /\ ev_unlock ∉ evs.
Proof.
  cbv zeta. rewrite process_message_stream_run. simpl.
  split; [done|]. split; [done|].
  destruct (locked_phase_A_events self sid prompt um st)
    as (evs & Hevs & Hunlock & Hpost & _).
  rewrite locked_phase_A_run in *. simpl in *.
  split; [done|]. split; [done|]. by exists evs.
Qed.

End SessionProtocol.

(** ** The connection probe *)

Section Probe.
Context `{Platform}.

(** C4, amended. [test_connection] never throws.  It returns true exactly
    when the probe could be sent, the peer answered, the answer parsed,
    and the parsed value is an object that has the key "choices",
    whatever is stored under it; it returns false when the peer is
    unreachable or its answer does not parse. *)
Theorem test_connection_checks_key_only self st :
  exists b st',
    test_connection self st = (Return b, st')
    /\ (b = true <->
        exists request body w j,
          json_dump connection_probe = inr request
          /\ http_post (server_url_ self +:+ "/v1/chat/completions") request 10
                       (world st) = (inr body, w)
          /\ json_parse body = inr j
          /\ contains j "choices" = true)
    /\ (forall request e w,
          json_dump connection_probe = inr request ->
          http_post (server_url_ self +:+ "/v1/chat/completions") request 10
                    (world st) = (inl e, w) ->
          b = false)
    /\ (forall request body w e,
          json_dump connection_probe = inr request ->
          http_post (server_url_ self +:+ "/v1/chat/completions") request 10
                    (world st) = (inr body, w) ->
          json_parse body = inl e ->
          b = false).
Proof.
  unfold test_connection, try_catch, bind at 1.
  destruct (json_dump connection_probe) as [e|request] eqn:Hdump; simpl.
  { exists false. eexists. split; [reflexivity|].
    split; [|split; intros; congruence].
    split; [discriminate|]. by intros (? & ? & ? & ? & ? & _). }
  unfold bind at 1, call_http_post, log_event. simpl.
  destruct (http_post _ request 10 (world st)) as [[e|body] w] eqn:Hpost; simpl.
  { exists false. eexists. split; [reflexivity|].
    split; [|split; intros; congruence].
    split; [discriminate|]. intros (? & ? & ? & ? & [= <-] & ? & _). congruence. }
  unfold bind at 1.
  destruct (json_parse body) as [e|j] eqn:Hparse; simpl.
  { exists false. eexists. split; [reflexivity|].
    split; [|split; intros; congruence].
    split; [discriminate|].
    intros (? & ? & ? & ? & [= <-] & ? & ? & _). congruence. }
  destruct (contains j "choices") eqn:Hc; simpl.
  - exists true. eexists. split; [reflexivity|].
    split; [|split; intros; congruence].
    split; [|done]. intros _. by exists request, body, w, j.
  - exists false. eexists. split; [reflexivity|].
    split; [|split; intros; congruence].
    split; [discriminate|].
    intros (? & ? & ? & ? & [= <-] & ? & ? & ?). congruence.
Qed.

End Probe.

(** ** The mutex *)

Section Mutex.
Context `{Platform}.

(** C5, evaluated on the code.  A call of [process_message] or of
    [process_message_stream] locks [sessions_mutex_] while the mutex is
    held: called with the mutex free, it enters [lock] twice with no
    release in between, the second time from [get_or_create_session]
    while the guard of the calling block is alive.  The thread stops
    there, before it enters [http_post], and the guard of the block is
    never released. *)
Theorem process_message_locks_owned_mutex self sid prompt um t p m st :
  (exists evs,
     events (snd (process_message self sid prompt um t p m st))
       = events st ++ evs
     /\ relocks (guards st) evs = true
     /\ (ev_http_post ∉ until_relock (guards st) evs)
     /\ (ev_http_post ∉ evs)
     /\ (ev_unlock ∉ evs)
     /\ (guards st = 0%nat -> evs = [ev_lock; ev_lock]))
  /\ fst (process_message self sid prompt um t p m st) = Blocked
  /\ (0 < guards (snd (process_message self sid prompt um t p m st)))%nat
  /\ (forall (S : Type) (on_chunk : callback S) (s : S),
      let out := process_message_stream self sid prompt um on_chunk
                                        t p m (s, st) in
      (exists evs,
         events (snd (snd out)) = events st ++ evs
         /\ relocks (guards st) evs = true
         /\ (ev_http_post ∉ until_relock (guards st) evs)
         /\ (ev_http_post ∉ evs)
         /\ (ev_unlock ∉ evs)
         /\ (guards st = 0%nat -> evs = [ev_lock; ev_lock]))
      /\ fst out = Blocked
      /\ (0 < guards (snd (snd out)))%nat).
Proof.
  destruct (locked_phase_A_events self sid prompt um st)
    as (evs & Hevs & Hunlock & Hpost & Hrelock & Huntil & Hexact).
  assert (Hheld : (0 < guards (snd (locked_phase_A self sid prompt um st)))%nat).
  { rewrite locked_phase_A_run. simpl. destruct (guards st); simpl; lia. }
  split; [|split; [|split]].
  - rewrite process_message_run. simpl. by exists evs.
  - by rewrite process_message_run.
  - by rewrite process_message_run.
  - intros S on_chunk s. cbv zeta. rewrite process_message_stream_run. simpl.
    split; [by exists evs|done].
Qed.

End Mutex.

(** ** Ten turns with a bound of two pairs *)

Section TenTurns.
Context `{Platform}.

(** C1, evaluated on the code.  A conversation does not get past its
    first turn: the first call of [process_message] stops in phase A and
    never returns, whatever the bound, the peer and the state it starts
    from.  No message is stored; on a fresh manager no session exists at
    all, and the mutex stays locked. *)
Theorem ten_turns_first_call_blocks self sid prompt um turns st :
  let out := converse self sid ((prompt, um) :: turns) st in
  fst out = Blocked
  /\ sessions_ (snd out) = sessions_ st
  /\ world (snd out) = world st
  /\ (forall w, st = initial_state w ->
        snd out = mkState w ∅ 1 [ev_lock; ev_lock]).
Proof.
  assert (Hrun : converse self sid ((prompt, um) :: turns) st
                 = (Blocked, snd (locked_phase_A self sid prompt um st))).
  { cbn [converse]. unfold bind at 1. by rewrite process_message_run. }
  cbv zeta. rewrite Hrun, locked_phase_A_run. simpl.
  split; [done|]. split; [done|]. split; [done|]. by intros w ->.
Qed.

End TenTurns.

(** * Examples on the scripted peer *)

(** The first of ten turns on a fresh manager that keeps two pairs, with
    a peer that answers every request: the call stops after its second
    entry into [lock], with the mutex held, no session and no request
    sent. *)
Lemma first_of_ten_turns_blocks :
  converse Scripted.manager2 "s"
    [("P", "u1"); ("P", "u2"); ("P", "u3"); ("P", "u4"); ("P", "u5");
     ("P", "u6"); ("P", "u7"); ("P", "u8"); ("P", "u9"); ("P", "u10")]
    (Scripted.start Scripted.ten_replies)
  = (Blocked,
     mkState (Scripted.mkWorld Scripted.ten_replies 1000) ∅ 1
             [ev_lock; ev_lock]).
Proof. vm_compute. reflexivity. Qed.

(** The same call through the streaming entry point, observed with a
    callback that records what it is handed, against a peer that is down:
    nothing is recorded. *)
Lemma first_stream_call_blocks :
  process_message_stream Scripted.manager2 "s" "P" "hi"
    (returning record_chunk) None None None ([], Scripted.start [])
  = (Blocked,
     ([], mkState (Scripted.mkWorld [] 1000) ∅ 1 [ev_lock; ev_lock])).
Proof. vm_compute. reflexivity. Qed.

(** The log of the first call, and the part of it up to the point where
    the owner locks again. *)
Lemma first_call_blocks_in_phase_A :
  let out := process_message Scripted.manager2 "s" "P" "hi"
               None None None (Scripted.start Scripted.ten_replies) in
  fst out = Blocked
  /\ events (snd out) = [ev_lock; ev_lock]
  /\ guards (snd out) = 1%nat
  /\ relocks 0 (events (snd out)) = true
  /\ until_relock 0 (events (snd out)) = [ev_lock].
Proof. cbv zeta. repeat split; vm_compute; reflexivity. Qed.

(** Once a call is stuck, the mutex is never free again: every later call
    on the manager, from whatever thread, waits too. *)
Lemma calls_after_the_first_block :
  let st := snd (process_message Scripted.manager2 "s" "P" "hi"
                   None None None (Scripted.start Scripted.ten_replies)) in
  fst (get_session_history "s" st) = Blocked
  /\ fst (clear_session "s" st) = Blocked
  /\ fst (process_message Scripted.manager2 "t" "P" "hi" None None None st)
     = Blocked.
Proof. cbv zeta. repeat split; vm_compute; reflexivity. Qed.

Lemma trim_history_after_user_message_witness :
  let sys := mkChatMessage "system" "P" in
  let hist := [mkChatMessage "user" "u1"; mkChatMessage "assistant" "r1";
               mkChatMessage "user" "u2"; mkChatMessage "assistant" "r2"] in
  let s := mkSession (sys :: hist) 1000 1001 2 in
  let s1 := message_count_incr (dialog_push_back (mkChatMessage "user" "u3") s) in
  let s2 := trim_history 2 s1 in
  dialog s = sys :: hist
  /\ role sys = "system"
  /\ Forall (fun m => role m <> "system") hist
  /\ in_int (2 * 2)
  /\ Z.of_nat (length (dialog s)) < INT_MAX
  /\ (dialog s2 <> dialog s1 <-> 2 * 2 < Z.of_nat (non_system_count (dialog s1)))
  /\ (2 * 2 < Z.of_nat (non_system_count (dialog s1)) ->
      dialog s2 = sys :: last_n (2 * 2) (dialog s1)).
Proof.
  cbv zeta.
  assert (Hhist : Forall (fun m => role m <> "system")
            [mkChatMessage "user" "u1"; mkChatMessage "assistant" "r1";
             mkChatMessage "user" "u2"; mkChatMessage "assistant" "r2"]).
  { repeat constructor; simpl; discriminate. }
  assert (Hint : in_int (2 * 2)) by (unfold in_int, INT_MIN, INT_MAX; lia).
  assert (Hlen : Z.of_nat (length (dialog
            (mkSession
               (mkChatMessage "system" "P" ::
                [mkChatMessage "user" "u1"; mkChatMessage "assistant" "r1";
                 mkChatMessage "user" "u2"; mkChatMessage "assistant" "r2"])
               1000 1001 2))) < INT_MAX)
    by (unfold INT_MAX; simpl; lia).
  split; [reflexivity|]. split; [reflexivity|]. split; [exact Hhist|].
  split; [exact Hint|]. split; [exact Hlen|].
  exact (trim_history_after_user_message 2
           (mkSession
              (mkChatMessage "system" "P" ::
               [mkChatMessage "user" "u1"; mkChatMessage "assistant" "r1";
                mkChatMessage "user" "u2"; mkChatMessage "assistant" "r2"])
              1000 1001 2)
           (mkChatMessage "system" "P")
           [mkChatMessage "user" "u1"; mkChatMessage "assistant" "r1";
            mkChatMessage "user" "u2"; mkChatMessage "assistant" "r2"]
           "u3" eq_refl eq_refl Hhist Hint Hlen).
Defined.

Lemma one_turn_built_is_built : built Scripted.manager2 Scripted.one_turn_built.
Proof.
  exists (Scripted.mkWorld Scripted.ten_replies 1000),
    [step_get_or_create_session "s" "P"; step_add_user_message "s" "hi";
     step_trim_history "s"; step_phase_B "s" "r1"].
  reflexivity.
Qed.

Lemma one_turn_built_session :
  sessions_ Scripted.one_turn_built !! "s"
  = Some (mkSession [mkChatMessage "system" "P"; mkChatMessage "user" "hi";
                     mkChatMessage "assistant" "r1"] 1000 1000 1).
Proof. vm_compute. reflexivity. Qed.

Lemma system_message_invariants_witness :
  let s := mkSession [mkChatMessage "system" "P"; mkChatMessage "user" "hi";
                      mkChatMessage "assistant" "r1"] 1000 1000 1 in
  built Scripted.manager2 Scripted.one_turn_built
  /\ sessions_ Scripted.one_turn_built !! "s" = Some s
  /\ (exists prompt, dialog s !! 0%nat = Some (mkChatMessage "system" prompt))
  /\ (forall m, dialog s !! 0%nat = Some m -> role m = "system")
  /\ (forall user_message,
        let s1 := dialog_push_back (mkChatMessage "user" user_message) s in
        let s2 := trim_history (max_history_messages_ Scripted.manager2) s1 in
        dialog s2 !! 0%nat = dialog s !! 0%nat
        /\ exists k : nat, drop 1 (dialog s2) = drop k (drop 1 (dialog s1))).
Proof.
  cbv zeta.
  split; [exact one_turn_built_is_built|].
  split; [exact one_turn_built_session|].
  destruct (system_message_invariants Scripted.manager2 Scripted.one_turn_built
              one_turn_built_is_built "s" _ one_turn_built_session)
    as (Hhead & Hrole & Htrim).
  split; [exact Hhead|]. split; [exact Hrole|].
  intros user_message. destruct (Htrim user_message) as [Hkeep Hsuffix].
  split; [exact Hkeep|]. apply Hsuffix.
  - unfold in_int, INT_MIN, INT_MAX. simpl. lia.
  - unfold INT_MAX. simpl. lia.
Defined.

Lemma system_prompt_of_existing_session_kept_witness :
  let s := mkSession [mkChatMessage "system" "P"; mkChatMessage "user" "hi";
                      mkChatMessage "assistant" "r1"] 1000 1000 1 in
  let st := Scripted.one_turn_built in
  built Scripted.manager2 st
  /\ sessions_ st !! "s" = Some s
  /\ guards st = 0%nat
  /\ (exists seeded, dialog s !! 0%nat = Some (mkChatMessage "system" seeded))
  /\ (exists s',
        sessions_ (snd (get_or_create_session "s" "another prompt" st)) !! "s"
          = Some s'
        /\ dialog s' = dialog s)
  /\ fst (get_or_create_session "s" "another prompt" st) = Return "s"
  /\ (exists s',
        sessions_ (snd (process_message Scripted.manager2 "s" "another prompt"
                          "again" None None None st)) !! "s"
          = Some s'
        /\ dialog s' !! 0%nat = dialog s !! 0%nat).
Proof.
  cbv zeta.
  split; [exact one_turn_built_is_built|].
  split; [exact one_turn_built_session|].
  split; [reflexivity|].
  destruct (system_prompt_of_existing_session_kept Scripted.manager2
              Scripted.one_turn_built "s" _ "another prompt" "again"
              None None None one_turn_built_is_built one_turn_built_session)
    as (Hseeded & Hkept & Hreturns & Hcall & _).
  split; [exact Hseeded|]. split; [exact Hkept|].
  split; [exact (Hreturns eq_refl)|]. exact Hcall.
Defined.

Lemma generate_stream_failure_single_chunk_witness :
  let msgs := [mkChatMessage "system" "P"; mkChatMessage "user" "hi"] in
  let st := Scripted.start [] in
  let e := runtime_error "LLM generation failed: Failed to connect to localhost:8080" in
  let st' := snd (generate Scripted.client msgs None None None "default" st) in
  generate Scripted.client msgs None None None "default" st = (Throw e, st')
  /\ (forall (S : Type) (on_chunk : callback S) (s : S),
        generate_stream Scripted.client msgs on_chunk None None None "default"
                        (s, st)
        = let (r, s') := on_chunk ("Error: " +:+ what e) s in (r, (s', st')))
  /\ (forall (S : Type) (f : string -> S -> S) (s : S),
        generate_stream Scripted.client msgs (returning f) None None None
                        "default" (s, st)
        = (Return tt, (f ("Error: " +:+ what e) s, st')))
  /\ generate_stream Scripted.client msgs (returning record_chunk)
                     None None None "default" ([], st)
     = (Return tt, (["Error: " +:+ what e], st')).
Proof.
  cbv zeta.
  assert (Hfail :
    generate Scripted.client
      [mkChatMessage "system" "P"; mkChatMessage "user" "hi"]
      None None None "default" (Scripted.start [])
    = (Throw (runtime_error
                "LLM generation failed: Failed to connect to localhost:8080"),
       snd (generate Scripted.client
              [mkChatMessage "system" "P"; mkChatMessage "user" "hi"]
              None None None "default" (Scripted.start []))))
    by (vm_compute; reflexivity).
  split; [exact Hfail|].
  exact (generate_stream_failure_single_chunk Scripted.client _ None None None
           "default" _ _ _ Hfail).
Defined.

(** C4 as stated fails: the peer is reachable, its answer parses as an
    object whose "choices" array is empty, and [test_connection] returns
    true. *)
Lemma test_connection_true_on_empty_choices :
  let st := Scripted.start [inr Scripted.empty_choices_text] in
  http_post (server_url_ Scripted.client +:+ "/v1/chat/completions")
            (Scripted.dump connection_probe) 10 (world st)
    = (inr Scripted.empty_choices_text, Scripted.mkWorld [] 1000)
  /\ json_parse Scripted.empty_choices_text
     = inr (json_object [("choices", json_array [])])
  /\ fst (test_connection Scripted.client st) = Return true
  /\ fst (test_connection Scripted.client st) <> Return false.
Proof.
  cbv zeta. split; [reflexivity|]. split; [vm_compute; reflexivity|].
  assert (Htrue : fst (test_connection Scripted.client
                         (Scripted.start [inr Scripted.empty_choices_text]))
                  = Return true) by (vm_compute; reflexivity).
  split; [exact Htrue|]. rewrite Htrue. discriminate.
Qed.

(** The first call on a fresh manager: the log of the call, and the part
    of it that is executed when the second acquisition blocks. *)

Lemma test_connection_checks_key_only_witness :
  let st := Scripted.start [] in
  json_dump connection_probe = inr (Scripted.dump connection_probe)
  /\ http_post (server_url_ Scripted.client +:+ "/v1/chat/completions")
               (Scripted.dump connection_probe) 10 (world st)
     = (inl (runtime_error "Failed to connect to localhost:8080"), world st)
  /\ exists b st',
       test_connection Scripted.client st = (Return b, st') /\ b = false.
Proof.
  cbv zeta.
  assert (Hdump : json_dump connection_probe
                  = inr (Scripted.dump connection_probe)) by reflexivity.
  assert (Hpost :
    http_post (server_url_ Scripted.client +:+ "/v1/chat/completions")
              (Scripted.dump connection_probe) 10
              (world (Scripted.start []))
    = (inl (runtime_error "Failed to connect to localhost:8080"),
       world (Scripted.start []))) by reflexivity.
  split; [exact Hdump|]. split; [exact Hpost|].
  destruct (test_connection_checks_key_only Scripted.client (Scripted.start []))
    as (b & st' & Hrun & _ & Hunreachable & _).
  exists b, st'. split; [exact Hrun|].
  exact (Hunreachable _ _ _ Hdump Hpost).
Defined.

(** * The transport *)

(** ** Strings *)

Lemma length_append a b :
  String.length (a +:+ b) = (String.length a + String.length b)%nat.
Proof.
  induction a as [|c a IH]; [by rewrite append_nil_l|].
  rewrite append_cons. simpl. by rewrite IH.
Qed.

Lemma substring_append_l a b :
  String.substring 0 (String.length a) (a +:+ b) = a.
Proof.
  induction a as [|c a IH].
  - rewrite append_nil_l. by destruct b.
  - rewrite append_cons. simpl. by rewrite IH.
Qed.

Lemma substring_append_r a b m :
  String.substring (String.length a) m (a +:+ b) = String.substring 0 m b.
Proof.
  induction a as [|c a IH]; [by rewrite append_nil_l|].
  rewrite append_cons. simpl. exact IH.
Qed.

Lemma substr_from_append a b : string_substr_from (String.length a) (a +:+ b) = b.
Proof.
  unfold string_substr_from. rewrite substring_append_r, length_append.
  replace (String.length a + String.length b - String.length a)%nat
    with (String.length b) by lia.
  apply substring_whole.
Qed.

Lemma substr_from_zero s : string_substr_from 0 s = s.
Proof.
  unfold string_substr_from. rewrite Nat.sub_0_r. apply substring_whole.
Qed.

Lemma free_of_append c a b : free_of c (a +:+ b) <-> free_of c a /\ free_of c b.
Proof.
  induction a as [|x a IH]; [rewrite append_nil_l; simpl; tauto|].
  rewrite append_cons. simpl. tauto.
Qed.

Lemma prefix_append p s : String.prefix p (p +:+ s) = true.
Proof.
  induction p as [|c p IH]; [rewrite append_nil_l; by destruct s|].
  rewrite append_cons. simpl. by destruct (Ascii.ascii_dec c c).
Qed.

Lemma index_zero_iff p s : String.index 0 p s = Some 0%nat <-> String.prefix p s = true.
Proof.
  destruct s as [|b s].
  - destruct p; simpl; split; congruence.
  - cbn [String.index]. destruct (String.prefix p (String b s)); [done|].
    split; [|done]. by destruct (String.index 0 p s).
Qed.

Lemma find_prefix p s : string_find p (p +:+ s) = Some 0%nat.
Proof. apply index_zero_iff, prefix_append. Qed.

Lemma prefix_nil s : String.prefix "" s = true.
Proof. by destruct s. Qed.

Lemma find_char_cons c x s :
  string_find_char c (String x s)
  = if decide (c = x) then Some 0%nat else S <$> string_find_char c s.
Proof.
  unfold string_find_char. cbn [String.index String.prefix].
  destruct (Ascii.ascii_dec c x) as [->|Hne].
  - by rewrite prefix_nil, decide_True.
  - rewrite decide_False by done. by destruct (String.index 0 _ s).
Qed.

Lemma find_char_append c a b :
  free_of c a -> string_find_char c (a +:+ String c b) = Some (String.length a).
Proof.
  induction a as [|x a IH]; intros Hfree.
  - by rewrite append_nil_l, find_char_cons, decide_True.
  - destruct Hfree as [Hx Hfree]. rewrite append_cons, find_char_cons.
    rewrite decide_False by congruence. by rewrite (IH Hfree).
Qed.

Lemma find_char_free c a : free_of c a -> string_find_char c a = None.
Proof.
  induction a as [|x a IH]; intros Hfree; [done|].
  destruct Hfree as [Hx Hfree]. rewrite find_char_cons.
  rewrite decide_False by congruence. by rewrite (IH Hfree).
Qed.

Lemma find_char_Some c s p :
  string_find_char c s = Some p ->
  exists a b, s = a +:+ String c b /\ String.length a = p /\ free_of c a.
Proof.
  revert p. induction s as [|x s IH]; intros p; [done|].
  rewrite find_char_cons. destruct (decide (c = x)) as [->|Hne].
  - intros [= <-]. eexists "", _. by rewrite append_nil_l.
  - destruct (string_find_char c s) as [n|] eqn:Hn; [|done].
    intros [= <-]. destruct (IH n eq_refl) as (a & b & -> & <- & Hfree).
    exists (String x a), b. rewrite append_cons. simpl. naive_solver.
Qed.

Lemma find_char_None c s : string_find_char c s = None -> free_of c s.
Proof.
  induction s as [|x s IH]; [done|].
  rewrite find_char_cons. destruct (decide (c = x)) as [->|Hne]; [done|].
  destruct (string_find_char c s); [done|].
  intros _. simpl. split; [congruence|]. by apply IH.
Qed.

Lemma prefix_cons c p x s :
  String.prefix (String c p) (String x s)
  = if decide (c = x) then String.prefix p s else false.
Proof.
  cbn [String.prefix]. destruct (Ascii.ascii_dec c x).
  - by rewrite decide_True.
  - by rewrite decide_False.
Qed.

(** Two names in front of the separator ["://"] of which one is a prefix
    of the other are the same name. *)
Lemma prefix_scheme p a rest :
  free_of colon p -> free_of colon a ->
  String.prefix (p +:+ "://") (a +:+ "://" +:+ rest) = true -> a = p.
Proof.
  revert a. induction p as [|y p IH]; intros [|x a] Hp Ha.
  - done.
  - rewrite append_nil_l, append_cons, prefix_cons.
    destruct (decide (_ = x)) as [<-|]; [|done].
    destruct Ha as [Ha _]. by destruct Ha.
  - rewrite append_nil_l, append_cons.
    change ("://" +:+ rest) with (String colon ("//" +:+ rest)).
    rewrite prefix_cons.
    destruct (decide (y = _)) as [->|]; [|done].
    destruct Hp as [Hp _]. by destruct Hp.
  - rewrite !append_cons, prefix_cons.
    destruct (decide (y = x)) as [->|]; [|done].
    intros Hpre. f_equal. apply IH; [apply Hp|apply Ha|done].
Qed.

(** ** Decimal numerals *)

Lemma isdigit_not_space c : isdigit c = true -> isspace c = false.
Proof.
  unfold isdigit, isspace. intros Hd.
  apply andb_true_iff in Hd as [H1%Nat.leb_le H2%Nat.leb_le].
  apply orb_false_iff. split.
  - apply Nat.eqb_neq. lia.
  - apply andb_false_iff. right. apply Nat.leb_gt. lia.
Qed.

Lemma isdigit_neq c n :
  (n < 48 \/ 57 < n)%nat -> (n < 256)%nat ->
  isdigit c = true -> c <> Ascii.ascii_of_nat n.
Proof.
  intros Hn Hn' Hd ->.
  unfold isdigit in Hd. rewrite Ascii.nat_ascii_embedding in Hd by lia.
  apply andb_true_iff in Hd as [H1%Nat.leb_le H2%Nat.leb_le]. lia.
Qed.

Lemma all_digits_free c n :
  (n < 48 \/ 57 < n)%nat -> (n < 256)%nat -> c = Ascii.ascii_of_nat n ->
  forall s, all_digits s -> free_of c s.
Proof.
  intros Hn Hn' -> s. induction s as [|x s IH]; [done|].
  intros [Hx Hs]. split; [by apply isdigit_neq|by apply IH].
Qed.

Lemma all_digits_append a b : all_digits a -> all_digits b -> all_digits (a +:+ b).
Proof.
  induction a as [|x a IH]; [by rewrite append_nil_l|].
  rewrite append_cons. simpl. intros [Hx Ha] Hb. split; [done|]. by apply IH.
Qed.

Lemma read_digits_append acc ds s :
  all_digits ds -> read_digits acc (ds +:+ s) = read_digits (read_digits acc ds) s.
Proof.
  revert acc. induction ds as [|c ds IH]; intros acc Hds.
  - by rewrite append_nil_l.
  - destruct Hds as [Hc Hds]. rewrite append_cons. simpl. rewrite Hc. by apply IH.
Qed.

Lemma pretty_N_char_digit d :
  (d < 10)%N ->
  isdigit (pretty.pretty_N_char d) = true /\ digit_value (pretty.pretty_N_char d) = Z.of_N d.
Proof.
  intros Hd.
  assert (d = 0 \/ d = 1 \/ d = 2 \/ d = 3 \/ d = 4 \/ d = 5 \/ d = 6
          \/ d = 7 \/ d = 8 \/ d = 9)%N as Hcases by lia.
  repeat (destruct Hcases as [->|Hcases]; [by vm_compute|]).
  subst d. by vm_compute.
Qed.

(** [pretty.pretty_N_go x] writes the digits of [x] in front of a string. *)
Lemma pretty_N_go_digits x :
  exists ds, all_digits ds /\ read_digits 0 ds = Z.of_N x
             /\ ((0 < x)%N -> ds <> "")
             /\ forall s, pretty.pretty_N_go x s = ds +:+ s.
Proof.
  induction (N.lt_wf_0 x) as [x _ IH].
  assert (x = 0 \/ 0 < x)%N as [->|Hx] by lia.
  - exists "". split; [done|]. split; [done|]. split; [lia|].
    intros s. by rewrite pretty.pretty_N_go_0, append_nil_l.
  - destruct (IH (x `div` 10)%N) as (ds & Hds & Hval & _ & Hgo).
    { by apply N.div_lt. }
    destruct (pretty_N_char_digit (x `mod` 10)%N) as [Hc Hv].
    { by apply N.mod_lt. }
    exists (ds +:+ String (pretty.pretty_N_char (x `mod` 10)) "").
    split; [by apply all_digits_append|].
    split.
    { rewrite read_digits_append by done. simpl. rewrite Hc, Hval, Hv.
      rewrite (N.div_mod x 10) at 3 by done. lia. }
    split.
    { intros _ Heq. apply (f_equal String.length) in Heq.
      rewrite length_append in Heq. simpl in Heq. lia. }
    intros s. rewrite pretty.pretty_N_go_step by done. rewrite Hgo.
    by rewrite append_assoc, append_cons, append_nil_l.
Qed.

Lemma pretty_positive_digits (p : positive) :
  exists c ds, pretty.pretty p = String c ds /\ isdigit c = true /\ all_digits ds
               /\ read_digits 0 (String c ds) = Z.pos p.
Proof.
  destruct (pretty_N_go_digits (N.pos p)) as (ds & Hds & Hval & Hne & Hgo).
  unfold pretty.pretty, pretty.pretty_positive, pretty.pretty, pretty.pretty_N.
  rewrite decide_False by done. rewrite Hgo, append_nil_r.
  destruct ds as [|c ds]; [by destruct Hne|].
  destruct Hds as [Hc Hds]. by exists c, ds.
Qed.

Lemma to_string_digits n :
  0 <= n -> exists c ds, to_string n = String c ds /\ isdigit c = true
                         /\ all_digits ds /\ read_digits 0 (String c ds) = n.
Proof.
  intros Hn. destruct n as [|p|p]; [|apply pretty_positive_digits|lia].
  exists (Ascii.ascii_of_nat 48), "". by vm_compute.
Qed.

Lemma stoi_digits c ds :
  isdigit c = true -> in_int (read_digits 0 (String c ds)) ->
  stoi (String c ds) = inr (read_digits 0 (String c ds)).
Proof.
  intros Hc [Hlo Hhi]. unfold stoi.
  cbn [skip_space]. rewrite (isdigit_not_space c Hc).
  rewrite (proj2 (Ascii.eqb_neq c minus_sign)) by (by apply (isdigit_neq c 45); [lia..|]).
  rewrite (proj2 (Ascii.eqb_neq c plus_sign)) by (by apply (isdigit_neq c 43); [lia..|]).
  rewrite Hc.
  cbv zeta.
  rewrite (proj2 (Z.leb_le _ _) Hlo), (proj2 (Z.leb_le _ _) Hhi). done.
Qed.

(** [std::stoi] reads back what [std::to_string] writes. *)
Lemma stoi_to_string n : 0 <= n <= INT_MAX -> stoi (to_string n) = inr n.
Proof.
  intros [Hlo Hhi]. destruct (to_string_digits n Hlo) as (c & ds & -> & Hc & _ & Hval).
  rewrite stoi_digits; [by rewrite Hval|done|].
  rewrite Hval. unfold in_int, INT_MIN, INT_MAX in *. lia.
Qed.

Lemma stoi_in_int s z : stoi s = inr z -> in_int z.
Proof.
  unfold stoi. destruct (match skip_space s with
                         | String c s' => _ | EmptyString => _ end) as [neg s0].
  destruct s0 as [|c s0]; [done|].
  destruct (isdigit c); [|done]. cbv zeta.
  destruct (_ && _) eqn:Hrange; [|done].
  intros [= <-]. apply andb_true_iff in Hrange as [?%Z.leb_le ?%Z.leb_le]. done.
Qed.

(** ** parse_url *)

Lemma colon_literal s : ":" +:+ s = String colon s.
Proof. reflexivity. Qed.

Lemma strip_http rest :
  string_find "http://" ("http://" +:+ rest) = Some 0%nat
  /\ string_substr_from 7 ("http://" +:+ rest) = rest.
Proof.
  split; [apply find_prefix|]. exact (substr_from_append "http://" rest).
Qed.

Lemma strip_https rest :
  string_find "http://" ("https://" +:+ rest) <> Some 0%nat
  /\ string_find "https://" ("https://" +:+ rest) = Some 0%nat
  /\ string_substr_from 8 ("https://" +:+ rest) = rest.
Proof.
  split; [|split; [apply find_prefix|exact (substr_from_append "https://" rest)]].
  intros Hfind. apply index_zero_iff in Hfind. revert Hfind.
  rewrite !append_cons.
  repeat (rewrite prefix_cons;
          first [rewrite decide_True by reflexivity
                |rewrite decide_False by discriminate]).
  done.
Qed.

Lemma parse_url_known_scheme scheme default_port rest :
  (scheme = "http://" /\ default_port = 80)
  \/ (scheme = "https://" /\ default_port = 443) ->
  parse_url (scheme +:+ rest)
  = let '(work, path) :=
      match string_find_char slash rest with
      | Some path_pos =>
          (String.substring 0 path_pos rest, string_substr_from path_pos rest)
      | None => (rest, "/")
      end in
    match string_find_char colon work with
    | Some port_pos =>
        match stoi (string_substr_from (port_pos + 1) work) with
        | inr p => inr (mkUrlParts (String.substring 0 port_pos work) p path)
        | inl e => inl e
        end
    | None => inr (mkUrlParts work default_port path)
    end.
Proof.
  unfold parse_url. intros [[-> ->]|[-> ->]].
  - destruct (strip_http rest) as [Hfind Hsub].
    rewrite decide_True by done. by rewrite Hsub.
  - destruct (strip_https rest) as (Hnot & Hfind & Hsub).
    rewrite decide_False by done. rewrite decide_True by done.
    by rewrite Hsub.
Qed.

(** X1.  A URL made of one of the two protocols, a host name without
    ['/'] and [':'], a colon, a port number written in decimal and a path
    (empty, or beginning with ['/']) is split into exactly these parts:
    the written port overrides the port of the protocol, and an empty
    path is read as ["/"]. *)
Theorem parse_url_explicit_port scheme host_ n path_ :
  scheme = "http://" \/ scheme = "https://" ->
  free_of slash host_ -> free_of colon host_ ->
  0 <= n <= INT_MAX ->
  path_ = "" \/ (exists rest, path_ = String slash rest) ->
  parse_url (scheme +:+ host_ +:+ ":" +:+ to_string n +:+ path_)
  = inr (mkUrlParts host_ n (if decide (path_ = "") then "/" else path_)).
Proof.
  intros Hscheme Hslash Hcolon Hn Hpath.
  assert (exists default_port,
            (scheme = "http://" /\ default_port = 80)
            \/ (scheme = "https://" /\ default_port = 443))
    as [default_port Hknown].
  { destruct Hscheme; eauto. }
  rewrite (parse_url_known_scheme scheme default_port) by done.
  clear Hscheme Hknown.
  destruct (to_string_digits n (proj1 Hn)) as (c & ds & Hstr & Hc & Hds & Hval).
  assert (Hnum : all_digits (to_string n)) by (by rewrite Hstr).
  assert (Hauth_slash : free_of slash (host_ +:+ String colon (to_string n))).
  { apply free_of_append. split; [done|]. split; [discriminate|].
    apply (all_digits_free slash 47); [lia|lia|reflexivity|done]. }
  rewrite colon_literal.
  assert (Hwork : forall path',
    match string_find_char colon (host_ +:+ String colon (to_string n)) with
    | Some port_pos =>
        match stoi (string_substr_from (port_pos + 1)
                      (host_ +:+ String colon (to_string n))) with
        | inr p => inr (mkUrlParts
                          (String.substring 0 port_pos
                             (host_ +:+ String colon (to_string n))) p path')
        | inl e => inl e
        end
    | None => inr (mkUrlParts (host_ +:+ String colon (to_string n))
                     default_port path')
    end = inr (mkUrlParts host_ n path')).
  { intros path'. rewrite find_char_append by done.
    rewrite substring_append_l.
    replace (host_ +:+ String colon (to_string n))
      with ((host_ +:+ String colon "") +:+ to_string n) at 1
      by (by rewrite append_assoc, append_cons, append_nil_l).
    replace (String.length host_ + 1)%nat
      with (String.length (host_ +:+ String colon ""))
      by (rewrite length_append; simpl; lia).
    rewrite substr_from_append, stoi_to_string by done. done. }
  destruct Hpath as [->|[rest ->]].
  - rewrite append_nil_r, (find_char_free slash) by done.
    rewrite decide_True by done. apply Hwork.
  - rewrite decide_False by done.
    replace (host_ +:+ String colon (to_string n +:+ String slash rest))
      with ((host_ +:+ String colon (to_string n)) +:+ String slash rest)
      by (by rewrite append_assoc, append_cons).
    rewrite find_char_append by done.
    rewrite substring_append_l, substr_from_append. apply Hwork.
Qed.

(** X2.  Without a written port the port is the one of the protocol: 80
    for [http://] and 443 for [https://]; an empty path is read as ["/"]. *)
Theorem parse_url_default_port scheme default_port host_ path_ :
  (scheme = "http://" /\ default_port = 80)
  \/ (scheme = "https://" /\ default_port = 443) ->
  free_of slash host_ -> free_of colon host_ ->
  path_ = "" \/ (exists rest, path_ = String slash rest) ->
  parse_url (scheme +:+ host_ +:+ path_)
  = inr (mkUrlParts host_ default_port
           (if decide (path_ = "") then "/" else path_)).
Proof.
  intros Hscheme Hslash Hcolon Hpath.
  rewrite (parse_url_known_scheme scheme default_port) by done.
  destruct Hpath as [->|[rest ->]].
  - rewrite append_nil_r, (find_char_free slash), (find_char_free colon) by done.
    by rewrite decide_True.
  - rewrite find_char_append by done.
    rewrite substring_append_l, substr_from_append.
    rewrite (find_char_free colon) by done. by rewrite decide_False.
Qed.

(** X3.  Whatever the URL, the parts [parse_url] returns are well formed:
    the host contains neither ['/'] nor [':'], the path begins with
    ['/'], and the port is an [int]. *)
Theorem parse_url_parts_shape url parts :
  parse_url url = inr parts ->
  free_of slash (host parts) /\ free_of colon (host parts)
  /\ (exists rest, path parts = String slash rest)
  /\ in_int (port parts).
Proof.
  unfold parse_url.
  destruct (if decide (string_find "http://" url = Some 0%nat)
            then (string_substr_from 7 url, 80)
            else if decide (string_find "https://" url = Some 0%nat)
                 then (string_substr_from 8 url, 443)
                 else (url, 80)) as [work default_port] eqn:Hstrip.
  assert (Hdefault : in_int default_port).
  { unfold in_int, INT_MIN, INT_MAX.
    repeat case_decide; injection Hstrip as _ <-; lia. }
  clear Hstrip.
  destruct (match string_find_char slash work with
            | Some path_pos => _
            | None => _
            end) as [authority path'] eqn:Hsplit.
  assert (Hparts : free_of slash authority /\ exists rest, path' = String slash rest).
  { destruct (string_find_char slash work) as [path_pos|] eqn:Hfind.
    - apply find_char_Some in Hfind as (a & b & -> & <- & Hfree).
      rewrite substring_append_l, substr_from_append in Hsplit.
      injection Hsplit as <- <-. eauto.
    - apply find_char_None in Hfind. injection Hsplit as <- <-.
      split; [done|]. by exists "". }
  clear Hsplit. destruct Hparts as [Hslash Hpath].
  destruct (string_find_char colon authority) as [port_pos|] eqn:Hfind.
  - apply find_char_Some in Hfind as (a & b & -> & <- & Hfree).
    rewrite substring_append_l.
    destruct (stoi _) as [e|p] eqn:Hport; [done|].
    intros [= <-]. simpl.
    apply free_of_append in Hslash as [Hslash _].
    split; [done|]. split; [done|]. split; [done|].
    by apply stoi_in_int in Hport.
  - apply find_char_None in Hfind. intros [= <-]. simpl. done.
Qed.

Lemma parse_url_other_scheme scheme rest :
  free_of slash scheme -> free_of colon scheme ->
  scheme <> "http" -> scheme <> "https" ->
  parse_url (scheme +:+ "://" +:+ rest) = inl (std_exception "stoi").
Proof.
  intros Hslash Hcolon Hhttp Hhttps.
  unfold parse_url.
  rewrite decide_False.
  2:{ intros Hfind%index_zero_iff.
      by apply (prefix_scheme "http" scheme rest) in Hfind. }
  rewrite decide_False.
  2:{ intros Hfind%index_zero_iff.
      by apply (prefix_scheme "https" scheme rest) in Hfind. }
  replace (scheme +:+ "://" +:+ rest)
    with ((scheme +:+ String colon "") +:+ String slash (String slash rest)).
  2:{ by rewrite append_assoc, append_cons, append_nil_l. }
  rewrite find_char_append.
  2:{ apply free_of_append. split; [done|]. split; [discriminate|done]. }
  rewrite substring_append_l.
  rewrite find_char_append by done.
  replace (String.length scheme + 1)%nat
    with (String.length (scheme +:+ String colon ""))
    by (rewrite length_append; simpl; lia).
  unfold string_substr_from. rewrite Nat.sub_diag.
  by rewrite substring_zero_len.
Qed.

(** X4.  A URL with a protocol other than [http] and [https], written
    exactly so, is not parsed: the protocol name is taken for the host and
    the empty text after its colon for a port number, on which [std::stoi]
    throws. *)
Theorem parse_url_unknown_scheme scheme rest :
  free_of slash scheme -> free_of colon scheme ->
  scheme <> "http" -> scheme <> "https" ->
  parse_url (scheme +:+ "://" +:+ rest) = inl (std_exception "stoi").
Proof. apply parse_url_other_scheme. Qed.

(** ** http_post *)

Lemma substring_append_within a b m k :
  (m + k <= String.length a)%nat ->
  String.substring m k (a +:+ b) = String.substring m k a.
Proof.
  revert m k. induction a as [|c a IH]; intros m k Hlen.
  - simpl in Hlen. assert (m = 0%nat) as -> by lia. assert (k = 0%nat) as -> by lia.
    by rewrite !substring_zero_len.
  - rewrite append_cons. simpl in Hlen. destruct m as [|m]; simpl.
    + destruct k as [|k]; [done|]. f_equal. apply IH. lia.
    + apply IH. lia.
Qed.

Lemma find_blank_line head body :
  string_find (CRLF +:+ CRLF) (head +:+ String CR (String LF (String CR ""))) = None ->
  string_find (CRLF +:+ CRLF) (head +:+ CRLF +:+ CRLF +:+ body)
  = Some (String.length head).
Proof.
  unfold string_find. intros Hnone.
  set (sep := CRLF +:+ CRLF) in *.
  set (response := head +:+ CRLF +:+ CRLF +:+ body).
  assert (Hsep : sep <> "") by done.
  assert (Hat : String.substring (String.length head) (String.length sep) response
                = sep).
  { unfold response. rewrite substring_append_r.
    exact (substring_append_l sep body). }
  destruct (String.index 0 sep response) as [m|] eqn:Hindex.
  2:{ by destruct (String.index_correct3 0 (String.length head) _ _ Hindex Hsep
                     (Nat.le_0_l _)). }
  f_equal.
  assert (Hm : ~ (String.length head < m)%nat).
  { intros Hlt.
    by destruct (String.index_correct2 _ _ _ _ Hindex (String.length head)
                   (Nat.le_0_l _) Hlt). }
  assert (Hm' : ~ (m < String.length head)%nat); [|lia].
  intros Hlt.
  apply (String.index_correct3 0 m _ _ Hnone Hsep (Nat.le_0_l _)).
  apply String.index_correct1 in Hindex.
  transitivity (String.substring m (String.length sep) response);
    [|exact Hindex].
  symmetry.
  replace response
    with ((head +:+ String CR (String LF (String CR ""))) +:+ String LF body).
  - apply substring_append_within.
    rewrite length_append. change (String.length sep) with 4%nat. simpl. lia.
  - unfold response. by rewrite append_assoc.
Qed.

(** X5.  The body [http_post] returns is everything after the first empty
    line of what the peer sent, whatever the status line and the header
    fields in front of it say. *)
Theorem http_response_body_after_blank_line head body :
  string_find (CRLF +:+ CRLF) (head +:+ String CR (String LF (String CR ""))) = None ->
  http_response_body (head +:+ CRLF +:+ CRLF +:+ body) = inr body.
Proof.
  intros Hhead. unfold http_response_body.
  rewrite (find_blank_line head body Hhead).
  replace (head +:+ CRLF +:+ CRLF +:+ body)
    with ((head +:+ CRLF +:+ CRLF) +:+ body)
    by (by rewrite !append_assoc).
  replace (String.length head + 4)%nat
    with (String.length (head +:+ CRLF +:+ CRLF))
    by (rewrite length_append; done).
  by rewrite substr_from_append.
Qed.

Section TransportFacts.
Context `{Sockets}.

Lemma recv_loop_returns sock response st :
  exists text st' calls,
    recv_loop sock response st = (Return text, st')
    /\ trace st' = trace st ++ calls
    /\ Forall receives calls.
Proof.
  funelim (recv_loop sock response st).
  - destruct H0 as (text & st' & calls & Hrun & Htrace & Hcalls).
    exists text, st', (call_recv (Some buffer) :: calls).
    split; [done|]. split; [|by constructor].
    rewrite Htrace. simpl. by rewrite <- app_assoc.
  - eexists _, _, [call_recv None]. split; [done|]. split; [done|].
    by repeat constructor.
Qed.

(** The system calls of [http_post], in each of its outcomes. *)
Lemma http_post_sockets_run url body timeout_sec st result st' :
  http_post_sockets url body timeout_sec st = (result, st') ->
  exists calls,
    trace st' = trace st ++ calls
    /\ match parse_url url with
       | inl e => result = Throw e /\ calls = []
       | inr parts =>
           let service := to_string (port parts) in
           (result = Throw (runtime_error "Failed to create socket")
            /\ calls = [call_socket false])
           \/ (result = Throw (runtime_error ("Failed to resolve hostname: "
                                              +:+ host parts))
               /\ calls = [call_socket true; call_setsockopt timeout_sec;
                           call_getaddrinfo (c_str (host parts)) service false;
                           call_close])
           \/ (result = Throw (runtime_error ("Failed to connect to "
                                              +:+ host parts +:+ ":" +:+ service))
               /\ calls = [call_socket true; call_setsockopt timeout_sec;
                           call_getaddrinfo (c_str (host parts)) service true;
                           call_connect false; call_freeaddrinfo; call_close])
           \/ (exists response received,
                 result = match http_response_body response with
                          | inl e => Throw e
                          | inr text => Return text
                          end
                 /\ Forall receives received
                 /\ calls = [call_socket true; call_setsockopt timeout_sec;
                             call_getaddrinfo (c_str (host parts)) service true;
                             call_connect true; call_freeaddrinfo;
                             call_send (http_request parts body)
                               (wrap_int (Z.of_nat (String.length
                                                      (http_request parts body))))]
                            ++ received ++ [call_close])
       end.
Proof.
  unfold http_post_sockets, bind, traced, traced_, lift, throw, ret.
  destruct (parse_url url) as [e|parts] eqn:Hparts.
  { intros [= <- <-]. exists []. by rewrite app_nil_r. }
  cbv zeta.
  destruct (sys_socket (net st)) as [[sock|] w1] eqn:Hsock; cbn [net trace].
  2:{ intros [= <- <-]. eexists. split; [done|]. by left. }
  destruct (sys_getaddrinfo _ _ _) as [[found|] w2] eqn:Hresolve; cbn [net trace].
  2:{ intros [= <- <-]. eexists. split.
      - cbn [trace]. by rewrite <- !app_assoc.
      - right. left. done. }
  destruct (sys_connect _ _ _) as [[|] w3] eqn:Hconnect; cbn [net trace].
  2:{ intros [= <- <-]. eexists. split.
      - cbn [trace]. by rewrite <- !app_assoc.
      - right. right. left. done. }
  match goal with
  | |- context [recv_loop ?s ?r ?st0] =>
      destruct (recv_loop_returns s r st0)
        as (text & st1 & received & -> & Htrace & Hreceived)
  end.
  cbn [net trace] in *. intros Hrun.
  exists ([call_socket true; call_setsockopt timeout_sec;
           call_getaddrinfo (c_str (host parts)) (to_string (port parts)) true;
           call_connect true; call_freeaddrinfo;
           call_send (http_request parts body)
             (wrap_int (Z.of_nat (String.length (http_request parts body))))]
          ++ received ++ [call_close]).
  split.
  - destruct (http_response_body text); injection Hrun as <- <-;
      cbn [trace]; rewrite Htrace; by rewrite <- !app_assoc.
  - right. right. right. exists text, received.
    split; [|done]. by destruct (http_response_body text); injection Hrun as <- <-.
Qed.

Lemma receives_not_opened calls : Forall receives calls -> opened calls = 0%nat.
Proof.
  unfold opened. induction 1 as [|c calls Hc _ IH]; [done|].
  rewrite filter_cons. destruct c; try done.
Qed.

Lemma receives_not_closed calls : Forall receives calls -> closed calls = 0%nat.
Proof.
  unfold closed. induction 1 as [|c calls Hc _ IH]; [done|].
  rewrite filter_cons. destruct c; try done.
Qed.

Lemma opened_app a b : opened (a ++ b) = (opened a + opened b)%nat.
Proof. unfold opened. by rewrite filter_app, length_app. Qed.

Lemma closed_app a b : closed (a ++ b) = (closed a + closed b)%nat.
Proof. unfold closed. by rewrite filter_app, length_app. Qed.

(** [http_post] returns or throws: it waits for no mutex, and the peer
    sends finitely much. *)
Lemma http_post_sockets_returns url body timeout_sec st :
  fst (http_post_sockets url body timeout_sec st) <> Blocked.
Proof.
  destruct (http_post_sockets url body timeout_sec st) as [result st'] eqn:Hrun.
  destruct (http_post_sockets_run _ _ _ _ _ _ Hrun) as (calls & _ & Hcases).
  simpl. destruct (parse_url url) as [e|parts].
  - by destruct Hcases as [-> _].
  - destruct Hcases as [[-> _]|[[-> _]|[[-> _]|(response & received & -> & _)]]];
      try done.
    by destruct (http_response_body response).
Qed.

(** X6.  [http_post] does not leak its socket: on every path, whatever
    the URL, the peer and the outcome, the socket it created (at most
    one) is closed before it returns or throws. *)
Theorem http_post_closes_its_socket url body timeout_sec st :
  exists calls,
    trace (snd (http_post_sockets url body timeout_sec st)) = trace st ++ calls
    /\ opened calls = closed calls
    /\ (opened calls <= 1)%nat.
Proof.
  destruct (http_post_sockets url body timeout_sec st) as [result st'] eqn:Hrun.
  destruct (http_post_sockets_run _ _ _ _ _ _ Hrun) as (calls & Htrace & Hcases).
  exists calls. split; [done|].
  destruct (parse_url url) as [e|parts].
  { destruct Hcases as [_ ->]. split; [reflexivity|vm_compute; lia]. }
  destruct Hcases as [[_ ->]|[[_ ->]|[[_ ->]|Hsent]]];
    try (split; [reflexivity|vm_compute; lia]).
  destruct Hsent as (response & received & _ & Hreceived & ->).
  rewrite !opened_app, !closed_app.
  rewrite (receives_not_opened received), (receives_not_closed received) by done.
  split; [reflexivity|vm_compute; lia].
Qed.

Local Ltac in_explicit_list Hin :=
  repeat (apply elem_of_cons in Hin as [Hin|Hin]; [discriminate|]);
  apply elem_of_nil in Hin.

(** X7.  [http_post] writes to the peer only on an established
    connection, and then exactly the request built from the parsed URL and
    the body.  Every failure other than a response without an empty line
    ("Invalid HTTP response") happens before anything is sent. *)
Theorem http_post_sends_only_when_connected url body timeout_sec st :
  exists calls,
    trace (snd (http_post_sockets url body timeout_sec st)) = trace st ++ calls
    /\ (forall data len, call_send data len ∈ calls ->
          call_connect true ∈ calls
          /\ exists parts, parse_url url = inr parts
                           /\ data = http_request parts body)
    /\ (forall e, fst (http_post_sockets url body timeout_sec st) = Throw e ->
          e <> runtime_error "Invalid HTTP response" ->
          Forall (fun c => ~ sends c) calls).
Proof.
  destruct (http_post_sockets url body timeout_sec st) as [result st'] eqn:Hrun.
  destruct (http_post_sockets_run _ _ _ _ _ _ Hrun) as (calls & Htrace & Hcases).
  exists calls. split; [done|]. cbn [fst].
  destruct (parse_url url) as [e|parts].
  { destruct Hcases as [_ ->]. split; [by intros ?? ?%elem_of_nil|done]. }
  destruct Hcases as [[_ ->]|[[_ ->]|[[_ ->]|Hsent]]].
  1-3: split; [intros ?? Hin; by in_explicit_list Hin
              | intros; repeat constructor; tauto].
  destruct Hsent as (response & received & -> & Hreceived & ->).
  split.
  - intros data len Hin. split.
    { apply elem_of_app. left. rewrite !elem_of_cons. tauto. }
    exists parts. split; [done|].
    apply elem_of_app in Hin as [Hin|Hin].
    { do 5 (apply elem_of_cons in Hin as [Hin|Hin]; [discriminate|]).
      apply elem_of_cons in Hin as [Hin|Hin]; [congruence|].
      by apply elem_of_nil in Hin. }
    apply elem_of_app in Hin as [Hin|Hin]; [|by in_explicit_list Hin].
    rewrite Forall_forall in Hreceived. by apply Hreceived in Hin.
  - intros e. unfold http_response_body.
    destruct (string_find _ response); [done|]. by intros [= <-].
Qed.

End TransportFacts.

(** ** The client on the sockets *)

Section ClientOnSockets.
Context `{Sockets}.
Variable clock_now : Net -> Z * Net.
Variable dump : json -> exception + string.
Variable parse : string -> exception + json.

Local Abbreviation P := (socket_platform clock_now dump parse).

(** X8.  A client whose server URL has a protocol other than [http] and
    [https], written exactly so, never reaches the network: the probe
    answers [false] and [generate] throws a [std::runtime_error] without
    one system call.  When the request can be serialized, the error is
    the one of [std::stoi] on the missing port. *)
Theorem unknown_scheme_never_connects scheme rest self messages
    temperature top_p max_tokens model (st : @State P) :
  free_of slash scheme -> free_of colon scheme ->
  scheme <> "http" -> scheme <> "https" ->
  server_url_ self = scheme +:+ "://" +:+ rest ->
  (exists reason,
     fst (@generate P self messages temperature top_p max_tokens model st)
     = Throw (runtime_error reason)
     /\ (forall text,
           dump (chat_request self messages temperature top_p max_tokens model)
           = inr text ->
           reason = "LLM generation failed: stoi"))
  /\ trace (world (snd (@generate P self messages temperature top_p
                          max_tokens model st))) = trace (world st)
  /\ fst (@test_connection P self st) = Return false
  /\ trace (world (snd (@test_connection P self st))) = trace (world st).
Proof.
  intros Hslash Hcolon Hhttp Hhttps Hurl.
  assert (Hparse : parse_url (server_url_ self +:+ "/v1/chat/completions")
                   = inl (std_exception "stoi")).
  { rewrite Hurl, !append_assoc. by apply parse_url_other_scheme. }
  assert (Hpost : forall body timeout_sec (st0 : @State P),
    @call_http_post P (server_url_ self +:+ "/v1/chat/completions") body
                    timeout_sec st0
    = (Throw (std_exception "stoi"),
       mkState (world st0) (sessions_ st0) (guards st0)
               (events st0 ++ [ev_http_post]))).
  { intros body timeout_sec st0. unfold call_http_post, log_event.
    cbn [world sessions_ guards events http_post socket_platform].
    unfold http_post_sockets, bind at 1. rewrite Hparse. simpl.
    by destruct (world st0). }
  split; [|split; [|split]].
  - unfold generate, try_catch, bind. cbn [json_dump socket_platform].
    change (json_object _) with
      (chat_request self messages temperature top_p max_tokens model).
    destruct (dump _) as [e|text] eqn:Hdump; simpl.
    + destruct e; eexists; (split; [reflexivity|]); intros text Htext;
        congruence.
    + rewrite Hpost. eauto.
  - unfold generate, try_catch, bind. cbn [json_dump socket_platform].
    destruct (dump _) as [e|text]; simpl.
    + by destruct e.
    + by rewrite Hpost.
  - unfold test_connection, try_catch, bind. cbn [json_dump socket_platform].
    destruct (dump _) as [e|text]; simpl; [done|]. by rewrite Hpost.
  - unfold test_connection, try_catch, bind. cbn [json_dump socket_platform].
    destruct (dump _) as [e|text]; simpl; [done|]. by rewrite Hpost.
Qed.

End ClientOnSockets.

(** * More on the client *)

Section ClientMore.
Context `{Platform}.

Lemma generate_chat_request self msgs t p m model :
  generate self msgs t p m model =
    try_catch
      (do text <- lift (json_dump (chat_request self msgs t p m model));
       do response <- call_http_post (server_url_ self +:+ "/v1/chat/completions")
                                  text (timeout_ self);
       do j <- lift (json_parse response);
       if contains j "choices" then
         do choices <- lift (at_key j "choices");
         if 0 <? size choices then
           do c0 <- lift (at_index choices 0);
           do message <- lift (at_key c0 "message");
           do content_ <- lift (at_key message "content");
           do content <- lift (get_string content_);
           ret content
         else throw (runtime_error "Invalid response from LLM server")
       else throw (runtime_error "Invalid response from LLM server"))
      (fun e =>
         match e with
         | json_exception w =>
             throw (runtime_error ("JSON parse error: " +:+ w))
         | _ =>
             throw (runtime_error ("LLM generation failed: " +:+ what e))
         end).
Proof. reflexivity. Qed.

(** The answer of the peer, as [generate] reads it: an object whose
    ["choices"] is an array that begins with an object whose ["message"]
    is an object whose ["content"] is the string [answer]. *)
Lemma first_choice_inv j choices c0 message content_ answer :
  contains j "choices" = true ->
  at_key j "choices" = inr choices ->
  0 < size choices ->
  at_index choices 0 = inr c0 ->
  at_key c0 "message" = inr message ->
  at_key message "content" = inr content_ ->
  get_string content_ = inr answer ->
  exists o cs oc om,
    j = json_object o
    /\ object_find "choices" o = Some (json_array (json_object oc :: cs))
    /\ object_find "message" oc = Some (json_object om)
    /\ object_find "content" om = Some (json_string answer).
Proof.
  intros Hc Hk Hsz H0 Hm Hct Hg.
  destruct content_; try discriminate. injection Hg as ->.
  destruct j as [| | | | | |o]; try discriminate.
  simpl in Hc, Hk. apply bool_decide_eq_true in Hc as [v Hv].
  rewrite Hv in Hk. injection Hk as ->.
  destruct choices as [| | | | |a|]; try discriminate.
  destruct a as [|x cs]; [simpl in Hsz; lia|].
  injection H0 as ->.
  destruct message as [| | | | | |om]; try discriminate.
  simpl in Hct. destruct (object_find "content" om) as [c|] eqn:Hcontent;
    [|discriminate].
  injection Hct as ->.
  destruct c0 as [| | | | | |oc]; try discriminate.
  simpl in Hm. destruct (object_find "message" oc) as [c|] eqn:Hmessage;
    [|discriminate].
  injection Hm as ->.
  by exists o, cs, oc, om.
Qed.

Lemma generate_return_request self msgs t p m model st answer st' :
  generate self msgs t p m model st = (Return answer, st') ->
  exists request body j choices c0 message content_,
    json_dump (chat_request self msgs t p m model) = inr request
    /\ http_post (server_url_ self +:+ "/v1/chat/completions") request
                 (timeout_ self) (world st) = (inr body, world st')
    /\ json_parse body = inr j
    /\ contains j "choices" = true
    /\ at_key j "choices" = inr choices
    /\ 0 < size choices
    /\ at_index choices 0 = inr c0
    /\ at_key c0 "message" = inr message
    /\ at_key message "content" = inr content_
    /\ get_string content_ = inr answer.
Proof.
  rewrite generate_chat_request. unfold try_catch, bind at 1.
  destruct (json_dump _) as [e|request] eqn:Hdump; simpl.
  { destruct e; discriminate. }
  unfold bind at 1, call_http_post, log_event. simpl.
  destruct (http_post _ request _ (world st)) as [[e|body] w] eqn:Hpost; simpl.
  { destruct e; discriminate. }
  unfold bind at 1. destruct (json_parse body) as [e|j] eqn:Hparse; simpl.
  { destruct e; discriminate. }
  destruct (contains j "choices") eqn:Hc; simpl; [|discriminate].
  unfold bind at 1. destruct (at_key j "choices") as [e|choices] eqn:Hk; simpl.
  { destruct e; discriminate. }
  destruct (Z.ltb_spec 0 (size choices)) as [Hsz|Hsz]; simpl; [|discriminate].
  unfold bind at 1. destruct (at_index choices 0) as [e|c0] eqn:H0; simpl.
  { destruct e; discriminate. }
  unfold bind at 1. destruct (at_key c0 "message") as [e|message] eqn:Hm; simpl.
  { destruct e; discriminate. }
  unfold bind at 1. destruct (at_key message "content") as [e|content_] eqn:Hct;
    simpl.
  { destruct e; discriminate. }
  unfold bind at 1. destruct (get_string content_) as [e|text] eqn:Hg; simpl.
  { destruct e; discriminate. }
  intros [= <- <-]. simpl.
  by exists request, body, j, choices, c0, message, content_.
Qed.

(** X9.  [generate] returns a text exactly when the request could be
    serialized and sent, the peer answered, the answer parsed, and the
    parsed value is an object whose ["choices"] is an array whose first
    element has the string under [message.content]; the text is that
    string.  Further choices and further keys play no part. *)
Theorem generate_returns_first_choice self msgs t p m model st answer :
  fst (generate self msgs t p m model st) = Return answer
  <-> exists request body w o cs oc om,
        json_dump (chat_request self msgs t p m model) = inr request
        /\ http_post (server_url_ self +:+ "/v1/chat/completions") request
                     (timeout_ self) (world st) = (inr body, w)
        /\ json_parse body = inr (json_object o)
        /\ object_find "choices" o = Some (json_array (json_object oc :: cs))
        /\ object_find "message" oc = Some (json_object om)
        /\ object_find "content" om = Some (json_string answer).
Proof.
  split.
  - destruct (generate self msgs t p m model st) as [r st'] eqn:Hrun.
    simpl. intros ->.
    destruct (generate_return_request _ _ _ _ _ _ _ _ _ Hrun)
      as (request & body & j & choices & c0 & message & content_
          & Hdump & Hpost & Hparse & Hc & Hk & Hsz & H0 & Hm & Hct & Hg).
    destruct (first_choice_inv _ _ _ _ _ _ Hc Hk Hsz H0 Hm Hct Hg)
      as (o & cs & oc & om & -> & Hchoices & Hmessage & Hcontent).
    by exists request, body, (world st'), o, cs, oc, om.
  - intros (request & body & w & o & cs & oc & om
            & Hdump & Hpost & Hparse & Hchoices & Hmessage & Hcontent).
    rewrite generate_chat_request.
    unfold try_catch, bind at 1. rewrite Hdump. simpl.
    unfold bind at 1, call_http_post, log_event. simpl. rewrite Hpost. simpl.
    unfold bind at 1. rewrite Hparse. simpl.
    rewrite Hchoices. rewrite bool_decide_eq_true_2 by eauto.
    unfold bind at 1. simpl.
    unfold bind at 1. simpl. rewrite Hmessage. simpl.
    unfold bind at 1. simpl. rewrite Hcontent. simpl. done.
Qed.

(** X10.  Every failure of [generate] is a [std::runtime_error], and its
    text tells the cases apart only by its prefix.  When [http_post]
    throws (no connection, no address, no response) the text is
    "LLM generation failed: " followed by the text of that exception; when
    the answer of the peer is no JSON it is "JSON parse error: " followed
    by the text of the parser; when the answer has no ["choices"], or an
    empty one, it is "LLM generation failed: Invalid response from LLM
    server": the error thrown inside the [try] block is caught and wrapped
    by the handler of the same block. *)
Theorem generate_failure_texts self msgs t p m model st request :
  json_dump (chat_request self msgs t p m model) = inr request ->
  let post := http_post (server_url_ self +:+ "/v1/chat/completions") request
                        (timeout_ self) (world st) in
  let result := fst (generate self msgs t p m model st) in
  (forall e, fst post = inl e -> (forall w, e <> json_exception w) ->
     result = Throw (runtime_error ("LLM generation failed: " +:+ what e)))
  /\ (forall body w, fst post = inr body -> json_parse body = inl (json_exception w) ->
       result = Throw (runtime_error ("JSON parse error: " +:+ w)))
  /\ (forall body j, fst post = inr body -> json_parse body = inr j ->
       contains j "choices" = false
       \/ (exists o, j = json_object o
                     /\ object_find "choices" o = Some (json_array [])) ->
       result = Throw (runtime_error
                  "LLM generation failed: Invalid response from LLM server")).
Proof.
  intros Hdump post result. subst post result.
  destruct (generate self msgs t p m model st) as [r st'] eqn:Hrun.
  cbn [fst]. revert Hrun.
  rewrite generate_chat_request. unfold try_catch, bind at 1.
  rewrite Hdump. simpl.
  unfold bind at 1, call_http_post, log_event. simpl.
  destruct (http_post _ request _ (world st)) as [[e|body] w] eqn:Hpost; simpl.
  - intros Hrun. split; [|split]; try (intros; discriminate).
    intros e' [= <-] Hne. unfold throw in Hrun.
    destruct e as [w0|w0|w0]; try congruence.
  - unfold bind at 1. intros Hrun.
    split; [intros; discriminate|]. split.
    + intros body' w' [= <-] Hparse. rewrite Hparse in Hrun. simpl in Hrun.
      unfold throw in Hrun. congruence.
    + intros body' j [= <-] Hparse Hshape. rewrite Hparse in Hrun.
      simpl in Hrun.
      destruct Hshape as [Hno|(o & -> & Hchoices)].
      * rewrite Hno in Hrun. simpl in Hrun. unfold throw in Hrun.
        by injection Hrun as <- _.
      * simpl in Hrun. rewrite Hchoices in Hrun.
        rewrite bool_decide_eq_true_2 in Hrun by eauto.
        simpl in Hrun. unfold throw in Hrun. by injection Hrun as <- _.
Qed.

(** [test_connection] never throws. *)
Lemma test_connection_returns self st :
  exists b, fst (test_connection self st) = Return b.
Proof.
  pose proof (test_connection_returns_or_throws self st) as Hreturns.
  revert Hreturns. unfold test_connection, try_catch.
  match goal with
  | |- context [match ?body st with _ => _ end] =>
      destruct (body st) as [[b|e|] st']
  end; simpl; eauto. done.
Qed.

Lemma LLMClient_new_run server_url timeout temperature top_p max_tokens st :
  let probing :=
    mkLLMClient server_url timeout temperature top_p max_tokens true false in
  exists available,
    LLMClient_new server_url timeout temperature top_p max_tokens st
    = (Return (mkLLMClient server_url timeout temperature top_p max_tokens
                           true available),
       snd (test_connection probing st))
    /\ fst (test_connection probing st) = Return available.
Proof.
  intros probing.
  destruct (test_connection_returns probing st) as [available Hprobe].
  exists available. unfold LLMClient_new, bind. fold probing.
  destruct (test_connection probing st) as [r st'] eqn:Hrun.
  simpl in Hprobe. by subst r.
Qed.

(** X11.  The constructor never throws, also when the server cannot be
    reached: it returns a client with the configured values and thinking
    switched off, whose [available_] flag is the answer of the one probe
    made during construction; the flag is [false] when [http_post] threw. *)
Theorem LLMClient_new_never_throws server_url timeout temperature top_p
    max_tokens st :
  let probing :=
    mkLLMClient server_url timeout temperature top_p max_tokens true false in
  exists available,
    LLMClient_new server_url timeout temperature top_p max_tokens st
    = (Return (mkLLMClient server_url timeout temperature top_p max_tokens
                           true available),
       snd (test_connection probing st))
    /\ fst (test_connection probing st) = Return available
    /\ (forall request e,
          json_dump connection_probe = inr request ->
          fst (http_post (server_url +:+ "/v1/chat/completions") request 10
                         (world st)) = inl e ->
          available = false).
Proof.
  intros probing.
  destruct (LLMClient_new_run server_url timeout temperature top_p max_tokens st)
    as (available & Hnew & Hprobe).
  exists available. split; [done|]. split; [done|].
  intros request e Hdump Hpost. revert Hprobe. fold probing.
  unfold test_connection, try_catch, bind at 1. rewrite Hdump. simpl.
  unfold bind at 1, call_http_post, log_event. simpl.
  destruct (http_post _ request 10 (world st)) as [[e'|body] w]; [|done].
  simpl. unfold ret. simpl. congruence.
Qed.

End ClientMore.

(** * More on the manager *)

Lemma trim_history_set_dialog mh s :
  trim_history mh s = set_dialog (dialog (trim_history mh s)) s.
Proof.
  unfold trim_history.
  repeat match goal with |- context [if ?b then _ else _] => destruct b end;
    by destruct s.
Qed.

(** X12.  Trimming is idempotent: a second pass over a trimmed session
    changes nothing (for a bound and a dialog length that fit an [int]). *)
Theorem trim_history_idempotent mh s :
  in_int (2 * mh) ->
  Z.of_nat (length (dialog s)) <= INT_MAX ->
  trim_history mh (trim_history mh s) = trim_history mh s.
Proof.
  intros Hmh Hlen.
  assert (Hshort : Z.of_nat (length (dialog (trim_history mh s))) <= INT_MAX
                   /\ (Z.of_nat (length (dialog (trim_history mh s))) <= 1
                       \/ Z.of_nat (length (dialog (trim_history mh s))) - 1
                          <= 2 * mh)).
  { rewrite trim_history_exact by done.
    destruct (Z.ltb_spec 1 (Z.of_nat (length (dialog s)))) as [H1|H1];
      cbn [andb]; [|lia].
    destruct (Z.ltb_spec (2 * mh) (Z.of_nat (length (dialog s)) - 1))
      as [H2|H2]; [|lia].
    rewrite length_app, length_take, Nat2Z.inj_add, length_last_n.
    unfold INT_MAX in *. lia. }
  destruct Hshort as [Hlen' Hkept].
  rewrite (trim_history_set_dialog mh (trim_history mh s)).
  rewrite (trim_history_exact mh (trim_history mh s)) by done.
  destruct (Z.ltb_spec 1 (Z.of_nat (length (dialog (trim_history mh s)))))
    as [H1|H1]; cbn [andb].
  - destruct (Z.ltb_spec (2 * mh)
                (Z.of_nat (length (dialog (trim_history mh s))) - 1)); [lia|].
    by destruct (trim_history mh s).
  - by destruct (trim_history mh s).
Qed.

Lemma last_n_nonpositive {A} (n : Z) (l : list A) : n <= 0 -> last_n n l = [].
Proof.
  intros Hn. unfold last_n. replace (Z.to_nat n) with 0%nat by lia.
  rewrite Nat.sub_0_r. apply drop_all.
Qed.

(** X14.  A bound of zero or less keeps no history at all: the trimming
    pass cuts every dialog of two or more messages down to its first
    message, provided the position the copy starts from,
    [size - 2 * bound], fits an [int].  (A turn runs the pass right after
    it has appended the user message: with such a bound that message goes
    with the rest.) *)
Theorem nonpositive_bound_keeps_first_message_only mh s :
  mh <= 0 ->
  (2 <= length (dialog s))%nat ->
  Z.of_nat (length (dialog s)) - 2 * mh <= INT_MAX ->
  dialog (trim_history mh s) = take 1 (dialog s).
Proof.
  intros Hmh Hlen Hmax.
  rewrite trim_history_exact;
    [|unfold in_int, INT_MIN, INT_MAX in *; lia|unfold INT_MAX in *; lia].
  destruct (Z.ltb_spec 1 (Z.of_nat (length (dialog s)))); [|lia].
  destruct (Z.ltb_spec (2 * mh) (Z.of_nat (length (dialog s)) - 1)); [|lia].
  simpl. by rewrite last_n_nonpositive, app_nil_r by lia.
Qed.

Section ManagerMore.
Context `{Platform}.

(** X16.  Called with the mutex free, [clear_session] never throws and
    forgets the session: after it the id is not in the map and
    [get_session_history] answers [std::nullopt]; the history of every
    other id is untouched, and clearing again (or clearing an id that was
    never used) changes nothing. *)
Theorem clear_session_forgets sid st :
  guards st = 0%nat ->
  let st' := snd (clear_session sid st) in
  fst (clear_session sid st) = Return tt
  /\ sessions_ st' !! sid = None
  /\ fst (get_session_history sid st') = Return None
  /\ (forall sid', sid' <> sid ->
        fst (get_session_history sid' st') = fst (get_session_history sid' st))
  /\ sessions_ (snd (clear_session sid st')) = sessions_ st'.
Proof.
  intros Hfree. cbv zeta. rewrite (clear_session_run sid st) by done.
  cbn [fst snd]. rewrite !clear_session_run by done. cbn [fst snd sessions_].
  split; [done|]. split; [apply lookup_delete_eq|].
  split; [rewrite get_session_history_run by done; simpl;
          by rewrite lookup_delete_eq|].
  split.
  - intros sid' Hne. rewrite !get_session_history_run by done. simpl.
    by rewrite lookup_delete_ne.
  - apply delete_id, lookup_delete_eq.
Qed.


End ManagerMore.

(** * The sizes of the chunks *)

Lemma length_substring i k s :
  String.length (String.substring i k s) = (k `min` (String.length s - i))%nat.
Proof.
  revert i k. induction s as [|c s IH]; intros i k.
  - rewrite substring_nil. simpl. lia.
  - destruct i as [|i]; simpl.
    + destruct k as [|k]; simpl; [done|]. rewrite (IH 0%nat). lia.
    + apply IH.
Qed.

Lemma chunks_from_sizes r i :
  Forall (fun chunk => (1 <= String.length chunk <= chunk_size)%nat)
         (chunks_from r i)
  /\ full_but_last chunk_size (chunks_from r i)
  /\ length (chunks_from r i) = ((String.length r - i + 9) / 10)%nat.
Proof.
  remember (String.length r - i)%nat as k eqn:Hk.
  revert i Hk. induction (lt_wf k) as [k _ IH]; intros i Hk.
  rewrite chunks_from_step.
  destruct (decide (i < String.length r)%nat) as [Hlt|Hge].
  - destruct (IH (String.length r - (i + chunk_size))%nat
                (ltac:(unfold chunk_size; lia)) (i + chunk_size)%nat eq_refl)
      as (Hall & Hfull & Hcount).
    split; [|split].
    + constructor; [|done]. rewrite length_substring. unfold chunk_size. lia.
    + intros [|j] chunk Hj Hlast.
      * injection Hj as <-. rewrite length_substring.
        simpl in Hlast.
        destruct (chunks_from r (i + chunk_size)) eqn:Hnext; [simpl in Hlast; lia|].
        rewrite chunks_from_step in Hnext.
        destruct (decide (i + chunk_size < String.length r)%nat); [|done].
        unfold chunk_size in *. lia.
      * apply (Hfull j chunk Hj). simpl in Hlast. lia.
    + cbn [length]. rewrite Hcount. unfold chunk_size.
      destruct (le_lt_dec k 10) as [Hsmall|Hbig].
      * replace (String.length r - (i + 10))%nat with 0%nat by lia.
        change ((0 + 9) / 10)%nat with 0%nat.
        apply (Nat.div_unique (k + 9) 10 1 (k - 1)); lia.
      * replace (k + 9)%nat
          with (1 * 10 + (String.length r - (i + 10) + 9))%nat by lia.
        rewrite Nat.div_add_l by lia. lia.
  - split; [constructor|]. split; [by intros ? ? ?|].
    simpl. replace k with 0%nat by lia. done.
Qed.

Section ChunkSizes.
Context `{Platform}.

(** X18.  The simulated stream cuts the reply into pieces of ten
    characters: every chunk handed to the callback has between one and
    ten characters, every chunk but the last has exactly ten, and a reply
    of [n] characters comes in [(n + 9) / 10] chunks; for an empty reply
    the callback is not called at all. *)
Theorem stream_chunk_sizes self msgs t p m model st response st' :
  generate self msgs t p m model st = (Return response, st') ->
  exists chunks,
    generate_stream self msgs (returning record_chunk) t p m model ([], st)
    = (Return tt, (chunks, st'))
    /\ Forall (fun chunk => (1 <= String.length chunk <= chunk_size)%nat) chunks
    /\ full_but_last chunk_size chunks
    /\ length chunks = ((String.length response + 9) / 10)%nat
    /\ (response = "" -> chunks = []).
Proof.
  intros Hgen. exists (chunks_from response 0).
  rewrite generate_stream_run, Hgen, deliver_returning, record_chunks_fold.
  split; [done|].
  destruct (chunks_from_sizes response 0) as (Hall & Hfull & Hcount).
  rewrite Nat.sub_0_r in Hcount.
  split; [done|]. split; [done|]. split; [done|].
  intros ->. by rewrite chunks_from_step.
Qed.

End ChunkSizes.

(** * The global instances *)

Section GlobalsFacts.
Context `{Platform}.

(** The constructor, run in the process: a client with the configured
    values, and the session map untouched. *)
Lemma LLMClient_of_config_run config st :
  exists available st',
    LLMClient_of_config config st
    = (Return (mkLLMClient (server_url config) (timeout config)
                 (temperature config) (top_p config) (max_tokens config)
                 true available), st')
    /\ sessions_ st' = sessions_ st /\ guards st' = guards st.
Proof.
  unfold LLMClient_of_config.
  destruct (LLMClient_new_run (server_url config) (timeout config)
              (temperature config) (top_p config) (max_tokens config) st)
    as (available & -> & Hprobe).
  exists available. eexists. split; [reflexivity|].
  match goal with
  | |- context [test_connection ?c st] =>
      destruct (test_connection c st) as [r st'] eqn:Hrun;
      destruct (test_connection_net_only c st r st' Hrun) as (? & ? & _)
  end.
  done.
Qed.

Lemma get_llm_client_run ps :
  match g_llm_client ps with
  | Some client => get_llm_client ps = (Return client, ps)
  | None =>
      exists available st',
        get_llm_client ps
        = (let client := mkLLMClient (server_url (config_llm ps))
                           (timeout (config_llm ps))
                           (temperature (config_llm ps))
                           (top_p (config_llm ps))
                           (max_tokens (config_llm ps)) true available in
           (Return client,
            mkProcess (config_llm ps) (Some client) (g_session_manager ps) st'))
        /\ sessions_ st' = sessions_ (state ps)
        /\ guards st' = guards (state ps)
  end.
Proof.
  unfold get_llm_client. destruct (g_llm_client ps) as [client|] eqn:Hclient;
    [done|].
  unfold bind at 1, LLMClient_default, in_process.
  destruct (LLMClient_of_config_run (config_llm ps) (state ps))
    as (available & st' & -> & Hsessions & Hguards).
  exists available, st'. by rewrite Hclient.
Qed.

(** X20.  The global client is built, and the server probed, at most
    once: [get_llm_client] returns the client that is there, and builds
    one from the loaded configuration only when there is none.  A second
    call returns the same client and leaves the process as it is; the
    [available_] flag of the client is never refreshed. *)
Theorem get_llm_client_builds_once ps :
  exists client ps1,
    get_llm_client ps = (Return client, ps1)
    /\ g_llm_client ps1 = Some client
    /\ get_llm_client ps1 = (Return client, ps1)
    /\ (forall present, g_llm_client ps = Some present ->
          client = present /\ ps1 = ps).
Proof.
  pose proof (get_llm_client_run ps) as Hrun.
  destruct (g_llm_client ps) as [present|] eqn:Hpresent.
  - exists present, ps. split; [done|]. split; [done|]. split; [done|].
    by intros ? [= <-].
  - destruct Hrun as (available & st' & -> & _). cbv zeta.
    eexists _, _. split; [reflexivity|]. split; [done|]. split; [|done].
    unfold get_llm_client. done.
Qed.

(** X21.  [init_llm_service] never throws and starts afresh: it installs
    a client built from the configuration it is given and a manager on
    that client whose bound is 20 pairs and whose map is empty.  A manager
    that was there before is destroyed and the histories it held are
    gone. *)
Theorem init_llm_service_starts_afresh config ps :
  exists available ps1,
    init_llm_service config ps = (Return tt, ps1)
    /\ let client := mkLLMClient (server_url config) (timeout config)
                       (temperature config) (top_p config) (max_tokens config)
                       true available in
       g_llm_client ps1 = Some client
       /\ g_session_manager ps1 = Some (mkSessionManager client 20)
       /\ sessions_ (state ps1) = ∅
       /\ guards (state ps1) = 0%nat.
Proof.
  unfold init_llm_service, bind at 1, in_process.
  destruct (LLMClient_of_config_run config (state ps))
    as (available & st' & -> & _).
  exists available. eexists. split; [reflexivity|]. done.
Qed.

Lemma get_session_manager_run ps :
  match g_session_manager ps with
  | Some manager => get_session_manager ps = (Return manager, ps)
  | None =>
      exists client ps0,
        get_llm_client ps = (Return client, ps0)
        /\ get_session_manager ps
           = (Return (mkSessionManager client 20),
              mkProcess (config_llm ps0) (g_llm_client ps0)
                (Some (mkSessionManager client 20))
                (mkState (world (state ps0)) ∅ 0 (events (state ps0))))
  end.
Proof.
  unfold get_session_manager.
  destruct (g_session_manager ps) as [manager|] eqn:Hmanager; [done|].
  unfold bind at 1.
  pose proof (get_llm_client_run ps) as Hclient.
  destruct (g_llm_client ps) as [client|].
  - rewrite Hclient. by exists client, ps.
  - destruct Hclient as (available & st' & -> & _). cbv zeta.
    eexists _, _. split; [reflexivity|]. done.
Qed.

Lemma init_llm_service_run config ps :
  exists available st',
    init_llm_service config ps
    = (let client := mkLLMClient (server_url config) (timeout config)
                       (temperature config) (top_p config) (max_tokens config)
                       true available in
       (Return tt,
        mkProcess (config_llm ps) (Some client)
          (Some (mkSessionManager client 20))
          (mkState (world st') ∅ 0 (events st'))))
    /\ sessions_ st' = sessions_ (state ps).
Proof.
  unfold init_llm_service, bind at 1, in_process.
  destruct (LLMClient_of_config_run config (state ps))
    as (available & st' & -> & Hsessions & _).
  by exists available, st'.
Qed.

Lemma get_session_manager_consistent ps :
  globals_consistent ps ->
  exists manager ps1,
    get_session_manager ps = (Return manager, ps1)
    /\ globals_consistent ps1
    /\ g_session_manager ps1 = Some manager.
Proof.
  intros (Hmanager & Hempty).
  pose proof (get_session_manager_run ps) as Hrun.
  destruct (g_session_manager ps) as [manager|] eqn:Hm.
  - exists manager, ps. split; [done|]. split; [|done].
    split; [by rewrite Hm|done].
  - destruct Hrun as (client & ps0 & Hclient & ->).
    eexists _, _. split; [reflexivity|]. split; [|done].
    split; [|done].
    intros manager [= <-]. cbn. split; [done|].
    pose proof (get_llm_client_run ps) as Hrun.
    destruct (g_llm_client ps) as [present|] eqn:Hpresent.
    + rewrite Hrun in Hclient. by injection Hclient as <- <-.
    + destruct Hrun as (available & st' & Hrun & _). rewrite Hrun in Hclient.
      cbv zeta in Hclient. by injection Hclient as <- <-.
Qed.

Lemma perform_in_process_consistent pc ps :
  globals_consistent ps -> globals_consistent (perform_in_process pc ps).
Proof.
  intros (Hmanager & Hempty).
  destruct pc as [config| | |c]; unfold perform_in_process.
  - destruct (init_llm_service_run config ps)
      as (available & st' & -> & _). cbn [snd].
    split; [by intros ? [= <-]|done].
  - pose proof (get_llm_client_run ps) as Hrun.
    destruct (g_llm_client ps) as [client|] eqn:Hclient.
    { rewrite Hrun. cbn [snd]. split; [|done].
      intros manager Hm. rewrite Hclient. by apply Hmanager. }
    destruct Hrun as (available & st' & -> & Hsessions & _).
    unfold globals_consistent. cbn [snd g_llm_client g_session_manager state].
    split; [|by rewrite Hsessions].
    intros manager Hm. destruct (Hmanager manager Hm) as [_ Hc]. congruence.
  - destruct (get_session_manager_consistent ps) as (manager & ps1 & -> & H1).
    + done.
    + apply H1.
  - destruct (get_session_manager_consistent ps (conj Hmanager Hempty))
      as (manager & ps1 & -> & (Hmanager1 & Hempty1) & Hsome).
    unfold globals_consistent. cbn [g_llm_client g_session_manager state].
    split; [done|].
    destruct (perform_sessions manager c (state ps1)) as [->|(sid & _ & ->)];
      [done|].
    rewrite Hempty1. apply delete_empty.
Qed.

(** X22.  Through any sequence of calls on the globals and on the global
    manager, one after the other, the manager has the bound of 20 pairs
    and works on the global client, and the session map stays empty: the
    two entry points of a turn stop before they create a session, and
    nothing else creates one. *)
Theorem deployed_manager_stores_no_session ps :
  process_reachable ps ->
  (forall manager, g_session_manager ps = Some manager ->
     max_history_messages_ manager = 20
     /\ g_llm_client ps = Some (client_ manager))
  /\ sessions_ (state ps) = ∅.
Proof.
  intros (config & w & calls & ->).
  change (globals_consistent
            (foldl (fun ps pc => perform_in_process pc ps)
                   (initial_process config w) calls)).
  induction calls as [|pc calls IH] using rev_ind.
  - by split.
  - rewrite foldl_app. simpl. by apply perform_in_process_consistent.
Qed.

End GlobalsFacts.

(** * The handlers *)

Section HandlersFacts.
Context `{Platform} `{!Collaborators}.

Lemma error_response_run status detail text ps :
  json_dump (json_object [("detail", json_string detail)]) = inr text ->
  LLMHandler.error_response status detail ps
  = (Return (mkResponse status text [("Content-Type", "application/json")]), ps).
Proof.
  intros Hdump. unfold LLMHandler.error_response, bind. by rewrite Hdump.
Qed.

Lemma json_response_run status data text ps :
  json_dump data = inr text ->
  LLMHandler.json_response status data ps
  = (Return (mkResponse status text [("Content-Type", "application/json")]), ps).
Proof.
  intros Hdump. unfold LLMHandler.json_response, bind. by rewrite Hdump.
Qed.

Lemma get_current_user_anonymous ps :
  LLMHandler.get_current_user "" ps = (Return None, ps).
Proof. reflexivity. Qed.

(** X23.  A request without an [Authorization] header is refused by every
    handler that calls the model or the manager: the answer is 401 with
    the detail "Could not validate credentials", and nothing else
    happens: no client is built, no session is created or cleared, the
    network is not touched. *)
Theorem anonymous_requests_refused req session_id text ps :
  get_header_value req "Authorization" = "" ->
  json_dump (json_object
               [("detail", json_string "Could not validate credentials")])
  = inr text ->
  let refused :=
    (Return (mkResponse 401 text [("Content-Type", "application/json")]), ps) in
  LLMHandler.chat req ps = refused
  /\ LLMHandler.session_chat req ps = refused
  /\ LLMHandler.chat_stream req ps = refused
  /\ LLMHandler.session_chat_stream req ps = refused
  /\ LLMHandler.get_session_history req session_id ps = refused
  /\ LLMHandler.post_session_history req ps = refused
  /\ LLMHandler.clear_session req session_id ps = refused.
Proof.
  intros Hheader Hdump refused. subst refused.
  unfold LLMHandler.chat, LLMHandler.session_chat, LLMHandler.chat_stream,
    LLMHandler.session_chat_stream, LLMHandler.get_session_history,
    LLMHandler.post_session_history, LLMHandler.clear_session,
    LLMHandler.answering_errors, LLMHandler.answering_any_error, try_catch.
  rewrite Hheader. cbv zeta. unfold bind.
  rewrite get_current_user_anonymous.
  rewrite (error_response_run 401 _ text ps Hdump).
  repeat split.
Qed.

(** X24.  A request body that is no JSON is answered 500 "Internal
    server error", not 400: the exception of the parser is no
    [std::runtime_error] and falls to the last [catch] clause.  Nothing
    is done on behalf of the request. *)
Theorem malformed_body_is_internal_error req ps user ps1 w text :
  LLMHandler.get_current_user (get_header_value req "Authorization") ps
  = (Return (Some user), ps1) ->
  json_parse (req_body req) = inl (json_exception w) ->
  json_dump (json_object [("detail", json_string "Internal server error")])
  = inr text ->
  let failed :=
    (Return (mkResponse 500 text [("Content-Type", "application/json")]), ps1) in
  LLMHandler.chat req ps = failed
  /\ LLMHandler.session_chat req ps = failed
  /\ LLMHandler.chat_stream req ps = failed
  /\ LLMHandler.session_chat_stream req ps = failed
  /\ LLMHandler.post_session_history req ps = failed.
Proof.
  intros Hauth Hparse Hdump failed. subst failed.
  unfold LLMHandler.chat, LLMHandler.session_chat, LLMHandler.chat_stream,
    LLMHandler.session_chat_stream, LLMHandler.post_session_history,
    LLMHandler.answering_errors, LLMHandler.answering_any_error, try_catch.
  cbv zeta. unfold bind. rewrite Hauth, Hparse. simpl.
  rewrite (error_response_run 500 _ text ps1 Hdump).
  repeat split.
Qed.

(** X25.  [session_chat] and [session_chat_stream] never answer a
    request that is authenticated and complete: the handler stops in
    [process_message] (in [process_message_stream]), which stops in its
    first locked block.  No answer is produced, not an error status
    either; the model is not called, the session map is as it was, and
    the mutex of the manager stays locked. *)
Theorem session_chat_never_answers req ps user ps1 body session_id message
    system_prompt t p m manager ps2 :
  LLMHandler.get_current_user (get_header_value req "Authorization") ps
  = (Return (Some user), ps1) ->
  json_parse (req_body req) = inr body ->
  value_string body "session_id" "" = inr session_id ->
  value_string body "message" "" = inr message ->
  value_string body "system_prompt" "You are a helpful AI assistant."
  = inr system_prompt ->
  session_id <> "" -> message <> "" ->
  LLMHandler.optional_parameters body = inr (t, p, m) ->
  get_session_manager ps1 = (Return manager, ps2) ->
  let stuck :=
    mkProcess (config_llm ps2) (g_llm_client ps2) (g_session_manager ps2)
      (snd (process_message manager session_id system_prompt message t p m
              (state ps2))) in
  LLMHandler.session_chat req ps = (Blocked, stuck)
  /\ LLMHandler.session_chat_stream req ps = (Blocked, stuck)
  /\ sessions_ (state stuck) = sessions_ (state ps2)
  /\ world (state stuck) = world (state ps2)
  /\ (0 < guards (state stuck))%nat.
Proof.
  intros Hauth Hparse Hsid Hmessage Hprompt Hsid_ne Hmessage_ne Hparams
    Hmanager stuck. subst stuck.
  rewrite process_message_run. cbn [snd].
  split; [|split].
  - unfold LLMHandler.session_chat, LLMHandler.answering_errors, try_catch.
    cbv zeta. unfold bind at 1. rewrite Hauth.
    unfold bind at 1. rewrite Hparse. cbn [lift ret].
    unfold bind at 1. rewrite Hsid. cbn [lift ret].
    unfold bind at 1. rewrite Hmessage. cbn [lift ret].
    unfold bind at 1. rewrite Hprompt. cbn [lift ret].
    rewrite decide_False by done. rewrite decide_False by done.
    unfold bind at 1. rewrite Hparams. cbn [lift ret].
    unfold bind at 1. rewrite Hmanager.
    unfold bind at 1, in_process. by rewrite process_message_run.
  - unfold LLMHandler.session_chat_stream, LLMHandler.answering_errors,
      try_catch.
    cbv zeta. unfold bind at 1. rewrite Hauth.
    unfold bind at 1. rewrite Hparse. cbn [lift ret].
    unfold bind at 1. rewrite Hsid. cbn [lift ret].
    unfold bind at 1. rewrite Hmessage. cbn [lift ret].
    unfold bind at 1. rewrite Hprompt. cbn [lift ret].
    rewrite !bool_decide_eq_false_2 by done. cbn [orb].
    unfold bind at 1. rewrite Hparams. cbn [lift ret].
    unfold bind at 1. rewrite Hmanager.
    unfold bind at 1, LLMHandler.with_stream, LLMHandler.in_process_with.
    cbn [fst snd]. by rewrite process_message_stream_run.
  - rewrite locked_phase_A_run. cbn.
    split; [done|]. split; [done|]. destruct (guards (state ps2)); simpl; lia.
Qed.

(** [chat_stream] on a request that is authenticated and well formed,
    when [generate] throws: what the handler does with the stream once
    the marker was handed to the callback. *)
Lemma chat_stream_failure_run req ps user ps1 body msgs messages t p m model
    client ps2 e st3 :
  LLMHandler.get_current_user (get_header_value req "Authorization") ps
  = (Return (Some user), ps1) ->
  json_parse (req_body req) = inr body ->
  contains body "messages" = true ->
  at_key body "messages" = inr msgs ->
  is_array msgs = true ->
  LLMHandler.read_messages (elements msgs) = inr messages ->
  LLMHandler.optional_parameters body = inr (t, p, m) ->
  value_string body "model" "default" = inr model ->
  get_llm_client ps1 = (Return client, ps2) ->
  generate client messages t p m model (state ps2) = (Throw e, st3) ->
  let after :=
    mkProcess (config_llm ps2) (g_llm_client ps2) (g_session_manager ps2) st3 in
  LLMHandler.chat_stream req ps
  = match json_dump (json_object
                       [("content", json_string ("Error: " +:+ what e))]) with
    | inr marker_text =>
        match json_dump (json_object [("done", json_boolean true)]) with
        | inr done_text =>
            (Return (LLMHandler.sse_response
                       ("data: " +:+ marker_text +:+ LLMHandler.LF2
                        +:+ "data: " +:+ done_text +:+ LLMHandler.LF2)),
             after)
        | inl e' =>
            match e' with
            | runtime_error w => LLMHandler.error_response 503 w after
            | _ => LLMHandler.error_response 500 "Internal server error" after
            end
        end
    | inl e' =>
        match e' with
        | runtime_error w => LLMHandler.error_response 503 w after
        | _ => LLMHandler.error_response 500 "Internal server error" after
        end
    end.
Proof.
  intros Hauth Hparse Hcontains Hmsgs Harray Hmessages Hparams Hmodel Hclient
    Hgen after. subst after.
  unfold LLMHandler.chat_stream, LLMHandler.answering_errors, try_catch.
  cbv zeta. unfold bind at 1. rewrite Hauth.
  unfold bind at 1. rewrite Hparse. cbn [lift ret].
  rewrite Hcontains. cbn [negb].
  unfold bind at 1. rewrite Hmsgs. cbn [lift ret].
  rewrite Harray. cbn [negb].
  unfold bind at 1. rewrite Hmessages. cbn [lift ret].
  unfold bind at 1. rewrite Hparams. cbn [lift ret].
  unfold bind at 1. rewrite Hmodel. cbn [lift ret].
  unfold bind at 1. rewrite Hclient.
  unfold bind at 1, LLMHandler.with_stream, LLMHandler.in_process_with.
  cbn [fst snd]. rewrite generate_stream_run, Hgen.
  unfold LLMHandler.sse_event at 1.
  destruct (json_dump (json_object [("content", _)])) as [e'|marker_text];
    [by destruct e'|].
  unfold bind at 1. cbn [snd].
  unfold LLMHandler.sse_event at 1.
  destruct (json_dump (json_object [("done", _)])) as [e'|done_text];
    [by destruct e'|].
  unfold ret. do 2 f_equal.
  by rewrite !append_assoc, append_nil_l.
Qed.

Lemma sse_response_headers sse_stream :
  headers (LLMHandler.sse_response sse_stream)
  = [("Content-Type", "text/event-stream"); ("Cache-Control", "no-cache");
     ("Connection", "keep-alive")].
Proof. reflexivity. Qed.

(** X26.  A failure of the model is answered in band when the error
    marker can be serialized, and only then.  When [generate] throws,
    [chat_stream] answers 200 with an event stream of two events, the
    error marker of [generate_stream] as content and the done signal.
    When the marker cannot be serialized, the exception of the serializer
    leaves the [catch] clause of [generate_stream], and the handler
    answers with the error status of its own [catch] clauses: 503 for a
    [std::runtime_error], 500 for anything else. *)
Theorem chat_stream_failure_in_band req ps user ps1 parsed msgs messages t p m
    model client ps2 e st3 :
  LLMHandler.get_current_user (get_header_value req "Authorization") ps
  = (Return (Some user), ps1) ->
  json_parse (req_body req) = inr parsed ->
  contains parsed "messages" = true ->
  at_key parsed "messages" = inr msgs ->
  is_array msgs = true ->
  LLMHandler.read_messages (elements msgs) = inr messages ->
  LLMHandler.optional_parameters parsed = inr (t, p, m) ->
  value_string parsed "model" "default" = inr model ->
  get_llm_client ps1 = (Return client, ps2) ->
  generate client messages t p m model (state ps2) = (Throw e, st3) ->
  let after :=
    mkProcess (config_llm ps2) (g_llm_client ps2) (g_session_manager ps2) st3 in
  let marker := json_object [("content", json_string ("Error: " +:+ what e))] in
  (forall marker_text done_text,
     json_dump marker = inr marker_text ->
     json_dump (json_object [("done", json_boolean true)]) = inr done_text ->
     exists res,
       LLMHandler.chat_stream req ps = (Return res, after)
       /\ code res = 200
       /\ body res = "data: " +:+ marker_text +:+ LLMHandler.LF2
                     +:+ "data: " +:+ done_text +:+ LLMHandler.LF2
       /\ ("Content-Type", "text/event-stream") ∈ headers res)
  /\ (forall e',
        json_dump marker = inl e' ->
        LLMHandler.chat_stream req ps
        = match e' with
          | runtime_error w => LLMHandler.error_response 503 w after
          | _ => LLMHandler.error_response 500 "Internal server error" after
          end).
Proof.
  intros Hauth Hparse Hcontains Hmsgs Harray Hmessages Hparams Hmodel Hclient
    Hgen after marker.
  pose proof (chat_stream_failure_run req ps user ps1 parsed msgs messages
                t p m model client ps2 e st3 Hauth Hparse Hcontains Hmsgs
                Harray Hmessages Hparams Hmodel Hclient Hgen) as Hrun.
  cbv zeta in Hrun. fold after marker in Hrun. split.
  - intros marker_text done_text Hmarker Hdone.
    rewrite Hmarker, Hdone in Hrun.
    eexists. split; [exact Hrun|]. split; [done|]. split; [done|].
    rewrite sse_response_headers, !elem_of_cons. tauto.
  - intros e' Hmarker. by rewrite Hmarker in Hrun.
Qed.

(** X27.  The two chat handlers differ on an empty list of messages:
    [chat] refuses it with 400 "At least one message is required" before
    anything else is read, [chat_stream] has no such test and, the
    optional parameters being well typed, calls the model with no message
    (and, the model failing and the two events serialized, answers 200
    with the error marker in the stream). *)
Theorem empty_messages_chat_and_stream req ps user ps1 body text :
  LLMHandler.get_current_user (get_header_value req "Authorization") ps
  = (Return (Some user), ps1) ->
  json_parse (req_body req) = inr body ->
  contains body "messages" = true ->
  at_key body "messages" = inr (json_array []) ->
  json_dump (json_object
               [("detail", json_string "At least one message is required")])
  = inr text ->
  LLMHandler.chat req ps
  = (Return (mkResponse 400 text [("Content-Type", "application/json")]), ps1)
  /\ (forall t p m model client ps2 e st3 marker_text done_text,
        LLMHandler.optional_parameters body = inr (t, p, m) ->
        value_string body "model" "default" = inr model ->
        get_llm_client ps1 = (Return client, ps2) ->
        generate client [] t p m model (state ps2) = (Throw e, st3) ->
        json_dump (json_object [("content", json_string ("Error: " +:+ what e))])
        = inr marker_text ->
        json_dump (json_object [("done", json_boolean true)]) = inr done_text ->
        LLMHandler.chat_stream req ps
        = (Return (LLMHandler.sse_response
                     ("data: " +:+ marker_text +:+ LLMHandler.LF2
                      +:+ "data: " +:+ done_text +:+ LLMHandler.LF2)),
           mkProcess (config_llm ps2) (g_llm_client ps2)
                     (g_session_manager ps2) st3)).
Proof.
  intros Hauth Hparse Hcontains Hmsgs Hdump. split.
  - unfold LLMHandler.chat, LLMHandler.answering_errors, try_catch.
    cbv zeta. unfold bind at 1. rewrite Hauth.
    unfold bind at 1. rewrite Hparse. cbn [lift ret].
    rewrite Hcontains. cbn [negb].
    unfold bind at 1. rewrite Hmsgs. cbn [lift ret is_array negb].
    unfold bind at 1. cbn [elements LLMHandler.read_messages lift ret].
    rewrite decide_True by done.
    by rewrite (error_response_run 400 _ text ps1 Hdump).
  - intros t p m model client ps2 e st3 marker_text done_text Hparams Hmodel
      Hclient Hgen Hmarker Hdone.
    rewrite (chat_stream_failure_run req ps user ps1 body (json_array []) []
               t p m model client ps2 e st3) by done.
    cbv zeta. by rewrite Hmarker, Hdone.
Qed.

Lemma history_response_run session_id manager (ps1 ps2 : Process) :
  get_session_manager ps1 = (Return manager, ps2) ->
  guards (state ps2) = 0%nat ->
  LLMHandler.history_response session_id ps1
  = (let after :=
       mkProcess (config_llm ps2) (g_llm_client ps2) (g_session_manager ps2)
         (snd (get_session_history session_id (state ps2))) in
     match sessions_ (state ps2) !! session_id with
     | None => LLMHandler.error_response 404 "Session not found" after
     | Some s =>
         LLMHandler.json_response 200
           (json_object [("session_id", json_string session_id);
                         ("messages", json_array (message_json <$> dialog s))])
           after
     end).
Proof.
  intros Hmanager Hfree. unfold LLMHandler.history_response, bind at 1.
  rewrite Hmanager. unfold bind at 1, in_process.
  rewrite get_session_history_run by done. cbn [fst snd].
  by destruct (sessions_ (state ps2) !! session_id).
Qed.

(** X28.  The two history handlers, when the mutex of the manager is
    free.  For a session id that is not in the map the answer is 404
    "Session not found"; for one that is, 200 with the stored dialog,
    message by message; and the POST variant, given the id in its body,
    answers what the GET variant answers for the id in the path. *)
Theorem history_handlers_answer req ps user ps1 session_id manager ps2 :
  LLMHandler.get_current_user (get_header_value req "Authorization") ps
  = (Return (Some user), ps1) ->
  get_session_manager ps1 = (Return manager, ps2) ->
  guards (state ps2) = 0%nat ->
  let after :=
    mkProcess (config_llm ps2) (g_llm_client ps2) (g_session_manager ps2)
      (snd (get_session_history session_id (state ps2))) in
  (forall text,
     sessions_ (state ps2) !! session_id = None ->
     json_dump (json_object [("detail", json_string "Session not found")])
     = inr text ->
     LLMHandler.get_session_history req session_id ps
     = (Return (mkResponse 404 text [("Content-Type", "application/json")]),
        after))
  /\ (forall s text,
       sessions_ (state ps2) !! session_id = Some s ->
       json_dump (json_object
                    [("session_id", json_string session_id);
                     ("messages", json_array (message_json <$> dialog s))])
       = inr text ->
       LLMHandler.get_session_history req session_id ps
       = (Return (mkResponse 200 text [("Content-Type", "application/json")]),
          after))
  /\ (forall body,
       json_parse (req_body req) = inr body ->
       value_string body "session_id" "" = inr session_id ->
       session_id <> "" ->
       LLMHandler.post_session_history req ps
       = LLMHandler.get_session_history req session_id ps).
Proof.
  intros Hauth Hmanager Hfree after.
  assert (Hget :
    LLMHandler.get_session_history req session_id ps
    = LLMHandler.answering_any_error "Internal server error"
        (LLMHandler.history_response session_id) ps1).
  { unfold LLMHandler.get_session_history, LLMHandler.answering_any_error,
      try_catch. cbv zeta. unfold bind at 1. by rewrite Hauth. }
  split; [|split].
  - intros text Hnone Hdump. rewrite Hget.
    unfold LLMHandler.answering_any_error, try_catch.
    rewrite (history_response_run _ _ _ _ Hmanager Hfree). cbv zeta. rewrite Hnone.
    by rewrite (error_response_run 404 _ text _ Hdump).
  - intros s text Hsome Hdump. rewrite Hget.
    unfold LLMHandler.answering_any_error, try_catch.
    rewrite (history_response_run _ _ _ _ Hmanager Hfree). cbv zeta. rewrite Hsome.
    by rewrite (json_response_run 200 _ text _ Hdump).
  - intros body Hparse Hsid Hne. rewrite Hget.
    unfold LLMHandler.post_session_history, LLMHandler.answering_any_error,
      try_catch. cbv zeta. unfold bind at 1. rewrite Hauth.
    unfold bind at 1. rewrite Hparse. cbn [lift ret].
    unfold bind at 1. rewrite Hsid. cbn [lift ret].
    by rewrite decide_False by done.
Qed.

(** X29.  When the mutex of the manager is free, the handler of DELETE
    answers 200 "Session ... cleared" for every session id, also for one
    that was never used: there is no 404.  Afterwards the id is not in
    the map. *)
Theorem clear_session_handler_always_ok req ps user ps1 session_id manager ps2
    text :
  LLMHandler.get_current_user (get_header_value req "Authorization") ps
  = (Return (Some user), ps1) ->
  get_session_manager ps1 = (Return manager, ps2) ->
  guards (state ps2) = 0%nat ->
  json_dump (json_object
               [("ok", json_boolean true);
                ("message", json_string ("Session " +:+ session_id
                                         +:+ " cleared"))])
  = inr text ->
  exists ps3,
    LLMHandler.clear_session req session_id ps
    = (Return (mkResponse 200 text [("Content-Type", "application/json")]), ps3)
    /\ sessions_ (state ps3) = delete session_id (sessions_ (state ps2))
    /\ sessions_ (state ps3) !! session_id = None.
Proof.
  intros Hauth Hmanager Hfree Hdump.
  unfold LLMHandler.clear_session, LLMHandler.answering_any_error, try_catch.
  cbv zeta. unfold bind at 1. rewrite Hauth.
  unfold bind at 1. rewrite Hmanager.
  unfold bind at 1, in_process. rewrite clear_session_run by done.
  cbn [fst snd].
  rewrite (json_response_run 200 _ text _ Hdump).
  eexists. split; [reflexivity|]. cbn. split; [done|]. apply lookup_delete_eq.
Qed.

(** X30.  The health handler asks for no credentials and does not probe
    the server: it reports the [available_] flag the client got when it
    was built, 200 "ok" when it is set and 503 "unavailable" when it is
    not. *)
Theorem health_reports_the_flag ps client ps1 text :
  get_llm_client ps = (Return client, ps1) ->
  json_dump
    (json_object
       [("status", json_string (if available_ client then "ok"
                                else "unavailable"));
        ("server_url", json_string (server_url_ client));
        ("temperature", json_number_float (default_temperature_ client));
        ("max_tokens", json_number_integer (default_max_tokens_ client))])
  = inr text ->
  LLMHandler.health ps
  = (Return (mkResponse (if available_ client then 200 else 503) text
                        [("Content-Type", "application/json")]), ps1)
  /\ (forall present, g_llm_client ps = Some present ->
        client = present /\ ps1 = ps).
Proof.
  intros Hclient Hdump. split.
  - unfold LLMHandler.health, try_catch, bind at 1. rewrite Hclient.
    cbv zeta. by rewrite (json_response_run _ _ text _ Hdump).
  - intros present Hpresent. pose proof (get_llm_client_run ps) as Hrun.
    rewrite Hpresent in Hrun. rewrite Hrun in Hclient.
    by injection Hclient as <- <-.
Qed.

End HandlersFacts.

(** * Examples for the transport, the globals and the handlers *)

Lemma parse_url_explicit_port_witness :
  parse_url "https://localhost:8080/v1/chat/completions"
  = inr (mkUrlParts "localhost" 8080 "/v1/chat/completions").
Proof.
  apply (parse_url_explicit_port "https://" "localhost" 8080
           "/v1/chat/completions").
  - by right.
  - simpl. repeat split; discriminate.
  - simpl. repeat split; discriminate.
  - unfold INT_MAX. lia.
  - right. by eexists.
Defined.

Lemma parse_url_default_port_witness :
  parse_url "https://example.com"
  = inr (mkUrlParts "example.com" 443 "/").
Proof.
  apply (parse_url_default_port "https://" 443 "example.com" "").
  - by right.
  - simpl. repeat split; discriminate.
  - simpl. repeat split; discriminate.
  - by left.
Defined.

Lemma parse_url_parts_shape_witness :
  free_of slash "example.com" /\ free_of colon "example.com"
  /\ (exists rest, "/a:b/c" = String slash rest)
  /\ in_int 8443.
Proof.
  apply (parse_url_parts_shape "http://example.com:8443/a:b/c"
           (mkUrlParts "example.com" 8443 "/a:b/c")).
  vm_compute. reflexivity.
Defined.

Lemma parse_url_unknown_scheme_witness :
  parse_url "HTTP://localhost:8080" = inl (std_exception "stoi").
Proof.
  apply (parse_url_unknown_scheme "HTTP" "localhost:8080").
  - simpl. repeat split; discriminate.
  - simpl. repeat split; discriminate.
  - discriminate.
  - discriminate.
Defined.

Lemma http_response_body_after_blank_line_witness :
  http_response_body
    (("HTTP/1.1 500 Internal Server Error" +:+ CRLF
      +:+ "Content-Type: text/plain")
     +:+ CRLF +:+ CRLF +:+ "out of memory")
  = inr "out of memory".
Proof.
  apply (http_response_body_after_blank_line
           ("HTTP/1.1 500 Internal Server Error" +:+ CRLF
            +:+ "Content-Type: text/plain") "out of memory").
  vm_compute. reflexivity.
Defined.

Lemma unknown_scheme_never_connects_witness :
  let self := mkLLMClient "HTTP://localhost:8080" 300 0 0 4096 true false in
  let st : @State ScriptedNet.platform :=
    @initial_state ScriptedNet.platform (ScriptedNet.answering []) in
  fst (@generate ScriptedNet.platform self [mkChatMessage "user" "hi"]
         None None None "default" st)
  = Throw (runtime_error "LLM generation failed: stoi")
  /\ fst (@test_connection ScriptedNet.platform self st) = Return false.
Proof.
  cbv zeta.
  destruct (@unknown_scheme_never_connects ScriptedNet.sockets
              (fun w => (0, w)) (fun j => inr (Scripted.dump j)) Scripted.parse
              "HTTP" "localhost:8080"
              (mkLLMClient "HTTP://localhost:8080" 300 0 0 4096 true false)
              [mkChatMessage "user" "hi"] None None None "default"
              (@initial_state ScriptedNet.platform (ScriptedNet.answering [])))
    as ((reason & Hthrow & Hreason) & _ & Hprobe & _).
  - simpl. repeat split; discriminate.
  - simpl. repeat split; discriminate.
  - discriminate.
  - discriminate.
  - reflexivity.
  - split; [|exact Hprobe].
    pose proof (Hreason _ eq_refl) as Hstoi. subst reason. exact Hthrow.
Defined.

Lemma generate_failure_texts_witness :
  fst (generate Scripted.client [mkChatMessage "user" "hi"] None None None
                "default" (Scripted.start []))
  = Throw (runtime_error
             "LLM generation failed: Failed to connect to localhost:8080")
  /\ fst (generate Scripted.client [mkChatMessage "user" "hi"] None None None
                   "default"
                   (Scripted.start [inr Scripted.empty_choices_text]))
     = Throw (runtime_error
                "LLM generation failed: Invalid response from LLM server").
Proof.
  split.
  - pose proof (generate_failure_texts Scripted.client
                  [mkChatMessage "user" "hi"] None None None "default"
                  (Scripted.start [])
                  (Scripted.dump (chat_request Scripted.client
                                    [mkChatMessage "user" "hi"] None None None
                                    "default"))
                  eq_refl) as Hcases.
    cbv zeta in Hcases. destruct Hcases as (Hpost & _ & _).
    apply (Hpost (runtime_error "Failed to connect to localhost:8080")).
    + reflexivity.
    + discriminate.
  - pose proof (generate_failure_texts Scripted.client
                  [mkChatMessage "user" "hi"] None None None "default"
                  (Scripted.start [inr Scripted.empty_choices_text])
                  (Scripted.dump (chat_request Scripted.client
                                    [mkChatMessage "user" "hi"] None None None
                                    "default"))
                  eq_refl) as Hcases.
    cbv zeta in Hcases. destruct Hcases as (_ & _ & Hshape).
    apply (Hshape Scripted.empty_choices_text
             (json_object [("choices", json_array [])])).
    + reflexivity.
    + vm_compute. reflexivity.
    + right. eexists. split; reflexivity.
Defined.

Lemma trim_history_idempotent_witness :
  let s := mkSession [mkChatMessage "system" "P"; mkChatMessage "user" "u1";
                      mkChatMessage "assistant" "a1"; mkChatMessage "user" "u2";
                      mkChatMessage "assistant" "a2"; mkChatMessage "user" "u3"]
                     0 0 3 in
  dialog (trim_history 2 s)
  = [mkChatMessage "system" "P"; mkChatMessage "assistant" "a1";
     mkChatMessage "user" "u2"; mkChatMessage "assistant" "a2";
     mkChatMessage "user" "u3"]
  /\ trim_history 2 (trim_history 2 s) = trim_history 2 s.
Proof.
  cbv zeta. split; [vm_compute; reflexivity|].
  apply trim_history_idempotent.
  - unfold in_int, INT_MIN, INT_MAX. lia.
  - unfold INT_MAX. simpl. lia.
Defined.

Lemma nonpositive_bound_keeps_first_message_only_witness :
  let s := dialog_push_back (mkChatMessage "user" "hi")
             (mkSession [mkChatMessage "system" "P"] 1000 1000 0) in
  dialog (trim_history 0 s) = [mkChatMessage "system" "P"].
Proof.
  cbv zeta.
  rewrite (nonpositive_bound_keeps_first_message_only 0
             (dialog_push_back (mkChatMessage "user" "hi")
                (mkSession [mkChatMessage "system" "P"] 1000 1000 0))).
  - reflexivity.
  - lia.
  - simpl. lia.
  - unfold INT_MAX. simpl. lia.
Defined.

Lemma clear_session_forgets_witness :
  let st' := snd (clear_session "s" Scripted.seeded) in
  sessions_ Scripted.seeded !! "s"
  = Some (mkSession [mkChatMessage "system" "P"] 1000 1000 0)
  /\ fst (clear_session "s" Scripted.seeded) = Return tt
  /\ sessions_ st' !! "s" = None
  /\ fst (get_session_history "s" st') = Return None.
Proof.
  cbv zeta. split; [vm_compute; reflexivity|].
  destruct (clear_session_forgets "s" Scripted.seeded eq_refl)
    as (Hreturns & Hgone & Hhistory & _).
  split; [exact Hreturns|]. split; [exact Hgone|exact Hhistory].
Defined.

Lemma stream_chunk_sizes_witness :
  let st := Scripted.start
              [inr (Scripted.completion_text "abcdefghijklmnopqrstuvwxy")] in
  exists chunks,
    fst (snd (generate_stream Scripted.client [mkChatMessage "user" "hi"]
                (returning record_chunk) None None None "default" ([], st)))
    = chunks
    /\ Forall (fun chunk => (1 <= String.length chunk <= chunk_size)%nat) chunks
    /\ length chunks = 3%nat.
Proof.
  cbv zeta.
  destruct (stream_chunk_sizes Scripted.client [mkChatMessage "user" "hi"]
              None None None "default"
              (Scripted.start
                 [inr (Scripted.completion_text "abcdefghijklmnopqrstuvwxy")])
              "abcdefghijklmnopqrstuvwxy"
              (snd (generate Scripted.client [mkChatMessage "user" "hi"]
                      None None None "default"
                      (Scripted.start
                         [inr (Scripted.completion_text
                                 "abcdefghijklmnopqrstuvwxy")]))))
    as (chunks & Hrun & Hall & _ & Hcount & _).
  - vm_compute. reflexivity.
  - exists chunks. rewrite Hrun. split; [reflexivity|]. split; [exact Hall|].
    exact Hcount.
Defined.


Lemma deployed_manager_stores_no_session_witness :
  let ps := foldl (fun ps pc => perform_in_process pc ps)
              (ScriptedPortal.start Scripted.ten_replies)
              [call_on_manager
                 (call_process_message "s" "P" "hi" None None None);
               call_on_manager (call_get_session_history "s")] in
  g_session_manager ps
  = Some (mkSessionManager
            (mkLLMClient "http://localhost:8080" 300 0 0 4096 true true) 20)
  /\ (forall manager, g_session_manager ps = Some manager ->
        max_history_messages_ manager = 20
        /\ g_llm_client ps = Some (client_ manager))
  /\ sessions_ (state ps) = ∅.
Proof.
  cbv zeta. split; [vm_compute; reflexivity|].
  apply (@deployed_manager_stores_no_session ScriptedPortal.platform).
  exists ScriptedPortal.configuration,
         (Scripted.mkWorld Scripted.ten_replies 1000),
         [call_on_manager (call_process_message "s" "P" "hi" None None None);
          call_on_manager (call_get_session_history "s")].
  reflexivity.
Defined.

Lemma anonymous_requests_refused_witness :
  let req := ScriptedPortal.anonymous
               (Scripted.dump ScriptedPortal.session_request) in
  let ps := ScriptedPortal.start Scripted.ten_replies in
  let refused :=
    (Return (mkResponse 401
               (Scripted.dump
                  (json_object
                     [("detail",
                       json_string "Could not validate credentials")]))
               [("Content-Type", "application/json")]), ps) in
  @LLMHandler.session_chat ScriptedPortal.platform ScriptedPortal.collaborators
    req ps = refused
  /\ @LLMHandler.clear_session ScriptedPortal.platform
       ScriptedPortal.collaborators req "s" ps = refused.
Proof.
  cbv zeta.
  destruct (@anonymous_requests_refused ScriptedPortal.platform
              ScriptedPortal.collaborators
              (ScriptedPortal.anonymous
                 (Scripted.dump ScriptedPortal.session_request))
              "s"
              (Scripted.dump
                 (json_object
                    [("detail", json_string "Could not validate credentials")]))
              (ScriptedPortal.start Scripted.ten_replies)
              eq_refl eq_refl)
    as (_ & Hsession & _ & _ & _ & _ & Hclear).
  split; [exact Hsession|exact Hclear].
Defined.

Lemma malformed_body_is_internal_error_witness :
  let req := ScriptedPortal.authorized "session_id=s" in
  let ps := ScriptedPortal.start Scripted.ten_replies in
  fst (@LLMHandler.session_chat ScriptedPortal.platform
         ScriptedPortal.collaborators req ps)
  = Return (mkResponse 500
              (Scripted.dump
                 (json_object
                    [("detail", json_string "Internal server error")]))
              [("Content-Type", "application/json")]).
Proof.
  cbv zeta.
  destruct (@malformed_body_is_internal_error ScriptedPortal.platform
              ScriptedPortal.collaborators
              (ScriptedPortal.authorized "session_id=s")
              (ScriptedPortal.start Scripted.ten_replies)
              7 (ScriptedPortal.start Scripted.ten_replies)
              "[json.exception.parse_error.101] parse error at line 1, column 1: syntax error while parsing value"
              (Scripted.dump
                 (json_object
                    [("detail", json_string "Internal server error")])))
    as (_ & Hsession & _).
  - vm_compute. reflexivity.
  - vm_compute. reflexivity.
  - reflexivity.
  - rewrite Hsession. reflexivity.
Defined.

Lemma session_chat_never_answers_witness :
  let req := ScriptedPortal.authorized
               (Scripted.dump ScriptedPortal.session_request) in
  let ps := ScriptedPortal.start Scripted.ten_replies in
  fst (@LLMHandler.session_chat ScriptedPortal.platform
         ScriptedPortal.collaborators req ps) = Blocked
  /\ fst (@LLMHandler.session_chat_stream ScriptedPortal.platform
            ScriptedPortal.collaborators req ps) = Blocked
  /\ sessions_ (state (snd (@LLMHandler.session_chat ScriptedPortal.platform
                              ScriptedPortal.collaborators req ps))) = ∅.
Proof.
  cbv zeta.
  edestruct (@session_chat_never_answers ScriptedPortal.platform
               ScriptedPortal.collaborators
               (ScriptedPortal.authorized
                  (Scripted.dump ScriptedPortal.session_request))
               (ScriptedPortal.start Scripted.ten_replies))
    as (Hchat & Hstream & Hsessions & _).
  - vm_compute. reflexivity.
  - vm_compute. reflexivity.
  - vm_compute. reflexivity.
  - vm_compute. reflexivity.
  - vm_compute. reflexivity.
  - discriminate.
  - discriminate.
  - vm_compute. reflexivity.
  - vm_compute. reflexivity.
  - rewrite Hchat, Hstream. cbn [fst snd]. split; [done|]. split; [done|].
    rewrite Hsessions. vm_compute. reflexivity.
Defined.

Lemma chat_stream_failure_in_band_witness :
  exists res,
    fst (@LLMHandler.chat_stream ScriptedPortal.platform
           ScriptedPortal.collaborators
           (ScriptedPortal.authorized
              (Scripted.dump ScriptedPortal.chat_request))
           (ScriptedPortal.start []))
    = Return res
    /\ code res = 200
    /\ ("Content-Type", "text/event-stream") ∈ headers res.
Proof.
  edestruct (@chat_stream_failure_in_band ScriptedPortal.platform
               ScriptedPortal.collaborators
               (ScriptedPortal.authorized
                  (Scripted.dump ScriptedPortal.chat_request))
               (ScriptedPortal.start []))
    as (Hin_band & _).
  - vm_compute. reflexivity.
  - vm_compute. reflexivity.
  - vm_compute. reflexivity.
  - vm_compute. reflexivity.
  - vm_compute. reflexivity.
  - vm_compute. reflexivity.
  - vm_compute. reflexivity.
  - vm_compute. reflexivity.
  - vm_compute. reflexivity.
  - vm_compute. reflexivity.
  - destruct (Hin_band _ _ eq_refl eq_refl) as (res & Hrun & Hcode & _ & Hheader).
    exists res. rewrite Hrun. done.
Defined.

Lemma empty_messages_chat_and_stream_witness :
  fst (@LLMHandler.chat ScriptedPortal.platform ScriptedPortal.collaborators
         (ScriptedPortal.authorized
            (Scripted.dump ScriptedPortal.empty_chat_request))
         (ScriptedPortal.start Scripted.ten_replies))
  = Return (mkResponse 400
              (Scripted.dump
                 (json_object
                    [("detail",
                      json_string "At least one message is required")]))
              [("Content-Type", "application/json")]).
Proof.
  edestruct (@empty_messages_chat_and_stream ScriptedPortal.platform
               ScriptedPortal.collaborators
               (ScriptedPortal.authorized
                  (Scripted.dump ScriptedPortal.empty_chat_request))
               (ScriptedPortal.start Scripted.ten_replies))
    as (Hchat & _).
  - vm_compute. reflexivity.
  - vm_compute. reflexivity.
  - vm_compute. reflexivity.
  - vm_compute. reflexivity.
  - vm_compute. reflexivity.
  - rewrite Hchat. reflexivity.
Defined.

Lemma history_handlers_answer_witness :
  let req := ScriptedPortal.authorized
               (Scripted.dump ScriptedPortal.history_request) in
  let ps := ScriptedPortal.seeded Scripted.ten_replies in
  fst (@LLMHandler.get_session_history ScriptedPortal.platform
         ScriptedPortal.collaborators req "s" ps)
  = Return (mkResponse 200
              (Scripted.dump
                 (json_object
                    [("session_id", json_string "s");
                     ("messages",
                      json_array
                        (message_json <$> [mkChatMessage "system" "P"]))]))
              [("Content-Type", "application/json")])
  /\ @LLMHandler.post_session_history ScriptedPortal.platform
       ScriptedPortal.collaborators req ps
     = @LLMHandler.get_session_history ScriptedPortal.platform
         ScriptedPortal.collaborators req "s" ps.
Proof.
  cbv zeta.
  edestruct (@history_handlers_answer ScriptedPortal.platform
               ScriptedPortal.collaborators
               (ScriptedPortal.authorized
                  (Scripted.dump ScriptedPortal.history_request))
               (ScriptedPortal.seeded Scripted.ten_replies))
    with (session_id := "s")
    as (_ & Hfound & Hpost).
  - vm_compute. reflexivity.
  - vm_compute. reflexivity.
  - vm_compute. reflexivity.
  - split.
    + erewrite Hfound; [reflexivity| vm_compute; reflexivity | reflexivity].
    + apply (Hpost ScriptedPortal.history_request);
        [vm_compute; reflexivity | vm_compute; reflexivity | discriminate].
Defined.

Lemma clear_session_handler_always_ok_witness :
  exists ps3,
    @LLMHandler.clear_session ScriptedPortal.platform
      ScriptedPortal.collaborators
      (ScriptedPortal.authorized "") "never used"
      (ScriptedPortal.start Scripted.ten_replies)
    = (Return (mkResponse 200
                 (Scripted.dump
                    (json_object
                       [("ok", json_boolean true);
                        ("message",
                         json_string "Session never used cleared")]))
                 [("Content-Type", "application/json")]), ps3)
    /\ sessions_ (state ps3) !! "never used" = None.
Proof.
  edestruct (@clear_session_handler_always_ok ScriptedPortal.platform
               ScriptedPortal.collaborators
               (ScriptedPortal.authorized "")
               (ScriptedPortal.start Scripted.ten_replies))
    with (session_id := "never used")
    as (ps3 & Hrun & _ & Hgone).
  - vm_compute. reflexivity.
  - vm_compute. reflexivity.
  - vm_compute. reflexivity.
  - reflexivity.
  - exists ps3. split; [exact Hrun | exact Hgone].
Defined.

Lemma health_reports_the_flag_witness :
  fst (@LLMHandler.health ScriptedPortal.platform
         (ScriptedPortal.start []))
  = Return (mkResponse 503
              (Scripted.dump
                 (json_object
                    [("status", json_string "unavailable");
                     ("server_url", json_string "http://localhost:8080");
                     ("temperature", json_number_float 0);
                     ("max_tokens", json_number_integer 4096)]))
              [("Content-Type", "application/json")]).
Proof.
  edestruct (@health_reports_the_flag ScriptedPortal.platform
               (ScriptedPortal.start []))
    as (Hrun & _).
  - vm_compute. reflexivity.
  - vm_compute. reflexivity.
  - rewrite Hrun. reflexivity.
Defined.

